(** * MACE-JAX: the equivariant message-passing energy model

    A shallow embedding of
      - [mace_jax/modules/models.py]   ([GeneralMACE], [MACE]),
      - [mace_jax/tools/gin_model.py]  ([model], [model_]),
      - [mace_jax/tools/gin_functions.py] ([reload], [train], [parse_argv]),
      - [mace_jax/plot_train.py] ([parse_training_results], [get_paths]).

    The entries of the arrays of the model are idealised as real numbers.
    A loss of the training loop is a float with its infinities and NaN,
    and the quotient of an edge vector by its length is a number, an
    infinity or NaN.  What lives in [e3nn_jax], [haiku] and [jax], or in
    the modules [blocks.py], [utils.py], [mace_jax.tools] and
    [mace_jax.data] that the files import, is an operation of an
    interface, so that every statement below holds for any implementation
    of it. *)

From Stdlib Require Import String Ascii Reals ZArith List Bool Arith Lia Lra.
From Stdlib Require Import ClassicalEpsilon.
Import ListNotations.

Set Implicit Arguments.
Set Warnings "-register-all".

(** ** Python exceptions and fallible computations *)

Inductive exn : Type :=
| ValueError (msg : string)
| TypeError (msg : string)
| AttributeError (msg : string)
| FileNotFoundError (msg : string)
| EOFError (msg : string)
| ArrayIndexError (msg : string)
| FloatingPointError (msg : string).

Inductive result (A : Type) : Type :=
| Ok (a : A)
| Raise (e : exn).

Arguments Ok {A} a.
Arguments Raise {A} e.

Definition bind {A B : Type} (c : result A) (k : A -> result B) : result B :=
  match c with
  | Ok a => k a
  | Raise e => Raise e
  end.

Notation "x <- c ;; k" := (bind c (fun x => k))
  (at level 61, c at next level, right associativity).
Notation "c ;;; k" := (bind c (fun _ => k))
  (at level 61, right associativity).

Definition raises {A : Type} (c : result A) : Prop :=
  exists e, c = Raise e.

Definition returns {A : Type} (c : result A) : Prop :=
  exists a, c = Ok a.

(** ** [e3nn.Irrep] and [e3nn.Irreps] *)

Inductive parity : Type := Even | Odd.

Record Irrep : Type := mkIrrep { ir_l : nat; ir_p : parity }.

Definition parity_eqb (p q : parity) : bool :=
  match p, q with
  | Even, Even | Odd, Odd => true
  | _, _ => false
  end.

Definition Irrep_eqb (a b : Irrep) : bool :=
  Nat.eqb (ir_l a) (ir_l b) && parity_eqb (ir_p a) (ir_p b).

(** A list of [(mul, ir)] pairs, in the order in which they were declared;
    [e3nn.Irreps(...)] neither sorts nor merges them. *)
Definition Irreps : Type := list (nat * Irrep).

Definition ir_0e : Irrep := mkIrrep 0 Even.

(** [Irreps.count(ir)]: [sum(mul for mul, ir_ in self if ir_ == ir)]. *)
Fixpoint count (irreps : Irreps) (ir : Irrep) : nat :=
  match irreps with
  | [] => 0
  | (mul, ir') :: rest =>
      (if Irrep_eqb ir' ir then mul else 0) + count rest ir
  end.

(** Parity of the spherical harmonic of degree [l]: [(-1)^l]. *)
Definition sh_parity (l : nat) : parity := if Nat.even l then Even else Odd.

Definition flip (p : parity) : parity :=
  match p with Even => Odd | Odd => Even end.

(** [Irreps.spherical_harmonics(lmax)]: [1x0e + 1x1o + ... ]. *)
Definition spherical_harmonics (max_ell : nat) : Irreps :=
  map (fun l => (1, mkIrrep l (sh_parity l))) (seq 0 (S max_ell)).

(** [Irrep.iterator(lmax)]: both parities of every degree up to [lmax]. *)
Definition Irrep_iterator (max_ell : nat) : list Irrep :=
  flat_map (fun l => [mkIrrep l (sh_parity l); mkIrrep l (flip (sh_parity l))])
           (seq 0 (S max_ell)).

(** [Irreps(list of Irrep)]: every irrep with multiplicity one. *)
Definition Irreps_of_list (irs : list Irrep) : Irreps :=
  map (fun ir => (1, ir)) irs.

(** [Irreps.lmax]: [max(ir.l for _, ir in self)]. *)
Definition lmax (irreps : Irreps) : nat :=
  fold_right Nat.max 0 (map (fun mi => ir_l (snd mi)) irreps).

(** [all(mul == n for mul, _ in irreps)]. *)
Definition all_mul_eq (n : nat) (irreps : Irreps) : bool :=
  forallb (fun mi => Nat.eqb (fst mi) n) irreps.

(** ** Arrays

    [jnp.ndarray]s of floats are lists of reals; an edge vector or a
    position is a row of three of them. *)

Local Open Scope R_scope.

Definition vec3 : Type := (R * R * R)%type.

Definition vzero : vec3 := (0, 0, 0).

Definition vadd (a b : vec3) : vec3 :=
  let '(a1, a2, a3) := a in
  let '(b1, b2, b3) := b in
  (a1 + b1, a2 + b2, a3 + b3).

Definition vsub (a b : vec3) : vec3 :=
  let '(a1, a2, a3) := a in
  let '(b1, b2, b3) := b in
  (a1 - b1, a2 - b2, a3 - b3).

Definition vneg (a : vec3) : vec3 :=
  let '(a1, a2, a3) := a in (- a1, - a2, - a3).

Definition vdiv (a : vec3) (c : R) : vec3 :=
  let '(a1, a2, a3) := a in (a1 / c, a2 / c, a3 / c).

(** [jnp.sum(x**2, axis=-1)] of one row. *)
Definition norm2 (a : vec3) : R :=
  let '(a1, a2, a3) := a in a1 * a1 + a2 * a2 + a3 * a3.

(** [jnp.sum] of a one-dimensional array. *)
Definition rsum (xs : list R) : R := fold_right Rplus 0 xs.

(** ** The interface to [e3nn_jax]

    [IrrepsArray] is [e3nn.IrrepsArray]; [ndarray] is a raw array whose
    contents the model never inspects. *)

Class E3nn : Type := {
  IrrepsArray : Type;
  ndarray : Type;
  (** [e3nn.spherical_harmonics(irreps, x, normalize=False,
      normalization="component")] *)
  e3nn_spherical_harmonics : Irreps -> list vec3 -> IrrepsArray;
  (** [e3nn.IrrepsArray(irreps, array)] *)
  IrrepsArray_of : Irreps -> ndarray -> IrrepsArray;
  (** [array.shape[-1]] *)
  shape_last : ndarray -> nat;
  (** [x * c], [x / c] and [x + y] *)
  imul : IrrepsArray -> R -> IrrepsArray;
  idiv : IrrepsArray -> R -> IrrepsArray;
  iadd : IrrepsArray -> IrrepsArray -> IrrepsArray;
  (** [x.axis_to_mul()] *)
  axis_to_mul : IrrepsArray -> IrrepsArray;
  (** [e3nn.stack(xs, axis=1)] *)
  e3nn_stack : list IrrepsArray -> IrrepsArray;
  (** [x.array[:, :, 0]] *)
  array_0 : IrrepsArray -> list (list R);
  (** [e3nn.Linear(irreps)(x)], one weight matrix per module instance,
      named here by the layer and the position inside its block *)
  e3nn_Linear : nat -> nat -> Irreps -> IrrepsArray -> IrrepsArray;
  (** elementwise activation of the scalars of [x] *)
  e3nn_scalar_activation : (R -> R) -> IrrepsArray -> IrrepsArray
}.

Section Model.

Context {E : E3nn}.

(** What an interaction block is built from and what it is called with
    ([GeneralMACE.__call__], the two argument lists of [inter(...)(...)]). *)
Record InteractionConfig : Type := {
  ic_num_features : nat;
  ic_target_irreps : Irreps;
  ic_hidden_irreps : Irreps;
  ic_avg_num_neighbors : R;
  ic_activation : R -> R;
  ic_num_species : nat
}.

Record InteractionInputs : Type := {
  ii_node_specie : list nat;
  ii_node_feats : IrrepsArray;
  ii_edge_attrs : IrrepsArray;
  ii_edge_feats : IrrepsArray;
  ii_receivers : list nat;
  ii_senders : list nat
}.

(** [Type[InteractionBlock]]: a block class, instantiated once per layer;
    the instance returns the new node features and an optional
    self-connection. *)
Definition InteractionCls : Type :=
  nat -> InteractionConfig -> InteractionInputs ->
  IrrepsArray * option IrrepsArray.

(** ** The interface to [blocks.py]

    The blocks that [models.py] imports are operations of this
    interface, one instance per layer index. *)
Class Blocks : Type := {
  LinearNodeEmbeddingBlock :
    nat -> nat -> Irreps -> list nat -> IrrepsArray;
  RadialEmbeddingBlock :
    R -> nat -> option nat -> option nat -> list R -> ndarray;
  EquivariantProductBasisBlock :
    nat -> nat -> Irreps -> Z -> Z -> Z -> nat ->
    IrrepsArray -> list nat -> IrrepsArray;
  (** the message-passing part of an interaction layer *)
  interaction_messages :
    nat -> InteractionConfig -> InteractionInputs -> IrrepsArray;
  (** the species-gated linear self-connection of the previous features *)
  interaction_self_connection :
    nat -> InteractionConfig -> InteractionInputs -> IrrepsArray;
  (** the denominator that [safe_norm] substitutes for a zero length *)
  safe_denominator : R;
  safe_denominator_nonzero : safe_denominator <> 0
}.

Context {B : Blocks}.

(** Modelled from the spec: [AgnosticInteractionBlock] of [blocks.py], the
    "first" layer variant, which has no residual path. *)
Definition AgnosticInteractionBlock : InteractionCls :=
  fun i cfg inp => (interaction_messages i cfg inp, None).

(** Modelled from the spec: [AgnosticResidualInteractionBlock] of
    [blocks.py], which adds a species-gated linear self-connection of the
    previous node features, returned separately. *)
Definition AgnosticResidualInteractionBlock : InteractionCls :=
  fun i cfg inp =>
    (interaction_messages i cfg inp,
     Some (interaction_self_connection i cfg inp)).

(** Modelled from the spec: [LinearReadoutBlock] of [blocks.py], a single
    learned linear map. *)
Definition LinearReadoutBlock (i : nat) (output_irreps : Irreps)
    (x : IrrepsArray) : IrrepsArray :=
  e3nn_Linear i 0 output_irreps x.

(** Modelled from the spec: [NonLinearReadoutBlock] of [blocks.py], a
    linear map to the hidden width, an elementwise activation, then a
    linear map to the output. *)
Definition NonLinearReadoutBlock (i : nat) (hidden_irreps output_irreps : Irreps)
    (activation : R -> R) (x : IrrepsArray) : IrrepsArray :=
  e3nn_Linear i 1 output_irreps
    (e3nn_scalar_activation activation (e3nn_Linear i 0 hidden_irreps x)).

(** Modelled from the spec: [safe_norm] of [utils.py], the length of a
    vector with a nonzero denominator substituted for a zero length. *)
Definition safe_norm (v : vec3) : R :=
  if Req_dec_T (norm2 v) 0 then safe_denominator else sqrt (norm2 v).

(** ** [GeneralMACE] *)

(** The keyword arguments of [GeneralMACE.__init__]. *)
Record GeneralMACE_kwargs : Type := {
  kw_output_irreps : Irreps;
  kw_r_max : R;
  kw_num_interactions : nat;
  kw_hidden_irreps : Irreps;
  kw_readout_mlp_irreps : Irreps;
  kw_avg_num_neighbors : R;
  kw_num_species : nat;
  kw_num_bessel : nat;
  kw_num_deriv_in_zero : option nat;
  kw_num_deriv_in_one : option nat;
  kw_max_ell : nat;
  kw_interaction_cls : InteractionCls;
  kw_interaction_cls_first : InteractionCls;
  kw_epsilon : option R;
  kw_correlation : Z;
  kw_max_poly_order : option Z;
  kw_gate : R -> R
}.

(** The attributes of a constructed [GeneralMACE]. *)
Record GeneralMACE : Type := {
  num_features : nat;
  sh_irreps : Irreps;
  hidden_irreps : Irreps;
  interaction_irreps : Irreps;
  r_max : R;
  correlation : Z;
  max_poly_order : option Z;
  avg_num_neighbors : R;
  epsilon : option R;
  readout_mlp_irreps : Irreps;
  activation : R -> R;
  interaction_cls_first : InteractionCls;
  interaction_cls : InteractionCls;
  num_interactions : nat;
  output_irreps : Irreps;
  num_species : nat;
  node_embedding : list nat -> IrrepsArray;
  radial_embedding : list R -> ndarray
}.

(** [GeneralMACE.__init__] *)
Definition GeneralMACE_init (kw : GeneralMACE_kwargs) : result GeneralMACE :=
  let num_features := count (kw_hidden_irreps kw) ir_0e in
  if negb (all_mul_eq num_features (kw_hidden_irreps kw)) then
    Raise (ValueError "All hidden irrep must have the same multiplicity")
  else
    let hidden_irreps := Irreps_of_list (map snd (kw_hidden_irreps kw)) in
    Ok {| num_features := num_features;
          sh_irreps := spherical_harmonics (kw_max_ell kw);
          hidden_irreps := hidden_irreps;
          interaction_irreps := Irreps_of_list (Irrep_iterator (kw_max_ell kw));
          r_max := kw_r_max kw;
          correlation := kw_correlation kw;
          max_poly_order := kw_max_poly_order kw;
          avg_num_neighbors := kw_avg_num_neighbors kw;
          epsilon := kw_epsilon kw;
          readout_mlp_irreps := kw_readout_mlp_irreps kw;
          activation := kw_gate kw;
          interaction_cls_first := kw_interaction_cls_first kw;
          interaction_cls := kw_interaction_cls kw;
          num_interactions := kw_num_interactions kw;
          output_irreps := kw_output_irreps kw;
          num_species := kw_num_species kw;
          node_embedding :=
            LinearNodeEmbeddingBlock (kw_num_species kw) num_features
                                     hidden_irreps;
          radial_embedding :=
            RadialEmbeddingBlock (kw_r_max kw) (kw_num_bessel kw)
                                 (kw_num_deriv_in_zero kw)
                                 (kw_num_deriv_in_one kw) |}.

(** The variables the loop of [GeneralMACE.__call__] carries from one
    layer to the next. *)
Record LoopState : Type := {
  node_feats : IrrepsArray;
  poly_order : Z;
  outputs : list IrrepsArray
}.

(** What stays the same through the loop. *)
Record EdgeData : Type := {
  node_specie : list nat;
  edge_attrs : IrrepsArray;
  edge_feats : IrrepsArray;
  senders : list nat;
  receivers : list nat
}.

(** [if self.epsilon is not None: node_feats *= self.epsilon
     else: node_feats /= jnp.sqrt(self.avg_num_neighbors)] *)
Definition normalize (self : GeneralMACE) (x : IrrepsArray) : IrrepsArray :=
  match epsilon self with
  | Some eps => imul x eps
  | None => idiv x (sqrt (avg_num_neighbors self))
  end.

(** [if self.max_poly_order is None: ... else: ...] *)
Definition next_poly_order (self : GeneralMACE) (poly_order : Z) : Z :=
  match max_poly_order self with
  | None => (correlation self * (poly_order + Z.of_nat (lmax (sh_irreps self))))%Z
  | Some cap => (correlation self * poly_order + cap)%Z
  end.

(** [if sc is not None: node_feats = node_feats + sc] *)
Definition add_self_connection (x : IrrepsArray) (sc : option IrrepsArray)
    : IrrepsArray :=
  match sc with
  | Some s => iadd x s
  | None => x
  end.

(** The interaction block of layer [i], instantiated. *)
Definition interaction_of (self : GeneralMACE) (i : nat)
    : InteractionInputs -> IrrepsArray * option IrrepsArray :=
  let inter :=
    if Nat.eqb i 0 then interaction_cls_first self else interaction_cls self in
  inter i {| ic_num_features := num_features self;
             ic_target_irreps := interaction_irreps self;
             ic_hidden_irreps := hidden_irreps self;
             ic_avg_num_neighbors := avg_num_neighbors self;
             ic_activation := activation self;
             ic_num_species := num_species self |}.

Definition interaction_inputs (d : EdgeData) (x : IrrepsArray)
    : InteractionInputs :=
  {| ii_node_specie := node_specie d;
     ii_node_feats := x;
     ii_edge_attrs := edge_attrs d;
     ii_edge_feats := edge_feats d;
     ii_receivers := receivers d;
     ii_senders := senders d |}.

(** The readout of layer [i]. *)
Definition readout (self : GeneralMACE) (i : nat) (x : IrrepsArray)
    : IrrepsArray :=
  if (Z.of_nat i <? Z.of_nat (num_interactions self) - 1)%Z then
    LinearReadoutBlock i (output_irreps self) (axis_to_mul x)
  else
    NonLinearReadoutBlock i (readout_mlp_irreps self) (output_irreps self)
                          (activation self) (axis_to_mul x).

(** The body of [for i in range(self.num_interactions)]. *)
Definition layer (self : GeneralMACE) (d : EdgeData) (st : LoopState) (i : nat)
    : LoopState :=
  let '(feats, sc) :=
    interaction_of self i (interaction_inputs d (node_feats st)) in
  let feats := normalize self feats in
  let new_poly_order := next_poly_order self (poly_order st) in
  let feats :=
    EquivariantProductBasisBlock i (num_features self) (hidden_irreps self)
      (correlation self) new_poly_order (poly_order st) (num_species self)
      feats (node_specie d) in
  let feats := add_self_connection feats sc in
  let node_outputs := readout self i feats in
  {| node_feats := feats;
     poly_order := new_poly_order;
     outputs := outputs st ++ [node_outputs] |}.

(** The embeddings that precede the loop. *)
Definition edge_data (self : GeneralMACE) (vectors : list vec3)
    (node_specie senders receivers : list nat) : EdgeData :=
  let lengths := map safe_norm vectors in
  let edge_attrs :=
    e3nn_spherical_harmonics (sh_irreps self)
      (map (fun v => vdiv v (safe_norm v)) vectors) in
  let edge_feats := radial_embedding self lengths in
  let edge_feats :=
    IrrepsArray_of [(shape_last edge_feats, ir_0e)] edge_feats in
  {| node_specie := node_specie;
     edge_attrs := edge_attrs;
     edge_feats := edge_feats;
     senders := senders;
     receivers := receivers |}.

Definition initial_state (self : GeneralMACE) (node_specie : list nat)
    : LoopState :=
  {| node_feats := node_embedding self node_specie;
     poly_order := 0%Z;
     outputs := [] |}.

(** The loop state after the first [n] layers. *)
Definition run_layers (self : GeneralMACE) (d : EdgeData) (n : nat)
    : LoopState :=
  fold_left (layer self d) (seq 0 n) (initial_state self (node_specie d)).

(** [GeneralMACE.__call__] *)
Definition GeneralMACE_call (self : GeneralMACE) (vectors : list vec3)
    (node_specie senders receivers : list nat) : IrrepsArray :=
  let d := edge_data self vectors node_specie senders receivers in
  e3nn_stack (outputs (run_layers self d (num_interactions self))).

End Model.

(** Modelled from the spec: what the operations of [e3nn_jax] and the
    blocks of [blocks.py] make of the features of a node that are all
    zero.  The maps are linear and the activation is applied entry by
    entry; the messages of a node are a sum over the edges that arrive at
    it; the self-connection is a linear map of the features of the node;
    the product basis is made of products of the features of the node. *)
Class ZeroRows {E : E3nn} {B : Blocks} : Type := {
  (** the features of node [j] are all zero *)
  zero_row : IrrepsArray -> nat -> Prop;
  imul_zero_row :
    forall x c j, zero_row x j -> zero_row (imul x c) j;
  idiv_zero_row :
    forall x c j, zero_row x j -> zero_row (idiv x c) j;
  iadd_zero_row :
    forall x y j, zero_row x j -> zero_row y j -> zero_row (iadd x y) j;
  axis_to_mul_zero_row :
    forall x j, zero_row x j -> zero_row (axis_to_mul x) j;
  Linear_zero_row :
    forall i k irreps x j,
      zero_row x j -> zero_row (e3nn_Linear i k irreps x) j;
  activation_zero_row :
    forall f x j,
      f 0 = 0 -> zero_row x j -> zero_row (e3nn_scalar_activation f x) j;
  stack_zero_row :
    forall xs j row,
      Forall (fun x => zero_row x j) xs ->
      nth_error (array_0 (e3nn_stack xs)) j = Some row ->
      Forall (fun c => c = 0) row;
  messages_zero_row :
    forall i cfg inp j,
      ~ In j (ii_receivers inp) ->
      zero_row (interaction_messages i cfg inp) j;
  self_connection_zero_row :
    forall i cfg inp j,
      zero_row (ii_node_feats inp) j ->
      zero_row (interaction_self_connection i cfg inp) j;
  product_basis_zero_row :
    forall i n irreps c order order' m x species j,
      zero_row x j ->
      zero_row (EquivariantProductBasisBlock i n irreps c order order' m x
                  species) j
}.

(** ** [MACE]: atomic energies, scale and shift, energies and forces *)

(** [graph.globals.cell]: one 3x3 matrix per structure, or [None]. *)
Definition Cell : Type := option (list (vec3 * vec3 * vec3)).

(** The fields of a [jraph.GraphsTuple] that the model reads. *)
Record GraphsTuple : Type := {
  nodes_positions : list vec3;
  nodes_attrs : list nat;
  nodes_species : list nat;
  edges_shifts : list vec3;
  graph_senders : list nat;
  graph_receivers : list nat;
  globals_cell : Cell;
  n_node : list nat;
  n_edge : list nat
}.

(** [a[i]] on a [jnp] array: an index past the end reads the last entry. *)
Definition jnp_take {A : Type} (d : A) (xs : list A) (i : nat) : A :=
  nth (Nat.min i (length xs - 1)) xs d.

(** [x + y] and [-x] on arrays of equal shape. *)
Fixpoint map2 {A B C : Type} (f : A -> B -> C) (xs : list A) (ys : list B)
    : list C :=
  match xs, ys with
  | x :: xs', y :: ys' => f x y :: map2 f xs' ys'
  | _, _ => []
  end.

(** The interface to [jax] and to [mace_jax.tools]. *)
Class Tools : Type := {
  (** [jax.grad(f)(x)] for a scalar function of the positions *)
  jax_grad : (list vec3 -> R) -> list vec3 -> list vec3;
  (** the periodic-boundary adjustment of edge [e], which the positions
      do not enter *)
  periodic_shift : list vec3 -> Cell -> list nat -> nat -> vec3
}.

(** [jax.grad(f, has_aux=True)(x)]: the gradient of the first component
    and the second component as it is. *)
Definition jax_grad_has_aux {T : Tools} {A : Type}
    (f : list vec3 -> R * A) (x : list vec3) : list vec3 * A :=
  (jax_grad (fun p => fst (f p)) x, snd (f x)).

(** Modelled from the spec: [get_edge_relative_vectors] of [mace_jax.tools],
    receiver position minus sender position, adjusted by the
    periodic-boundary shift. *)
Definition get_edge_relative_vectors {T : Tools} (positions : list vec3)
    (senders receivers : list nat) (shifts : list vec3) (cell : Cell)
    (n_edge : list nat) : list vec3 :=
  map (fun e =>
         vadd (vsub (jnp_take vzero positions (nth e receivers 0%nat))
                    (jnp_take vzero positions (nth e senders 0%nat)))
              (periodic_shift shifts cell n_edge e))
      (seq 0 (length receivers)).

(** Modelled from the spec: [AtomicEnergiesBlock] of [blocks.py], the lookup
    of one tabulated scalar per species. *)
Definition AtomicEnergiesBlock (atomic_energies : list R) (attrs : list nat)
    : list R :=
  map (jnp_take 0 atomic_energies) attrs.

(** Modelled from the spec: [ScaleShiftBlock] of [blocks.py],
    [shift + scale * x]. *)
Definition ScaleShiftBlock (scale shift : R) (x : list R) : list R :=
  map (fun s => shift + scale * s) x.

(** Modelled from the spec: [sum_nodes_of_the_same_graph] of [utils.py], the
    sum of the per-node values of every structure of the batch, where
    structure [g] owns the next [n_node[g]] nodes. *)
Fixpoint sum_nodes_of_the_same_graph (n_node : list nat) (xs : list R)
    : list R :=
  match n_node with
  | [] => []
  | n :: rest =>
      rsum (firstn n xs) :: sum_nodes_of_the_same_graph rest (skipn n xs)
  end.

Section Driver.

Context {E : E3nn} {B : Blocks} {T : Tools}.

(** The attributes of a constructed [MACE]. *)
Record MACE : Type := {
  scale : R;
  shift : R;
  energy_model : GeneralMACE;
  atomic_energies : list R
}.

(** [output_irreps="0e", **kwargs] *)
Definition with_output_0e (kw : GeneralMACE_kwargs) : GeneralMACE_kwargs :=
  {| kw_output_irreps := [(1%nat, ir_0e)];
     kw_r_max := kw_r_max kw;
     kw_num_interactions := kw_num_interactions kw;
     kw_hidden_irreps := kw_hidden_irreps kw;
     kw_readout_mlp_irreps := kw_readout_mlp_irreps kw;
     kw_avg_num_neighbors := kw_avg_num_neighbors kw;
     kw_num_species := kw_num_species kw;
     kw_num_bessel := kw_num_bessel kw;
     kw_num_deriv_in_zero := kw_num_deriv_in_zero kw;
     kw_num_deriv_in_one := kw_num_deriv_in_one kw;
     kw_max_ell := kw_max_ell kw;
     kw_interaction_cls := kw_interaction_cls kw;
     kw_interaction_cls_first := kw_interaction_cls_first kw;
     kw_epsilon := kw_epsilon kw;
     kw_correlation := kw_correlation kw;
     kw_max_poly_order := kw_max_poly_order kw;
     kw_gate := kw_gate kw |}.

(** [MACE.__init__] *)
Definition MACE_init (atomic_inter_scale atomic_inter_shift : R)
    (atomic_energies : list R) (kwargs : GeneralMACE_kwargs) : result MACE :=
  energy_model <- GeneralMACE_init (with_output_0e kwargs) ;;
  Ok {| scale := atomic_inter_scale;
        shift := atomic_inter_shift;
        energy_model := energy_model;
        atomic_energies := atomic_energies |}.

(** [contributions.array[:, :, 0]] of the energy model, for the edge
    vectors that the positions give. *)
Definition contributions_of (self : MACE) (graph : GraphsTuple)
    (positions : list vec3) : list (list R) :=
  let vectors :=
    get_edge_relative_vectors positions (graph_senders graph)
      (graph_receivers graph) (edges_shifts graph) (globals_cell graph)
      (n_edge graph) in
  array_0 (GeneralMACE_call (energy_model self) vectors (nodes_attrs graph)
                            (graph_senders graph) (graph_receivers graph)).

(** The local function [energy_fn] of [MACE.__call__]. *)
Definition energy_fn (self : MACE) (graph : GraphsTuple)
    (positions : list vec3) : R * list R :=
  let node_e0 := AtomicEnergiesBlock (atomic_energies self) (nodes_attrs graph) in
  let contributions := contributions_of self graph positions in
  let node_energies :=
    map2 Rplus node_e0
         (ScaleShiftBlock (scale self) (shift self) (map rsum contributions)) in
  (rsum node_energies, node_energies).

(** The dictionary that [MACE.__call__] returns. *)
Record Predictions : Type := {
  energy : list R;
  forces : list vec3
}.

(** [MACE.__call__] *)
Definition MACE_call (self : MACE) (graph : GraphsTuple) : Predictions :=
  let '(minus_forces, node_energies) :=
    jax_grad_has_aux (energy_fn self graph) (nodes_positions graph) in
  let graph_energies :=
    sum_nodes_of_the_same_graph (n_node graph) node_energies in
  {| energy := graph_energies;
     forces := map vneg minus_forces |}.

End Driver.

(** ** [gin_model.model] *)

(** [max(xs)] of Python, which raises on an empty sequence. *)
Definition py_max (xs : list nat) : result nat :=
  match xs with
  | [] => Raise (ValueError "max() arg is an empty sequence")
  | x :: rest => Ok (fold_left Nat.max rest x)
  end.

(** [d.get(z, 0.0)] on a dictionary given as its list of items. *)
Fixpoint dict_get (d : list (nat * R)) (z : nat) : R :=
  match d with
  | [] => 0
  | (k, v) :: rest => if Nat.eqb k z then v else dict_get rest z
  end.

Fixpoint insert_z (z : nat) (zs : list nat) : list nat :=
  match zs with
  | [] => [z]
  | y :: rest =>
      if Nat.ltb z y then z :: zs
      else if Nat.eqb z y then zs
      else y :: insert_z z rest
  end.

(** Modelled from the spec: [data.get_atomic_number_table_from_zs], the
    table of the distinct species observed, in increasing order; the
    result stands for [z_table.zs]. *)
Definition get_atomic_number_table_from_zs (zs : list nat) : list nat :=
  fold_right insert_z [] zs.

(** [z for graph in train_graphs for z in graph.nodes.species] *)
Definition all_species (train_graphs : list GraphsTuple) : list nat :=
  flat_map nodes_species train_graphs.

(** [np.all(species < num_species)] *)
Definition np_all_lt (species : list nat) (num_species : nat) : bool :=
  forallb (fun z => Nat.ltb z num_species) species.

(** A NumPy array of floats with one axis, or with none: the array of
    shape [()] that [np.zeros(None)] returns. *)
Inductive np_array : Type :=
| Array0 (x : R)
| Array1 (xs : list R).

(** [np.zeros(num_species)] *)
Definition np_zeros (num_species : option nat) : np_array :=
  match num_species with
  | Some n => Array1 (repeat 0 n)
  | None => Array0 0
  end.

(** [a[node_z]] for an array of indices: an array without an axis cannot
    be indexed. *)
Definition take_rows (a : np_array) (node_z : list nat) : result (list R) :=
  match a with
  | Array1 xs => Ok (map (jnp_take 0 xs) node_z)
  | Array0 _ =>
      Raise (ArrayIndexError "Too many indices for array")
  end.

(** The values the argument [atomic_energies] can take. *)
Inductive AtomicEnergiesArg : Type :=
| AE_str (s : string)
| AE_array (a : list R)
| AE_dict (d : list (nat * R)).

(** ["average"] or a number. *)
Inductive AverageOr : Type :=
| Average
| Given (x : R).

(** [range(num_species)], a [TypeError] when [num_species] is [None]. *)
Definition py_range (num_species : option nat) : result (list nat) :=
  match num_species with
  | Some n => Ok (seq 0 n)
  | None => Raise (TypeError "'NoneType' object cannot be interpreted as an integer")
  end.

(** [a >= num_species], a [TypeError] when [num_species] is [None]. *)
Definition py_ge (a : nat) (num_species : option nat) : result bool :=
  match num_species with
  | Some n => Ok (Nat.leb n a)
  | None => Raise (TypeError "'>=' not supported between 'int' and 'NoneType'")
  end.

(** [np.array([atomic_energies_dict.get(z, 0.0) for z in range(num_species)])] *)
Definition energies_of_dict (atomic_energies_dict : option (list (nat * R)))
    (num_species : option nat) : result (list R) :=
  zs <- py_range num_species ;;
  match zs, atomic_energies_dict with
  | [], _ => Ok []
  | _ :: _, None => Raise (AttributeError "'NoneType' object has no attribute 'get'")
  | _ :: _, Some d => Ok (map (dict_get d) zs)
  end.

Section GinModel.

Context {E : E3nn}.

(** The remaining keyword arguments, the callables for the radial basis
    and envelope, and the learned weights of the energy model. *)
Variables Rest RadialFn Weights : Type.

(** The keyword arguments that [model] hands to [modules.MACE]. *)
Record MACE_kwargs : Type := {
  mk_rest : Rest;
  mk_r_max : R;
  mk_avg_num_neighbors : R;
  mk_num_interactions : nat;
  mk_avg_r_min : option R;
  mk_num_species : option nat;
  mk_radial_basis : RadialFn;
  mk_radial_envelope : RadialFn
}.

(** [modules.MACE(output_irreps="0e", **kwargs)(vectors, node_z, senders,
    receivers)] under given weights, and the weights that a first run
    from a seed creates. *)
Variable mace :
  MACE_kwargs -> Weights ->
  list vec3 -> list nat -> list nat -> list nat -> result IrrepsArray.
Variable mace_init : MACE_kwargs -> nat -> result Weights.

(** Helpers of [mace_jax.tools] and [mace_jax.data]. *)
Variable compute_avg_num_neighbors : option (list GraphsTuple) -> result R.
Variable compute_avg_min_neighbor_distance :
  option (list GraphsTuple) -> result R.
Variable compute_average_E0s :
  option (list GraphsTuple) -> option (list nat) -> result (list (nat * R)).

(** The arguments of [model]. *)
Record model_args : Type := {
  a_r_max : R;
  a_atomic_energies_dict : option (list (nat * R));
  a_train_graphs : option (list GraphsTuple);
  a_initialize_seed : option nat;
  a_scaling :
    option (option (list GraphsTuple) -> np_array -> result (R * R));
  a_atomic_energies : option AtomicEnergiesArg;
  a_avg_num_neighbors : AverageOr;
  a_avg_r_min : option AverageOr;
  a_num_species : option nat;
  a_num_interactions : nat;
  a_learnable_atomic_energies : bool;
  a_radial_basis : RadialFn;
  a_radial_envelope : RadialFn;
  a_kwargs : Rest
}.

(** The parameter tree of the transformed function. *)
Record hk_params : Type := {
  weights : Weights;
  atomic_energies_param : option (list R)
}.

(** What the function [model_] closes over. *)
Record closure : Type := {
  c_mean : R;
  c_std : R;
  c_atomic_energies : np_array;
  c_learnable_atomic_energies : bool;
  c_kwargs : MACE_kwargs
}.

(** [hk.get_parameter("atomic_energies", ...)] when the function is
    applied to a parameter tree. *)
Definition get_atomic_energies_parameter (params : hk_params)
    : result (list R) :=
  match atomic_energies_param params with
  | Some a => Ok a
  | None => Raise (ValueError "Unable to retrieve parameter atomic_energies")
  end.

(** [model_.apply]: the function [model_] of [model], applied to a
    parameter tree. *)
Definition model_ (c : closure) (params : hk_params) (vectors : list vec3)
    (node_z senders receivers : list nat) : result (list R) :=
  contributions <-
    mace (c_kwargs c) (weights params) vectors node_z senders receivers ;;
  let contributions := array_0 contributions in
  let node_energies := map rsum contributions in
  let node_energies := map (fun x => c_mean c + c_std c * x) node_energies in
  atomic_energies_ <-
    (if c_learnable_atomic_energies c
     then a <- get_atomic_energies_parameter params ;; Ok (Array1 a)
     else Ok (c_atomic_energies c)) ;;
  e0 <- take_rows atomic_energies_ node_z ;;
  Ok (map2 Rplus node_energies e0).

(** What [hk.initializers.Constant(atomic_energies)] fills an array of
    shape [(num_species,)] with. *)
Definition constant_table (c : closure) : list R :=
  match c_atomic_energies c with
  | Array1 xs => xs
  | Array0 x =>
      match mk_num_species (c_kwargs c) with
      | Some n => repeat x n
      | None => []
      end
  end.

(** [hk.get_parameter("atomic_energies", shape=(num_species,), init=...)]
    on the first run. *)
Definition init_atomic_energies_parameter (c : closure) : result (list R) :=
  match mk_num_species (c_kwargs c) with
  | Some _ => Ok (constant_table c)
  | None =>
      Raise (TypeError "'NoneType' object cannot be interpreted as an integer")
  end.

(** [model_.init]: the first run, on a graph of one node, and the
    parameter tree that it creates. *)
Definition model_init (c : closure) (seed : nat) : result hk_params :=
  w <- mace_init (c_kwargs c) seed ;;
  if c_learnable_atomic_energies c then
    a <- init_atomic_energies_parameter c ;;
    Ok {| weights := w; atomic_energies_param := Some a |}
  else
    take_rows (c_atomic_energies c) [16%nat] ;;;
    Ok {| weights := w; atomic_energies_param := None |}.

(** The first part of [model]: the species table and the two averages. *)
Definition z_table_of (train_graphs : option (list GraphsTuple))
    : option (list nat) :=
  match train_graphs with
  | None => None
  | Some gs => Some (get_atomic_number_table_from_zs (all_species gs))
  end.

Definition resolve_avg_num_neighbors (a : model_args) : result R :=
  match a_avg_num_neighbors a with
  | Average => compute_avg_num_neighbors (a_train_graphs a)
  | Given x => Ok x
  end.

Definition resolve_avg_r_min (a : model_args) : result (option R) :=
  match a_avg_r_min a with
  | Some Average =>
      x <- compute_avg_min_neighbor_distance (a_train_graphs a) ;; Ok (Some x)
  | None => Ok None
  | Some (Given x) => Ok (Some x)
  end.

(** The chain of tests on [atomic_energies]. *)
Definition resolve_atomic_energies (a : model_args)
    (z_table : option (list nat)) : result np_array :=
  let atomic_energies :=
    match a_atomic_energies a with
    | Some v => v
    | None =>
        match a_atomic_energies_dict a with
        | None | Some [] => AE_str "average"
        | Some (_ :: _) => AE_str "isolated_atom"
        end
    end in
  match atomic_energies with
  | AE_str s =>
      if String.eqb s "average" then
        d <- compute_average_E0s (a_train_graphs a) z_table ;;
        xs <- energies_of_dict (Some d) (a_num_species a) ;;
        Ok (Array1 xs)
      else if String.eqb s "isolated_atom" then
        xs <- energies_of_dict (a_atomic_energies_dict a) (a_num_species a) ;;
        Ok (Array1 xs)
      else if String.eqb s "zero" then
        Ok (np_zeros (a_num_species a))
      else
        Raise (ValueError "atomic_energies is not supported")
  | AE_array arr =>
      match a_num_species a with
      | Some n =>
          if Nat.eqb (List.length arr) n then Ok (Array1 arr)
          else Raise (ValueError "")
      | None => Raise (ValueError "")
      end
  | AE_dict d =>
      xs <- energies_of_dict (Some d) (a_num_species a) ;;
      Ok (Array1 xs)
  end.

(** [# check that num_species is consistent with the dataset] *)
Fixpoint check_graphs (gs : list GraphsTuple) (num_species : option nat)
    : result unit :=
  match gs with
  | [] => Ok tt
  | graph :: rest =>
      match num_species with
      | None => Raise (TypeError "'<' not supported between 'int' and 'NoneType'")
      | Some n =>
          if negb (np_all_lt (nodes_species graph) n) then
            Raise (ValueError "max(graph.nodes.species) >= num_species")
          else check_graphs rest num_species
      end
  end.

Definition check_num_species (a : model_args) (z_table : option (list nat))
    : result unit :=
  match z_table with
  | None =>
      match a_train_graphs a with
      | Some gs => check_graphs gs (a_num_species a)
      | None => Ok tt
      end
  | Some zs =>
      m <- py_max zs ;;
      too_large <- py_ge m (a_num_species a) ;;
      if too_large then Raise (ValueError "max(z_table.zs) >= num_species")
      else Ok tt
  end.

(** What [model] returns: [model_.apply] as its closure, the initial
    parameters if a seed was given, and [num_interactions]. *)
Record model_result : Type := {
  m_apply : closure;
  m_params : option hk_params;
  m_num_interactions : nat
}.

(** [gin_model.model] *)
Definition model (a : model_args) : result model_result :=
  let z_table := z_table_of (a_train_graphs a) in
  avg_num_neighbors <- resolve_avg_num_neighbors a ;;
  avg_r_min <- resolve_avg_r_min a ;;
  atomic_energies <- resolve_atomic_energies a z_table ;;
  check_num_species a z_table ;;;
  mean_std <-
    match a_scaling a with
    | None => Ok (0, 1)
    | Some scaling => scaling (a_train_graphs a) atomic_energies
    end ;;
  let kwargs :=
    {| mk_rest := a_kwargs a;
       mk_r_max := a_r_max a;
       mk_avg_num_neighbors := avg_num_neighbors;
       mk_num_interactions := a_num_interactions a;
       mk_avg_r_min := avg_r_min;
       mk_num_species := a_num_species a;
       mk_radial_basis := a_radial_basis a;
       mk_radial_envelope := a_radial_envelope a |} in
  let c :=
    {| c_mean := fst mean_std;
       c_std := snd mean_std;
       c_atomic_energies := atomic_energies;
       c_learnable_atomic_energies := a_learnable_atomic_energies a;
       c_kwargs := kwargs |} in
  params <-
    match a_initialize_seed a with
    | Some seed => p <- model_init c seed ;; Ok (Some p)
    | None => Ok None
    end ;;
  Ok {| m_apply := c; m_params := params;
        m_num_interactions := a_num_interactions a |}.

End GinModel.

(** ** [gin_functions.reload] *)

(** A parameter tree: nested dictionaries with arrays at the leaves. *)
Inductive pytree (A : Type) : Type :=
| Leaf (a : A)
| Dict (items : list (string * pytree A)).

Arguments Leaf {A} a.
Arguments Dict {A} items.

(** [jax.tree_util.tree_structure]: the tree with its leaves forgotten
    and the keys of every dictionary in sorted order. *)
Inductive treedef : Type :=
| TLeaf
| TDict (items : list (string * treedef)).

Fixpoint insert_key (k : string) (d : treedef)
    (items : list (string * treedef)) : list (string * treedef) :=
  match items with
  | [] => [(k, d)]
  | (k', d') :: rest =>
      if String.leb k k' then (k, d) :: items
      else (k', d') :: insert_key k d rest
  end.

Fixpoint tree_structure {A : Type} (t : pytree A) : treedef :=
  match t with
  | Leaf _ => TLeaf
  | Dict items =>
      TDict (fold_right
               (fun kv acc => let '(k, v) := kv in
                              insert_key k (tree_structure v) acc)
               [] items)
  end.

Fixpoint treedef_eqb (s t : treedef) : bool :=
  match s, t with
  | TLeaf, TLeaf => true
  | TDict xs, TDict ys =>
      (fix items_eqb (xs ys : list (string * treedef)) : bool :=
         match xs, ys with
         | [], [] => true
         | (k, x) :: xs', (k', y) :: ys' =>
             String.eqb k k' && treedef_eqb x y && items_eqb xs' ys'
         | _, _ => false
         end) xs ys
  | _, _ => false
  end.

Inductive log_level : Type := INFO | WARNING.

Section Reload.

(** The arrays at the leaves and the other pickled objects. *)
Variable Array : Type.

(** A file is the sequence of objects pickled into it; [open] fails on a
    path that names no file. *)
Definition file_system : Type := string -> option (list (pytree Array)).

(** [gin_functions.reload], with the records it logs. *)
Definition reload (fs : file_system) (params : pytree Array)
    (path : option string)
    : list (log_level * string) * result (pytree Array) :=
  match path with
  | Some path =>
      let log := [(INFO, "Reloading parameters from " ++ path)%string] in
      match fs path with
      | None => (log, Raise (FileNotFoundError "No such file or directory"))
      | Some (_ :: new_params :: _) =>
          if negb (treedef_eqb (tree_structure params)
                               (tree_structure new_params))
          then
            (log ++ [(WARNING,
                      ("Parameters from " ++ path
                       ++ " are not compatible with current model")%string)],
             Ok new_params)
          else (log, Ok new_params)
      | Some _ => (log, Raise (EOFError "Ran out of input"))
      end
  | None => ([], Ok params)
  end.

End Reload.

(** ** Building the model and calling it

    A transformed function builds its modules and calls them in one go
    ([mace = modules.MACE(...)] and then [mace(...)] in [model_]); the
    construction can raise, the call itself has no [raise]. *)

Section Apply.

Context {E : E3nn} {B : Blocks}.

Definition GeneralMACE_apply (kw : GeneralMACE_kwargs) (vectors : list vec3)
    (node_specie senders receivers : list nat) : result IrrepsArray :=
  self <- GeneralMACE_init kw ;;
  Ok (GeneralMACE_call self vectors node_specie senders receivers).

End Apply.

(** ** The quotient [vectors / lengths] on floats

    The quotient of two floats is a number, an infinity when a number
    other than zero is divided by zero, and NaN when zero is.  Under
    [jax_debug_nans] and [jax_debug_infs], which [gin_functions.flags]
    sets from its argument [debug], a result that is not a number raises
    [FloatingPointError]. *)

Inductive quotient : Type :=
| Number (x : R)
| Infinite
| NotANumber.

(** [x / y] *)
Definition float_div (x y : R) : quotient :=
  if Req_dec_T y 0 then
    if Req_dec_T x 0 then NotANumber else Infinite
  else Number (x / y).

(** The check that the two flags add to an operation. *)
Definition debug_check (debug : bool) (q : quotient) : result quotient :=
  match q with
  | Number _ => Ok q
  | Infinite =>
      if debug
      then Raise (FloatingPointError "invalid value (inf) encountered in div")
      else Ok q
  | NotANumber =>
      if debug
      then Raise (FloatingPointError "invalid value (nan) encountered in div")
      else Ok q
  end.

(** A row of three numbers. *)
Definition numbers (v : vec3) : quotient * quotient * quotient :=
  let '(x, y, z) := v in (Number x, Number y, Number z).

Section Directions.

Context {E : E3nn} {B : Blocks}.

(** [vectors / lengths], for [lengths = safe_norm(vectors, axis=-1,
    keepdims=True)]: the directions that [GeneralMACE.__call__] hands to
    the spherical harmonics. *)
Fixpoint directions (debug : bool) (vectors : list vec3)
    : result (list (quotient * quotient * quotient)) :=
  match vectors with
  | [] => Ok []
  | v :: rest =>
      let '(x, y, z) := v in
      let length := safe_norm v in
      qx <- debug_check debug (float_div x length) ;;
      qy <- debug_check debug (float_div y length) ;;
      qz <- debug_check debug (float_div z length) ;;
      qs <- directions debug rest ;;
      Ok ((qx, qy, qz) :: qs)
  end.

(** The model built and called, with the check of the quotient. *)
Definition GeneralMACE_apply_checked (debug : bool) (kw : GeneralMACE_kwargs)
    (vectors : list vec3) (node_specie senders receivers : list nat)
    : result IrrepsArray :=
  self <- GeneralMACE_init kw ;;
  directions debug vectors ;;;
  Ok (GeneralMACE_call self vectors node_specie senders receivers).

End Directions.

(** ** Vocabulary of the statements *)

(** Two entries of the signature carry different multiplicities. *)
Definition multiplicities_differ (irreps : Irreps) : Prop :=
  exists mi mi', In mi irreps /\ In mi' irreps /\ fst mi <> fst mi'.

(** The nodes that structure [g] of a batch owns. *)
Definition nodes_of_graph {A : Type} (n_node : list nat) (g : nat)
    (xs : list A) : list A :=
  firstn (nth g n_node 0%nat) (skipn (list_sum (firstn g n_node)) xs).

(** The edges of a graph name existing nodes, and every node has a species. *)
Definition well_formed (graph : GraphsTuple) : Prop :=
  let n := List.length (nodes_positions graph) in
  List.length (graph_senders graph) = List.length (graph_receivers graph) /\
  Forall (fun j => (j < n)%nat) (graph_senders graph) /\
  Forall (fun j => (j < n)%nat) (graph_receivers graph) /\
  List.length (nodes_attrs graph) = n.

(** Node [i] has no incident edge. *)
Definition isolated (graph : GraphsTuple) (i : nat) : Prop :=
  ~ In i (graph_senders graph) /\ ~ In i (graph_receivers graph).

Inductive axis : Type := axis_x | axis_y | axis_z.

Definition coord (v : vec3) (k : axis) : R :=
  let '(x, y, z) := v in
  match k with axis_x => x | axis_y => y | axis_z => z end.

Definition vset (v : vec3) (k : axis) (t : R) : vec3 :=
  let '(x, y, z) := v in
  match k with
  | axis_x => (t, y, z)
  | axis_y => (x, t, z)
  | axis_z => (x, y, t)
  end.

(** The positions [p] with coordinate [k] of node [i] moved to [t]. *)
Fixpoint set_coord (p : list vec3) (i : nat) (k : axis) (t : R) : list vec3 :=
  match p, i with
  | [], _ => []
  | v :: rest, O => vset v k t :: rest
  | v :: rest, S i' => v :: set_coord rest i' k t
  end.

(** What [jax.grad] is there for: where the function has a partial
    derivative in a coordinate of a position, the entry of the result in
    that coordinate is this derivative. *)
Definition jax_grad_contract {T : Tools} : Prop :=
  forall (f : list vec3 -> R) (p : list vec3) (i : nat) (k : axis) (l : R),
    (i < List.length p)%nat ->
    derivable_pt_lim (fun t => f (set_coord p i k t))
                     (coord (nth i p vzero) k) l ->
    coord (nth i (jax_grad f p) vzero) k = l.

(** The derivative of [f] at [x], and 0 where [f] has none. *)
Definition partial_derivative (f : R -> R) (x : R) : R :=
  match excluded_middle_informative (exists l, derivable_pt_lim f x l) with
  | left H => proj1_sig (constructive_indefinite_description _ H)
  | right _ => 0
  end.

(** The partial derivatives of [f] at [p]. *)
Definition gradient (f : list vec3 -> R) (p : list vec3) : list vec3 :=
  map (fun i =>
         let d := fun k =>
           partial_derivative (fun t => f (set_coord p i k t))
                              (coord (nth i p vzero) k) in
         (d axis_x, d axis_y, d axis_z))
      (seq 0 (List.length p)).

(** ** A small instance of the interfaces

    One scalar feature per node, identity weights, and messages that sum
    the senders' features weighted by the edge lengths.  It serves to run
    the definitions on concrete graphs. *)

Definition toy_stack (xs : list (list (list R))) : list (list R) :=
  match xs with
  | [] => []
  | x :: _ =>
      map (fun j => map (fun o => hd 0 (nth j o [])) xs)
          (seq 0 (List.length x))
  end.

#[export] Instance toy_e3nn : E3nn := {|
  IrrepsArray := list (list R);
  ndarray := list (list R);
  e3nn_spherical_harmonics := fun _ dirs => map (fun _ => [1]) dirs;
  IrrepsArray_of := fun _ a => a;
  shape_last := fun a => List.length (hd [] a);
  imul := fun x c => map (map (fun v => v * c)) x;
  idiv := fun x c => map (map (fun v => v / c)) x;
  iadd := map2 (map2 Rplus);
  axis_to_mul := fun x => x;
  e3nn_stack := toy_stack;
  array_0 := fun x => x;
  e3nn_Linear := fun _ _ _ x => x;
  e3nn_scalar_activation := fun f x => map (map f) x
|}.

Definition toy_messages (i : nat) (cfg : InteractionConfig)
    (inp : InteractionInputs) : list (list R) :=
  map (fun j =>
         [rsum (map (fun e =>
                       hd 0 (nth (nth e (ii_senders inp) 0%nat)
                                 (ii_node_feats inp) [])
                       * hd 0 (nth e (ii_edge_feats inp) []))
                    (filter (fun e => Nat.eqb (nth e (ii_receivers inp) 0%nat) j)
                            (seq 0 (List.length (ii_receivers inp)))))])
      (seq 0 (List.length (ii_node_specie inp))).

#[export] Instance toy_blocks : Blocks := {|
  LinearNodeEmbeddingBlock := fun _ _ _ species => map (fun _ => [1]) species;
  RadialEmbeddingBlock := fun _ _ _ _ lengths => map (fun l => [l]) lengths;
  EquivariantProductBasisBlock := fun _ _ _ _ _ _ _ x _ => x;
  interaction_messages := toy_messages;
  interaction_self_connection := fun _ _ inp => ii_node_feats inp;
  safe_denominator := 1;
  safe_denominator_nonzero := R1_neq_R0
|}.

#[export] Instance toy_tools : Tools := {|
  jax_grad := gradient;
  periodic_shift := fun _ _ _ _ => vzero
|}.

Definition toy_kwargs_with (hidden : Irreps) : GeneralMACE_kwargs :=
  {| kw_output_irreps := [(1%nat, ir_0e)];
     kw_r_max := 5;
     kw_num_interactions := 2;
     kw_hidden_irreps := hidden;
     kw_readout_mlp_irreps := [(1%nat, ir_0e)];
     kw_avg_num_neighbors := 1;
     kw_num_species := 1;
     kw_num_bessel := 1;
     kw_num_deriv_in_zero := None;
     kw_num_deriv_in_one := None;
     kw_max_ell := 3;
     kw_interaction_cls := AgnosticResidualInteractionBlock;
     kw_interaction_cls_first := AgnosticInteractionBlock;
     kw_epsilon := Some (1 / 2);
     kw_correlation := 3%Z;
     kw_max_poly_order := None;
     kw_gate := fun x => x |}.

Definition toy_kwargs : GeneralMACE_kwargs := toy_kwargs_with [(1%nat, ir_0e)].

(** Keyword arguments whose hidden signature is [2x0e + 1x1o]. *)
Definition uneven_kwargs : GeneralMACE_kwargs :=
  toy_kwargs_with [(2%nat, ir_0e); (1%nat, mkIrrep 1 Odd)].

(** The model that [GeneralMACE_init toy_kwargs] builds. *)
Definition toy_model : GeneralMACE :=
  {| num_features := 1;
     sh_irreps := spherical_harmonics 3;
     hidden_irreps := [(1%nat, ir_0e)];
     interaction_irreps := Irreps_of_list (Irrep_iterator 3);
     r_max := 5;
     correlation := 3%Z;
     max_poly_order := None;
     avg_num_neighbors := 1;
     epsilon := Some (1 / 2);
     readout_mlp_irreps := [(1%nat, ir_0e)];
     activation := fun x => x;
     interaction_cls_first := AgnosticInteractionBlock;
     interaction_cls := AgnosticResidualInteractionBlock;
     num_interactions := 2;
     output_irreps := [(1%nat, ir_0e)];
     num_species := 1;
     node_embedding := LinearNodeEmbeddingBlock 1 1 [(1%nat, ir_0e)];
     radial_embedding := RadialEmbeddingBlock 5 1 None None |}.

(** Keyword arguments whose first block is the residual one, and the model
    that [GeneralMACE_init] builds from them. *)
Definition residual_first_kwargs : GeneralMACE_kwargs :=
  {| kw_output_irreps := [(1%nat, ir_0e)];
     kw_r_max := 5;
     kw_num_interactions := 2;
     kw_hidden_irreps := [(1%nat, ir_0e)];
     kw_readout_mlp_irreps := [(1%nat, ir_0e)];
     kw_avg_num_neighbors := 1;
     kw_num_species := 1;
     kw_num_bessel := 1;
     kw_num_deriv_in_zero := None;
     kw_num_deriv_in_one := None;
     kw_max_ell := 3;
     kw_interaction_cls := AgnosticResidualInteractionBlock;
     kw_interaction_cls_first := AgnosticResidualInteractionBlock;
     kw_epsilon := Some (1 / 2);
     kw_correlation := 3%Z;
     kw_max_poly_order := None;
     kw_gate := fun x => x |}.

Definition residual_first_model : GeneralMACE :=
  {| num_features := 1;
     sh_irreps := spherical_harmonics 3;
     hidden_irreps := [(1%nat, ir_0e)];
     interaction_irreps := Irreps_of_list (Irrep_iterator 3);
     r_max := 5;
     correlation := 3%Z;
     max_poly_order := None;
     avg_num_neighbors := 1;
     epsilon := Some (1 / 2);
     readout_mlp_irreps := [(1%nat, ir_0e)];
     activation := fun x => x;
     interaction_cls_first := AgnosticResidualInteractionBlock;
     interaction_cls := AgnosticResidualInteractionBlock;
     num_interactions := 2;
     output_irreps := [(1%nat, ir_0e)];
     num_species := 1;
     node_embedding := LinearNodeEmbeddingBlock 1 1 [(1%nat, ir_0e)];
     radial_embedding := RadialEmbeddingBlock 5 1 None None |}.

(** The small model with an activation that is 1 at 0. *)
Definition offset_gate_model : GeneralMACE :=
  {| num_features := 1;
     sh_irreps := spherical_harmonics 3;
     hidden_irreps := [(1%nat, ir_0e)];
     interaction_irreps := Irreps_of_list (Irrep_iterator 3);
     r_max := 5;
     correlation := 3%Z;
     max_poly_order := None;
     avg_num_neighbors := 1;
     epsilon := Some (1 / 2);
     readout_mlp_irreps := [(1%nat, ir_0e)];
     activation := fun x => x + 1;
     interaction_cls_first := AgnosticInteractionBlock;
     interaction_cls := AgnosticResidualInteractionBlock;
     num_interactions := 2;
     output_irreps := [(1%nat, ir_0e)];
     num_species := 1;
     node_embedding := LinearNodeEmbeddingBlock 1 1 [(1%nat, ir_0e)];
     radial_embedding := RadialEmbeddingBlock 5 1 None None |}.

(** A [MACE] with scale 2, shift 1 and one tabulated energy, 7. *)
Definition toy_mace : MACE :=
  {| scale := 2; shift := 1; energy_model := toy_model;
     atomic_energies := [7] |}.

(** The same around the two other models. *)
Definition offset_gate_mace : MACE :=
  {| scale := 2; shift := 1; energy_model := offset_gate_model;
     atomic_energies := [7] |}.

Definition residual_first_mace : MACE :=
  {| scale := 2; shift := 1; energy_model := residual_first_model;
     atomic_energies := [7] |}.

(** A single atom of species 0 at the origin, without edges. *)
Definition lone_atom : GraphsTuple :=
  {| nodes_positions := [vzero];
     nodes_attrs := [0%nat];
     nodes_species := [0%nat];
     edges_shifts := [];
     graph_senders := [];
     graph_receivers := [];
     globals_cell := None;
     n_node := [1%nat];
     n_edge := [0%nat] |}.

(** Two atoms of species 0 at a distance of 2 along the third axis, with
    the edge from the first to the second. *)
Definition bonded_pair : GraphsTuple :=
  {| nodes_positions := [vzero; (0, 0, 2)];
     nodes_attrs := [0%nat; 0%nat];
     nodes_species := [0%nat; 0%nat];
     edges_shifts := [vzero];
     graph_senders := [0%nat];
     graph_receivers := [1%nat];
     globals_cell := None;
     n_node := [2%nat];
     n_edge := [1%nat] |}.

(** The bonded pair and a third atom, without edges, away from it. *)
Definition pair_and_one : GraphsTuple :=
  {| nodes_positions := [vzero; (0, 0, 2); (5, 5, 5)];
     nodes_attrs := [0%nat; 0%nat; 0%nat];
     nodes_species := [0%nat; 0%nat; 0%nat];
     edges_shifts := [vzero];
     graph_senders := [0%nat];
     graph_receivers := [1%nat];
     globals_cell := None;
     n_node := [3%nat];
     n_edge := [1%nat] |}.

(** A training graph with one atom of the given species. *)
Definition one_atom_of (z : nat) : GraphsTuple :=
  {| nodes_positions := [vzero];
     nodes_attrs := [z];
     nodes_species := [z];
     edges_shifts := [];
     graph_senders := [];
     graph_receivers := [];
     globals_cell := None;
     n_node := [1%nat];
     n_edge := [0%nat] |}.

(** Arguments of [model] with [num_species] and the training graphs
    left open; no radial functions, no further keyword arguments. *)
Definition toy_args (num_species : option nat)
    (train_graphs : option (list GraphsTuple)) : model_args unit unit :=
  {| a_r_max := 5;
     a_atomic_energies_dict := None;
     a_train_graphs := train_graphs;
     a_initialize_seed := None;
     a_scaling := None;
     a_atomic_energies := Some (AE_str "zero");
     a_avg_num_neighbors := Given 1;
     a_avg_r_min := None;
     a_num_species := num_species;
     a_num_interactions := 2;
     a_learnable_atomic_energies := false;
     a_radial_basis := tt;
     a_radial_envelope := tt;
     a_kwargs := tt |}.

(** [model] with helpers that return constants. *)
Definition toy_gin_model (a : model_args unit unit)
    : result (model_result unit unit unit) :=
  model (fun _ _ => Ok tt) (fun _ => Ok 1) (fun _ => Ok 1)
        (fun _ _ => Ok []) a.

(** A checkpoint file: the configuration string, pickled as a leaf, and a
    parameter tree that differs in structure from [fresh_params]. *)
Definition fresh_params : pytree nat :=
  Dict [("linear", Dict [("w", Leaf 0%nat)])]%string.

Definition stored_params : pytree nat :=
  Dict [("embedding", Leaf 1%nat)]%string.

Definition toy_files : file_system nat :=
  fun path =>
    if String.eqb path "run.pkl" then Some [Leaf 0%nat; stored_params]
    else None.

(** [model_] over the small instance: mean 1, std 2, one tabulated
    energy, 7, which is not learnable. *)
Definition toy_forward (_ : MACE_kwargs unit unit) (_ : unit)
    (vectors : list vec3) (node_z senders receivers : list nat)
    : result (list (list R)) :=
  GeneralMACE_apply toy_kwargs vectors node_z senders receivers.

Definition toy_closure : closure unit unit :=
  {| c_mean := 1;
     c_std := 2;
     c_atomic_energies := Array1 [7];
     c_learnable_atomic_energies := false;
     c_kwargs :=
       {| mk_rest := tt; mk_r_max := 5; mk_avg_num_neighbors := 1;
          mk_num_interactions := 2; mk_avg_r_min := None;
          mk_num_species := Some 1%nat; mk_radial_basis := tt;
          mk_radial_envelope := tt |} |}.

Definition toy_params : hk_params unit :=
  {| weights := tt; atomic_energies_param := None |}.

(** ** Further definitions of [gin_model.py] *)

(** [1 + c + ... + c^(n-1)] *)
Fixpoint geometric (c : Z) (n : nat) : Z :=
  match n with
  | O => 0%Z
  | S n' => (1 + c * geometric c n')%Z
  end.

(** The entries of a signature that are scalars, [0e]. *)
Definition scalar_entries (irreps : Irreps) : Irreps :=
  filter (fun mi => Irrep_eqb (snd mi) ir_0e) irreps.

(** The small model with a single layer. *)
Definition one_layer_model : GeneralMACE :=
  {| num_features := 1;
     sh_irreps := spherical_harmonics 3;
     hidden_irreps := [(1%nat, ir_0e)];
     interaction_irreps := Irreps_of_list (Irrep_iterator 3);
     r_max := 5;
     correlation := 3%Z;
     max_poly_order := None;
     avg_num_neighbors := 1;
     epsilon := Some (1 / 2);
     readout_mlp_irreps := [(1%nat, ir_0e)];
     activation := fun x => x;
     interaction_cls_first := AgnosticInteractionBlock;
     interaction_cls := AgnosticResidualInteractionBlock;
     num_interactions := 1;
     output_irreps := [(1%nat, ir_0e)];
     num_species := 1;
     node_embedding := LinearNodeEmbeddingBlock 1 1 [(1%nat, ir_0e)];
     radial_embedding := RadialEmbeddingBlock 5 1 None None |}.

(** [toy_closure] with learnable atomic energies. *)
Definition learnable_closure : closure unit unit :=
  {| c_mean := c_mean toy_closure;
     c_std := c_std toy_closure;
     c_atomic_energies := c_atomic_energies toy_closure;
     c_learnable_atomic_energies := true;
     c_kwargs := c_kwargs toy_closure |}.

(** ** [gin_functions.parse_argv]

    A Python string is the sequence of its characters, each a code point
    below 256; [gin] is a state that its two parsing functions update or
    leave, raising. *)

(** The exceptions that the functions of the command line and of the
    training loop raise, besides those above. *)
Inductive py_exn : Type :=
| Builtin (e : exn)
| IndexError (msg : string)
| ZeroDivisionError (msg : string)
| UnboundLocalError (msg : string)
| RuntimeError (msg : string)
| Foreign (msg : string).

Inductive outcome (A : Type) : Type :=
| Done (a : A)
| Fail (e : py_exn).

Arguments Done {A} a.
Arguments Fail {A} e.

(** A computation that updates a state of type [S] and returns or raises;
    the state at the moment of the exception is kept. *)
Definition action (S A : Type) : Type := S -> S * outcome A.

Definition aret {S A : Type} (a : A) : action S A := fun s => (s, Done a).

Definition araise {S A : Type} (e : py_exn) : action S A :=
  fun s => (s, Fail e).

Definition abind {S A B : Type} (c : action S A) (k : A -> action S B)
    : action S B :=
  fun s =>
    match c s with
    | (s', Done a) => k a s'
    | (s', Fail e) => (s', Fail e)
    end.

Declare Scope action_scope.
Delimit Scope action_scope with action.
Notation "x <- c ;; k" := (abind c (fun x => k))
  (at level 61, c at next level, right associativity) : action_scope.
Notation "c ;;; k" := (abind c (fun _ => k))
  (at level 61, right associativity) : action_scope.

(** [c.isspace()] *)
Definition is_space (c : ascii) : bool :=
  let n := nat_of_ascii c in
  (Nat.leb 9 n && Nat.leb n 13) || (Nat.leb 28 n && Nat.leb n 32)
  || Nat.eqb n 133 || Nat.eqb n 160.

(** [c.isalpha()] *)
Definition is_alpha (c : ascii) : bool :=
  let n := nat_of_ascii c in
  (Nat.leb 65 n && Nat.leb n 90) || (Nat.leb 97 n && Nat.leb n 122)
  || Nat.eqb n 170 || Nat.eqb n 181 || Nat.eqb n 186
  || (Nat.leb 192 n && Nat.leb n 214) || (Nat.leb 216 n && Nat.leb n 246)
  || (Nat.leb 248 n && Nat.leb n 255).

Fixpoint lstrip (s : string) : string :=
  match s with
  | EmptyString => EmptyString
  | String c s' => if is_space c then lstrip s' else s
  end.

Fixpoint rstrip (s : string) : string :=
  match s with
  | EmptyString => EmptyString
  | String c s' =>
      match rstrip s' with
      | EmptyString => if is_space c then EmptyString else String c EmptyString
      | r => String c r
      end
  end.

(** [s.strip()] *)
Definition py_strip (s : string) : string := rstrip (lstrip s).

(** [s[0]] and [s[-1]] *)
Definition first_char (s : string) : outcome ascii :=
  match s with
  | EmptyString => Fail (IndexError "string index out of range")
  | String c _ => Done c
  end.

Fixpoint last_char (s : string) : outcome ascii :=
  match s with
  | EmptyString => Fail (IndexError "string index out of range")
  | String c EmptyString => Done c
  | String _ s' => last_char s'
  end.

(** [any(c.isalpha() for c in s)] *)
Fixpoint any_alpha (s : string) : bool :=
  match s with
  | EmptyString => false
  | String c s' => is_alpha c || any_alpha s'
  end.

(** [c in s] for a character [c] *)
Fixpoint contains (c : ascii) (s : string) : bool :=
  match s with
  | EmptyString => false
  | String c' s' => Ascii.eqb c' c || contains c s'
  end.

(** [s.endswith(suffix)] *)
Fixpoint ends_with (s suffix : string) : bool :=
  String.eqb s suffix
  || match s with
     | EmptyString => false
     | String _ s' => ends_with s' suffix
     end.

(** [s.startswith(p)] *)
Definition starts_with (s p : string) : bool := String.prefix p s.

(** [s[2:]] *)
Definition drop2 (s : string) : string :=
  match s with
  | String _ (String _ s') => s'
  | _ => EmptyString
  end.

(** [s.split(sep)] for a separator of one character *)
Fixpoint py_split (sep : ascii) (s : string) : list string :=
  match s with
  | EmptyString => [EmptyString]
  | String c s' =>
      if Ascii.eqb c sep then EmptyString :: py_split sep s'
      else
        match py_split sep s' with
        | [] => [String c EmptyString]
        | part :: parts => String c part :: parts
        end
  end.

Definition quote_char : ascii := "034"%char.
Definition apostrophe_char : ascii := "039"%char.
Definition at_char : ascii := "064"%char.
Definition equals_char : ascii := "061"%char.

(** [f"{key} = {value}"] and [f'{key} = "{value}"'] *)
Definition binding (key value : string) : string :=
  (key ++ " = " ++ value)%string.

Definition quoted_binding (key value : string) : string :=
  (key ++ " = " ++ String quote_char (value ++ String quote_char EmptyString))
  %string.

Section ParseArgv.

Local Open Scope action_scope.

(** The configuration that [gin] holds, and [gin.parse_config] and
    [gin.parse_config_file]. *)
Variable Gin : Type.
Variable gin_parse_config : string -> Gin -> outcome Gin.
Variable gin_parse_config_file : string -> Gin -> outcome Gin.

(** A call of one of the two, which leaves the configuration as it was
    when it raises. *)
Definition gin_call (f : Gin -> outcome Gin) : action Gin unit :=
  fun g =>
    match f g with
    | Done g' => (g', Done tt)
    | Fail e => (g, Fail e)
    end.

Definition lift_outcome {A : Type} (o : outcome A) : action Gin A :=
  fun g => (g, o).

Definition when (b : bool) (c : action Gin unit) : action Gin unit :=
  if b then c else aret tt.

(** The local function [gin_bind_parameter] of [parse_argv]. *)
Definition gin_bind_parameter (key value : string) : action Gin unit :=
  let value := py_strip value in
  first <- lift_outcome (first_char value) ;;
  last <- lift_outcome (last_char value) ;;
  when (Ascii.eqb first last
        && (Ascii.eqb first quote_char || Ascii.eqb first apostrophe_char))
       (gin_call (gin_parse_config (binding key value))) ;;;
  when (Ascii.eqb first at_char)
       (gin_call (gin_parse_config (binding key value))) ;;;
  when (String.eqb value "True" || String.eqb value "False"
        || String.eqb value "None")
       (gin_call (gin_parse_config (binding key value))) ;;;
  if any_alpha value
  then gin_call (gin_parse_config (quoted_binding key value))
  else gin_call (gin_parse_config (binding key value)).

(** One turn of [for arg in argv[1:]]: the new [only_the_key]. *)
Definition parse_arg (only_the_key : option string) (arg : string)
    : action Gin (option string) :=
  match only_the_key with
  | None =>
      if ends_with arg ".gin" then
        gin_call (gin_parse_config_file arg) ;;; aret None
      else if starts_with arg "--" then
        if contains equals_char arg then
          match py_split equals_char (drop2 arg) with
          | [key; value] => gin_bind_parameter key value ;;; aret None
          | [] | [_] =>
              araise (Builtin (ValueError
                        "not enough values to unpack (expected 2)"))
          | _ =>
              araise (Builtin (ValueError
                        "too many values to unpack (expected 2)"))
          end
        else aret (Some (drop2 arg))
      else
        araise (Builtin (ValueError "Unknown argument"))
  | Some key => gin_bind_parameter key arg ;;; aret None
  end.

(** The loop over the arguments. *)
Fixpoint parse_args (only_the_key : option string) (args : list string)
    : action Gin (option string) :=
  match args with
  | [] => aret only_the_key
  | arg :: rest =>
      next <- parse_arg only_the_key arg ;;
      parse_args next rest
  end.

(** [gin_functions.parse_argv] *)
Definition parse_argv (argv : list string) : action Gin unit :=
  parse_args None (tl argv) ;;; aret tt.

(** A sequence of calls of [gin.parse_config], one after the other. *)
Fixpoint parse_configs (texts : list string) : action Gin unit :=
  match texts with
  | [] => aret tt
  | text :: rest =>
      gin_call (gin_parse_config text) ;;; parse_configs rest
  end.

End ParseArgv.

(** The texts that [gin_bind_parameter] hands to [gin.parse_config] for
    a stripped value [v] that is not empty, in the order of the calls. *)
Definition is_quoted (v : string) : bool :=
  match first_char v, last_char v with
  | Done a, Done b =>
      Ascii.eqb a b && (Ascii.eqb a quote_char || Ascii.eqb a apostrophe_char)
  | _, _ => false
  end.

Definition is_reference (v : string) : bool :=
  match first_char v with
  | Done a => Ascii.eqb a at_char
  | Fail _ => false
  end.

Definition is_constant (v : string) : bool :=
  String.eqb v "True" || String.eqb v "False" || String.eqb v "None".

Definition texts_bound (key v : string) : list string :=
  (if is_quoted v then [binding key v] else [])
  ++ (if is_reference v then [binding key v] else [])
  ++ (if is_constant v then [binding key v] else [])
  ++ [if any_alpha v then quoted_binding key v else binding key v].

(** Every character of [s] is white space. *)
Fixpoint all_space (s : string) : bool :=
  match s with
  | EmptyString => true
  | String c s' => is_space c && all_space s'
  end.

(** The number of occurrences of [c] in [s]. *)
Fixpoint count_char (c : ascii) (s : string) : nat :=
  match s with
  | EmptyString => 0
  | String c' s' => (if Ascii.eqb c' c then 1 else 0) + count_char c s'
  end.

(** A [gin] that records the texts and files it is given and accepts
    them all. *)
Inductive gin_record : Type :=
| Parsed (text : string)
| ParsedFile (path : string).

Definition recording_parse_config (text : string) (g : list gin_record)
    : outcome (list gin_record) :=
  Done (g ++ [Parsed text]).

Definition recording_parse_config_file (path : string) (g : list gin_record)
    : outcome (list gin_record) :=
  Done (g ++ [ParsedFile path]).

(** ** [gin_functions.train]

    The generator [tools.train] is the list of the items it yields, as far
    as the loop consumes it; an item carries the epoch, the parameters and
    their moving average.  The loop keeps the lowest validation loss and
    the patience counter, writes checkpoints and logs evaluations. *)

Definition awhen {S : Type} (b : bool) (c : action S unit) : action S unit :=
  if b then c else aret tt.

(** A Python float, as a loss is one: a real number, an infinity or NaN. *)
Inductive pyfloat : Type :=
| Finite (x : R)
| PosInf
| NegInf
| NaN.

(** [a >= b] on floats: false as soon as one of the two is NaN. *)
Definition float_ge (a b : pyfloat) : bool :=
  match a, b with
  | NaN, _ | _, NaN => false
  | PosInf, _ => true
  | _, NegInf => true
  | NegInf, _ => false
  | Finite _, PosInf => false
  | Finite x, Finite y => if Rle_dec y x then true else false
  end.

(** What the logger and the file system have seen. *)
Inductive train_event : Type :=
| Saved (epoch : Z)
| Evaluated (mode : string) (epoch : Z) (loss : pyfloat).

(** [break] or the next turn of the loop. *)
Inductive flow : Type := Continue | Break.

Section Train.

Local Open Scope action_scope.

(** The arrays, the data loaders with their [len], and [tools.evaluate]
    as far as its loss goes. *)
Variable Array : Type.
Variable Loader : Type.
Variable loader_len : Loader -> nat.
Variable evaluate : pytree Array -> Loader -> pyfloat.

(** [gin.operative_config_str()], as the object that is pickled. *)
Variable operative_config : pytree Array.

(** The paths that can be opened for writing. *)
Variable writable : string -> bool.

Record train_item : Type := {
  it_epoch : Z;
  it_params : pytree Array;
  it_ema_params : pytree Array
}.

(** The arguments of [train] that its loop reads. *)
Record train_args : Type := {
  train_loader : Loader;
  valid_loader : option Loader;
  test_loader : option Loader;
  max_num_epochs : Z;
  directory : string;
  tag : string;
  eval_train : bool;
  eval_test : bool;
  eval_interval : Z;
  log_errors : string
}.

(** [lowest_loss], [patience_counter], the files and the log. *)
Record train_state : Type := {
  lowest_loss : pyfloat;
  patience_counter : Z;
  files : file_system Array;
  events : list train_event
}.

Definition initial_train_state (fs : file_system Array) : train_state :=
  {| lowest_loss := PosInf; patience_counter := 0%Z; files := fs;
     events := [] |}.

(** [f"{directory}/{tag}.pkl"] *)
Definition checkpoint_path (a : train_args) : string :=
  (directory a ++ "/" ++ tag a ++ ".pkl")%string.

(** [with open(path, "wb") as f: pickle.dump(config, f); pickle.dump(params, f)] *)
Definition save_checkpoint (a : train_args) (item : train_item)
    : action train_state unit :=
  fun st =>
    if writable (checkpoint_path a) then
      ({| lowest_loss := lowest_loss st;
          patience_counter := patience_counter st;
          files :=
            fun path =>
              if String.eqb path (checkpoint_path a)
              then Some [operative_config; it_params item]
              else files st path;
          events := events st ++ [Saved (it_epoch item)] |},
       Done tt)
    else
      (st, Fail (Builtin (FileNotFoundError "No such file or directory"))).

(** The four values of [log_errors] that bind [error_e]. *)
Definition log_errors_known (a : train_args) : bool :=
  String.eqb (log_errors a) "PerAtomRMSE"
  || String.eqb (log_errors a) "TotalRMSE"
  || String.eqb (log_errors a) "PerAtomMAE"
  || String.eqb (log_errors a) "TotalMAE".

(** The local function [eval_and_print]: the metrics are logged, then the
    line for the console is formatted, which needs [error_e]. *)
Definition eval_and_print (a : train_args) (item : train_item)
    (loader : Loader) (mode : string) : action train_state pyfloat :=
  fun st =>
    let loss_ := evaluate (it_ema_params item) loader in
    let st' :=
      {| lowest_loss := lowest_loss st;
         patience_counter := patience_counter st;
         files := files st;
         events := events st ++ [Evaluated mode (it_epoch item) loss_] |} in
    if log_errors_known a then (st', Done loss_)
    else
      (st', Fail (UnboundLocalError
                    "local variable 'error_e' referenced before assignment")).

(** [loader is not None and len(loader) > 0] *)
Definition usable (loader : option Loader) : option Loader :=
  match loader with
  | Some l => if Nat.ltb 0 (loader_len l) then Some l else None
  | None => None
  end.

(** [if loss_ >= lowest_loss: ... else: ...]; the result tells whether the
    loop breaks. *)
Definition update_patience (patience : Z) (loss_ : pyfloat)
    : action train_state bool :=
  fun st =>
    if float_ge loss_ (lowest_loss st) then
      let counter := (patience_counter st + 1)%Z in
      ({| lowest_loss := lowest_loss st; patience_counter := counter;
          files := files st; events := events st |},
       Done (Z.geb counter patience))
    else
      ({| lowest_loss := loss_; patience_counter := 0%Z;
          files := files st; events := events st |}, Done false).

(** One turn of the loop. *)
Definition train_step (a : train_args) (patience : Z) (item : train_item)
    : action train_state flow :=
  let epoch := it_epoch item in
  let last_epoch := Z.eqb epoch (max_num_epochs a) in
  if Z.eqb (eval_interval a) 0 then
    araise (ZeroDivisionError "integer division or modulo by zero")
  else if Z.eqb (epoch mod eval_interval a) 0 || last_epoch then
    save_checkpoint a item ;;;
    awhen (eval_train a || last_epoch)
      (eval_and_print a item (train_loader a) "eval_train" ;;; aret tt) ;;;
    match usable (test_loader a) with
    | Some loader =>
        awhen (eval_test a || last_epoch)
          (eval_and_print a item loader "eval_test" ;;; aret tt)
    | None => aret tt
    end ;;;
    stop <-
      match usable (valid_loader a) with
      | Some loader =>
          loss_ <- eval_and_print a item loader "eval_valid" ;;
          update_patience patience loss_
      | None => aret false
      end ;;
    if stop then aret Break
    else if last_epoch then aret Break else aret Continue
  else if last_epoch then aret Break else aret Continue.

(** The loop: the item at which it ends, the last one consumed. *)
Fixpoint train_loop (a : train_args) (patience : Z) (items : list train_item)
    (last : option train_item) : action train_state (option train_item) :=
  match items with
  | [] => aret last
  | item :: rest =>
      next <- train_step a patience item ;;
      match next with
      | Break => aret (Some item)
      | Continue => train_loop a patience rest (Some item)
      end
  end.

(** [gin_functions.train]: [return epoch, ema_params]. *)
Definition train (a : train_args) (patience : Z) (items : list train_item)
    : action train_state (Z * pytree Array) :=
  last <- train_loop a patience items None ;;
  match last with
  | Some item => aret (it_epoch item, it_ema_params item)
  | None =>
      araise (UnboundLocalError
                "local variable 'epoch' referenced before assignment")
  end.

(** The validation losses among the logged evaluations, oldest first. *)
Fixpoint validation_losses (log : list train_event) : list pyfloat :=
  match log with
  | [] => []
  | Evaluated mode _ loss_ :: rest =>
      if String.eqb mode "eval_valid" then loss_ :: validation_losses rest
      else validation_losses rest
  | Saved _ :: rest => validation_losses rest
  end.

End Train.

(** A training run of the small kind: one validation loader, evaluation
    at every epoch.  The loss of a tree that is a leaf is the number at the
    leaf, and NaN when that is 0; the loss of the other trees is 1. *)
Definition toy_evaluate (params : pytree nat) (loader : nat) : pyfloat :=
  match params with
  | Leaf O => NaN
  | Leaf n => Finite (INR n)
  | Dict _ => Finite 1
  end.

Definition toy_train_args : train_args nat :=
  {| train_loader := 1%nat;
     valid_loader := Some 1%nat;
     test_loader := None;
     max_num_epochs := 2%Z;
     directory := "results";
     tag := "run";
     eval_train := false;
     eval_test := false;
     eval_interval := 1%Z;
     log_errors := "PerAtomRMSE" |}.

Definition toy_items : list (train_item nat) :=
  [{| it_epoch := 1%Z; it_params := fresh_params;
      it_ema_params := stored_params |}].

Definition toy_train (patience : Z) (items : list (train_item nat))
    : action (train_state nat) (Z * pytree nat) :=
  train (fun loader : nat => loader) toy_evaluate (Leaf 0%nat)
        (fun _ => true) toy_train_args patience items.

(** Three items of the generator, with losses 5, 7 and 6; the second epoch
    is [max_num_epochs]. *)
Definition first_item : train_item nat :=
  {| it_epoch := 1%Z; it_params := Leaf 15%nat; it_ema_params := Leaf 5%nat |}.

Definition second_item : train_item nat :=
  {| it_epoch := 2%Z; it_params := Leaf 17%nat; it_ema_params := Leaf 7%nat |}.

Definition third_item : train_item nat :=
  {| it_epoch := 3%Z; it_params := Leaf 16%nat; it_ema_params := Leaf 6%nat |}.

Definition three_items : list (train_item nat) :=
  [first_item; second_item; third_item].

(** Items with losses 5, NaN and 7, the third epoch being the last. *)
Definition nan_train_args : train_args nat :=
  {| train_loader := 1%nat;
     valid_loader := Some 1%nat;
     test_loader := None;
     max_num_epochs := 3%Z;
     directory := "results";
     tag := "run";
     eval_train := false;
     eval_test := false;
     eval_interval := 1%Z;
     log_errors := "PerAtomRMSE" |}.

Definition nan_items : list (train_item nat) :=
  [{| it_epoch := 1%Z; it_params := Leaf 15%nat; it_ema_params := Leaf 5%nat |};
   {| it_epoch := 2%Z; it_params := Leaf 10%nat; it_ema_params := Leaf 0%nat |};
   {| it_epoch := 3%Z; it_params := Leaf 17%nat; it_ema_params := Leaf 7%nat |}].

(** ** [plot_train]

    [plot] selects its rows by their mode.  The records that
    [gin_functions.train] logs are the [Evaluated] events; the grouping by
    path, name, mode and interval that comes before the selection keeps
    the modes. *)

(** [data[data["mode"] == mode]] *)
Definition rows_of_mode (mode : string) (log : list train_event)
    : list train_event :=
  filter (fun e =>
            match e with
            | Evaluated m _ _ => String.eqb m mode
            | Saved _ => false
            end) log.

(** *** [os.path] of POSIX *)

Definition slash_char : ascii := "/"%char.
Definition dot_char : ascii := "."%char.

(** [p.rfind(sep) + 1] *)
Fixpoint rfind_succ (sep : ascii) (p : string) : nat :=
  match p with
  | EmptyString => O
  | String c p' =>
      match rfind_succ sep p' with
      | O => if Ascii.eqb c sep then 1%nat else O
      | S n => S (S n)
      end
  end.

(** [p[:i]] and [p[i:]] *)
Fixpoint str_take (i : nat) (p : string) : string :=
  match i, p with
  | S i', String c p' => String c (str_take i' p')
  | _, _ => EmptyString
  end.

Fixpoint str_drop (i : nat) (p : string) : string :=
  match i, p with
  | S i', String _ p' => str_drop i' p'
  | _, _ => p
  end.

(** [s == sep * len(s)] *)
Fixpoint all_char (sep : ascii) (s : string) : bool :=
  match s with
  | EmptyString => true
  | String c s' => Ascii.eqb c sep && all_char sep s'
  end.

(** [s.rstrip(sep)] *)
Fixpoint rstrip_char (sep : ascii) (s : string) : string :=
  match s with
  | EmptyString => EmptyString
  | String c s' =>
      match rstrip_char sep s' with
      | EmptyString =>
          if Ascii.eqb c sep then EmptyString else String c EmptyString
      | r => String c r
      end
  end.

(** [os.path.basename]: [i = p.rfind(sep) + 1; return p[i:]] *)
Definition basename (p : string) : string :=
  str_drop (rfind_succ slash_char p) p.

(** [os.path.dirname]:
    [head = p[:i]; if head and head != sep*len(head): head = head.rstrip(sep)] *)
Definition dirname (p : string) : string :=
  let head := str_take (rfind_succ slash_char p) p in
  if negb (String.eqb head EmptyString) && negb (all_char slash_char head)
  then rstrip_char slash_char head
  else head.

(** [os.path.join(a, b)] *)
Definition path_join (a b : string) : string :=
  if starts_with b "/" then b
  else if String.eqb a EmptyString || ends_with a "/" then (a ++ b)%string
  else (a ++ "/" ++ b)%string.

(** *** The records *)

(** What [json.loads] returns. *)
Inductive json : Type :=
| JNull
| JBool (b : bool)
| JNumber (x : R)
| JString (s : string)
| JArray (items : list json)
| JObject (fields : list (string * json)).

(** [d[key] = v] on the items of a dict: the value of a key that is there
    is replaced where it stands, a new key goes to the end. *)
Fixpoint items_set (fields : list (string * json)) (key : string) (v : json)
    : list (string * json) :=
  match fields with
  | [] => [(key, v)]
  | (k, x) :: rest =>
      if String.eqb k key then (k, v) :: rest
      else (k, x) :: items_set rest key v
  end.

Fixpoint items_get (fields : list (string * json)) (key : string)
    : option json :=
  match fields with
  | [] => None
  | (k, x) :: rest => if String.eqb k key then Some x else items_get rest key
  end.

(** [d[key] = v] *)
Definition setitem (d : json) (key : string) (v : json) : outcome json :=
  match d with
  | JObject fields => Done (JObject (items_set fields key v))
  | _ =>
      Fail (Builtin (TypeError "object does not support item assignment"))
  end.

(** The column [key] of the row that the record makes in the data frame. *)
Definition column (d : json) (key : string) : option json :=
  match d with
  | JObject fields => items_get fields key
  | _ => None
  end.

(** [parts[0]] *)
Definition first_part (parts : list string) : outcome string :=
  match parts with
  | part :: _ => Done part
  | [] => Fail (IndexError "list index out of range")
  end.

Definition obind {A B : Type} (c : outcome A) (k : A -> outcome B)
    : outcome B :=
  match c with
  | Done a => k a
  | Fail e => Fail e
  end.

Declare Scope outcome_scope.
Delimit Scope outcome_scope with outcome.
Notation "x <- c ;; k" := (obind c (fun x => k))
  (at level 61, c at next level, right associativity) : outcome_scope.

(** [f"{path}/{name}.pdf"] *)
Definition output_path (path name : string) : string :=
  (path ++ "/" ++ name ++ ".pdf")%string.

(** The file into which [main] plots the group of a record: the groups
    are those of the columns [path] and [name]. *)
Definition output_path_of (d : json) : option string :=
  match column d "path", column d "name" with
  | Some (JString path), Some (JString name) => Some (output_path path name)
  | _, _ => None
  end.

Section PlotTrain.

Local Open Scope outcome_scope.

(** [open(path)] with the lines of the file, [json.loads], [os.path.isfile]
    and [glob.glob]. *)
Variable read_lines : string -> outcome (list string).
Variable json_loads : string -> outcome json.
Variable isfile : string -> bool.
Variable glob : string -> list string.

(** The loop of [parse_training_results] over the lines. *)
Fixpoint parse_lines (path : string) (lines : list string)
    : outcome (list json) :=
  match lines with
  | [] => Done []
  | line :: rest =>
      d <- json_loads line ;;
      d <- setitem d "path" (JString (dirname path)) ;;
      name <- first_part (py_split dot_char (basename path)) ;;
      d <- setitem d "name" (JString name) ;;
      results <- parse_lines path rest ;;
      Done (d :: results)
  end.

Definition parse_training_results (path : string) : outcome (list json) :=
  lines <- read_lines path ;;
  parse_lines path lines.

Definition get_paths (path : string) : outcome (list string) :=
  if isfile path then Done [path]
  else
    match glob (path_join path "*.metrics") with
    | [] =>
        Fail (RuntimeError
                ("Cannot find results in '" ++ path ++ "'")%string)
    | paths => Done paths
    end.

(** The rows of the data frame of [main]. *)
Fixpoint results_of (paths : list string) : outcome (list json) :=
  match paths with
  | [] => Done []
  | path :: rest =>
      results <- parse_training_results path ;;
      others <- results_of rest ;;
      Done (results ++ others)
  end.

Definition main_rows (path : string) : outcome (list json) :=
  paths <- get_paths path ;;
  results_of paths.

End PlotTrain.

(** Two files of the small kind: one line each, an object that has a name
    of its own. *)
Definition toy_read_lines (path : string) : outcome (list string) :=
  if String.eqb path "run.metrics" || String.eqb path "results/run.1.metrics"
  then Done ["{}"%string]
  else Fail (Builtin (FileNotFoundError "No such file or directory")).

Definition toy_json_loads (line : string) : outcome json :=
  Done (JObject [("name"%string, JString "other"); ("loss"%string, JNumber 1)]).

Definition toy_isfile (path : string) : bool := String.eqb path "run.metrics".

Definition toy_glob (pattern : string) : list string := [].

(** A run with a [log_errors] that is not one of the four. *)
Definition mistyped_train_args : train_args nat :=
  {| train_loader := 1%nat;
     valid_loader := Some 1%nat;
     test_loader := None;
     max_num_epochs := 2%Z;
     directory := "results";
     tag := "run";
     eval_train := false;
     eval_test := false;
     eval_interval := 1%Z;
     log_errors := "RMSE" |}.

(** * Properties *)

(** ** The result monad *)

Lemma raises_not_returns {A : Type} (c : result A) :
  raises c -> ~ returns c.
Proof.
  intros [e He] [a Ha]. congruence.
Qed.

Lemma bind_raises_l {A B : Type} (c : result A) (k : A -> result B) :
  raises c -> raises (bind c k).
Proof.
  intros [e He]. exists e. now rewrite He.
Qed.

Lemma bind_raises_r {A B : Type} (c : result A) (k : A -> result B) :
  (forall a, c = Ok a -> raises (k a)) -> raises c \/ returns c ->
  raises (bind c k).
Proof.
  intros Hk [Hc | [a Ha]].
  - now apply bind_raises_l.
  - rewrite Ha. cbn. now apply Hk.
Qed.

Lemma raises_or_returns {A : Type} (c : result A) : raises c \/ returns c.
Proof.
  destruct c as [a | e]; [right; now exists a | left; now exists e].
Qed.

Example toy_model_built : GeneralMACE_init toy_kwargs = Ok toy_model.
Proof. reflexivity. Qed.

(** ** Irreps *)

Lemma max_seq (n a : nat) :
  fold_right Nat.max 0%nat (seq a (S n)) = (a + n)%nat.
Proof.
  revert a. induction n as [| n IH]; intros a.
  - cbn. lia.
  - change (seq a (S (S n))) with (a :: seq (S a) (S n)).
    cbn [fold_right]. rewrite IH. lia.
Qed.

Lemma lmax_spherical_harmonics (max_ell : nat) :
  lmax (spherical_harmonics max_ell) = max_ell.
Proof.
  unfold lmax, spherical_harmonics.
  rewrite map_map. cbn [snd ir_l].
  rewrite map_id. now rewrite max_seq.
Qed.

Lemma all_mul_eq_spec (n : nat) (irreps : Irreps) :
  all_mul_eq n irreps = true <-> forall mi, In mi irreps -> fst mi = n.
Proof.
  unfold all_mul_eq. rewrite forallb_forall.
  split; intros H mi Hin; specialize (H mi Hin).
  - now apply Nat.eqb_eq.
  - now apply Nat.eqb_eq.
Qed.

(** ** The loop of [GeneralMACE.__call__] *)

Section LoopProperties.

Context {E : E3nn} {B : Blocks}.

Lemma run_layers_S (self : GeneralMACE) (d : EdgeData) (n : nat) :
  run_layers self d (S n) = layer self d (run_layers self d n) n.
Proof.
  unfold run_layers. rewrite seq_S, fold_left_app. reflexivity.
Qed.

Lemma layer_poly_order (self : GeneralMACE) (d : EdgeData) (st : LoopState)
    (i : nat) :
  poly_order (layer self d st i) = next_poly_order self (poly_order st).
Proof.
  unfold layer. now destruct (interaction_of _ _ _).
Qed.

Lemma layer_node_feats (self : GeneralMACE) (d : EdgeData) (st : LoopState)
    (i : nat) :
  let io := interaction_of self i (interaction_inputs d (node_feats st)) in
  node_feats (layer self d st i) =
  add_self_connection
    (EquivariantProductBasisBlock i (num_features self) (hidden_irreps self)
       (correlation self) (next_poly_order self (poly_order st))
       (poly_order st) (num_species self)
       (normalize self (fst io)) (node_specie d))
    (snd io).
Proof.
  unfold layer. cbv zeta. now destruct (interaction_of _ _ _).
Qed.

Lemma layer_outputs (self : GeneralMACE) (d : EdgeData) (st : LoopState)
    (i : nat) :
  outputs (layer self d st i) =
  outputs st ++ [readout self i (node_feats (layer self d st i))].
Proof.
  unfold layer. now destruct (interaction_of _ _ _).
Qed.

Lemma GeneralMACE_init_fields (kw : GeneralMACE_kwargs) (self : GeneralMACE) :
  GeneralMACE_init kw = Ok self ->
  sh_irreps self = spherical_harmonics (kw_max_ell kw) /\
  correlation self = kw_correlation kw /\
  max_poly_order self = kw_max_poly_order kw /\
  epsilon self = kw_epsilon kw /\
  avg_num_neighbors self = kw_avg_num_neighbors kw /\
  num_interactions self = kw_num_interactions kw /\
  interaction_cls_first self = kw_interaction_cls_first kw /\
  interaction_cls self = kw_interaction_cls kw /\
  output_irreps self = kw_output_irreps kw /\
  readout_mlp_irreps self = kw_readout_mlp_irreps kw /\
  activation self = kw_gate kw.
Proof.
  unfold GeneralMACE_init.
  destruct (negb _); [discriminate |].
  intros H. injection H as <-. cbn. repeat split.
Qed.

(** C6. The polynomial order is 0 before the first layer, and every
    layer replaces the order [o] by [correlation * (o + max_ell)] when no
    [max_poly_order] is configured and by [correlation * o + max_poly_order]
    otherwise; the product-basis block of the layer is built with the new
    order as its [max_poly_order] and the old one as its
    [input_poly_order]. *)
Theorem poly_order_tracker (kw : GeneralMACE_kwargs) (self : GeneralMACE)
    (d : EdgeData) :
  GeneralMACE_init kw = Ok self ->
  poly_order (run_layers self d 0) = 0%Z /\
  forall i : nat,
    let old_order := poly_order (run_layers self d i) in
    let new_order := poly_order (run_layers self d (S i)) in
    let io :=
      interaction_of self i
        (interaction_inputs d (node_feats (run_layers self d i))) in
    new_order =
      match kw_max_poly_order kw with
      | None => (kw_correlation kw * (old_order + Z.of_nat (kw_max_ell kw)))%Z
      | Some cap => (kw_correlation kw * old_order + cap)%Z
      end /\
    node_feats (run_layers self d (S i)) =
      add_self_connection
        (EquivariantProductBasisBlock i (num_features self)
           (hidden_irreps self) (correlation self) new_order old_order
           (num_species self) (normalize self (fst io)) (node_specie d))
        (snd io).
Proof.
  intros Hinit.
  destruct (GeneralMACE_init_fields kw Hinit)
    as (Hsh & Hcorr & Hcap & _).
  split; [reflexivity |].
  intros i old_order new_order io.
  assert (Hnew : new_order = next_poly_order self old_order).
  { unfold new_order, old_order. rewrite run_layers_S.
    apply layer_poly_order. }
  split.
  - rewrite Hnew. unfold next_poly_order.
    rewrite Hsh, Hcorr, Hcap, lmax_spherical_harmonics. reflexivity.
  - rewrite Hnew. unfold old_order, io.
    rewrite run_layers_S. apply layer_node_feats.
Qed.

End LoopProperties.

Lemma poly_order_tracker_witness :
  let d := edge_data toy_model [] [0%nat] [] [] in
  GeneralMACE_init toy_kwargs = Ok toy_model /\
  poly_order (run_layers toy_model d 0) = 0%Z /\
  poly_order (run_layers toy_model d 1) = 9%Z /\
  poly_order (run_layers toy_model d 2) = 36%Z.
Proof.
  intros d. split; [reflexivity |].
  destruct (poly_order_tracker toy_kwargs d (eq_refl (Ok toy_model)))
    as [H0 HS].
  split; [exact H0 |].
  destruct (HS 0%nat) as [H1 _]. destruct (HS 1%nat) as [H2 _].
  rewrite H2, H1, H0. split; reflexivity.
Defined.

Section Layers.

Context {E : E3nn} {B : Blocks}.

(** C3. In every layer, the first one (built from [interaction_cls_first])
    as well as the later ones (built from [interaction_cls]), and whether
    or not the block returns a self-connection, the product-basis block
    receives the interaction output multiplied by [epsilon] when [epsilon]
    is set and divided by [sqrt avg_num_neighbors] otherwise. *)
Theorem normalization_uniform (self : GeneralMACE) (d : EdgeData) (i : nat) :
  let cfg :=
    {| ic_num_features := num_features self;
       ic_target_irreps := interaction_irreps self;
       ic_hidden_irreps := hidden_irreps self;
       ic_avg_num_neighbors := avg_num_neighbors self;
       ic_activation := activation self;
       ic_num_species := num_species self |} in
  let before := run_layers self d i in
  let inp := interaction_inputs d (node_feats before) in
  let io :=
    match i with
    | O => interaction_cls_first self i cfg inp
    | S _ => interaction_cls self i cfg inp
    end in
  let scaled :=
    match epsilon self with
    | Some eps => imul (fst io) eps
    | None => idiv (fst io) (sqrt (avg_num_neighbors self))
    end in
  node_feats (run_layers self d (S i)) =
  add_self_connection
    (EquivariantProductBasisBlock i (num_features self) (hidden_irreps self)
       (correlation self) (next_poly_order self (poly_order before))
       (poly_order before) (num_species self) scaled (node_specie d))
    (snd io).
Proof.
  intros cfg before inp io scaled.
  rewrite run_layers_S, layer_node_feats.
  unfold interaction_of, normalize.
  destruct i; reflexivity.
Qed.

(** C10, as the code has it.  In every layer, the first one included, the
    interaction output alone is multiplied by [epsilon] (or divided by
    [sqrt avg_num_neighbors]), before the product-basis block, and the
    self-connection that the interaction block of the layer returned is
    added, as it is, to the output of the product-basis block; nothing is
    added when the block returned none.  So in the first layer nothing is
    added with the default first block, which returns none, and a
    self-connection is added with a first block that returns one. *)
Theorem self_connection_after_product_basis (self : GeneralMACE)
    (d : EdgeData) (i : nat) :
  let cfg :=
    {| ic_num_features := num_features self;
       ic_target_irreps := interaction_irreps self;
       ic_hidden_irreps := hidden_irreps self;
       ic_avg_num_neighbors := avg_num_neighbors self;
       ic_activation := activation self;
       ic_num_species := num_species self |} in
  let before := run_layers self d i in
  let inp := interaction_inputs d (node_feats before) in
  let product := fun messages =>
    EquivariantProductBasisBlock i (num_features self) (hidden_irreps self)
      (correlation self) (next_poly_order self (poly_order before))
      (poly_order before) (num_species self)
      match epsilon self with
      | Some eps => imul messages eps
      | None => idiv messages (sqrt (avg_num_neighbors self))
      end
      (node_specie d) in
  (forall messages sc,
     (if Nat.eqb i 0 then interaction_cls_first self else interaction_cls self)
       i cfg inp = (messages, sc) ->
     node_feats (run_layers self d (S i)) =
     match sc with
     | Some sc => iadd (product messages) sc
     | None => product messages
     end) /\
  (i = 0%nat -> interaction_cls_first self = AgnosticInteractionBlock ->
   node_feats (run_layers self d (S i)) =
   product (interaction_messages i cfg inp)) /\
  (i <> 0%nat -> interaction_cls self = AgnosticResidualInteractionBlock ->
   node_feats (run_layers self d (S i)) =
   iadd (product (interaction_messages i cfg inp))
        (interaction_self_connection i cfg inp)).
Proof.
  intros cfg before inp product.
  assert (Hlayer : forall messages sc,
            (if Nat.eqb i 0 then interaction_cls_first self
             else interaction_cls self) i cfg inp = (messages, sc) ->
            node_feats (run_layers self d (S i)) =
            match sc with
            | Some sc => iadd (product messages) sc
            | None => product messages
            end).
  { intros messages sc Hio.
    rewrite run_layers_S, layer_node_feats.
    unfold interaction_of. fold cfg. fold before. fold inp.
    rewrite Hio. cbn [fst snd]. unfold normalize, product.
    now destruct sc. }
  split; [exact Hlayer |]. split.
  - intros -> Hfirst. apply (Hlayer _ None).
    cbn [Nat.eqb]. now rewrite Hfirst.
  - intros Hi Hcls.
    apply (Hlayer _ (Some (interaction_self_connection i cfg inp))).
    destruct i as [| i]; [contradiction |].
    cbn [Nat.eqb]. now rewrite Hcls.
Qed.

Lemma outputs_run_layers (self : GeneralMACE) (d : EdgeData) (n : nat) :
  outputs (run_layers self d n) =
  map (fun i => readout self i (node_feats (run_layers self d (S i))))
      (seq 0 n).
Proof.
  induction n as [| n IH].
  - reflexivity.
  - rewrite run_layers_S, layer_outputs, <- run_layers_S, IH.
    now rewrite seq_S, map_app.
Qed.

(** C5. The model returns one readout per layer, in layer order.  The
    readout of every layer but the last is one linear map; the readout of
    the last layer is a linear map to the hidden width of the readout,
    an elementwise activation and a second linear map to the output. *)
Theorem readout_per_layer (self : GeneralMACE) (vectors : list vec3)
    (node_specie senders receivers : list nat) :
  let d := edge_data self vectors node_specie senders receivers in
  let n := num_interactions self in
  let feats := fun i => axis_to_mul (node_feats (run_layers self d (S i))) in
  let contribution := fun i =>
    if Nat.ltb (S i) n then
      e3nn_Linear i 0 (output_irreps self) (feats i)
    else
      e3nn_Linear i 1 (output_irreps self)
        (e3nn_scalar_activation (activation self)
           (e3nn_Linear i 0 (readout_mlp_irreps self) (feats i))) in
  GeneralMACE_call self vectors node_specie senders receivers =
    e3nn_stack (map contribution (seq 0 n)) /\
  List.length (outputs (run_layers self d n)) = n /\
  forall i, (i < n)%nat ->
    nth_error (outputs (run_layers self d n)) i = Some (contribution i).
Proof.
  intros d n feats contribution.
  assert (Hout : outputs (run_layers self d n) = map contribution (seq 0 n)).
  { rewrite outputs_run_layers. apply map_ext. intros i.
    unfold readout, contribution, LinearReadoutBlock, NonLinearReadoutBlock,
      feats.
    fold n.
    destruct (Nat.ltb_spec (S i) n) as [Hlt | Hge].
    - replace (Z.of_nat i <? Z.of_nat n - 1)%Z with true; [reflexivity |].
      symmetry. apply Z.ltb_lt. lia.
    - replace (Z.of_nat i <? Z.of_nat n - 1)%Z with false; [reflexivity |].
      symmetry. apply Z.ltb_ge. lia. }
  split; [| split].
  - unfold GeneralMACE_call. fold d. fold n. now rewrite Hout.
  - now rewrite Hout, length_map, length_seq.
  - intros i Hi. rewrite Hout.
    rewrite nth_error_map, nth_error_nth' with (d := 0%nat)
      by now rewrite length_seq.
    now rewrite seq_nth.
Qed.

End Layers.

Lemma readout_per_layer_witness :
  let d := edge_data toy_model [] [0%nat] [] [] in
  let feats := fun i => axis_to_mul (node_feats (run_layers toy_model d (S i))) in
  ((0 < 2)%nat /\ (1 < 2)%nat) /\
  nth_error (outputs (run_layers toy_model d 2)) 0 =
    Some (e3nn_Linear 0 0 [(1%nat, ir_0e)] (feats 0%nat)) /\
  nth_error (outputs (run_layers toy_model d 2)) 1 =
    Some (e3nn_Linear 1 1 [(1%nat, ir_0e)]
            (e3nn_scalar_activation (fun x => x)
               (e3nn_Linear 1 0 [(1%nat, ir_0e)] (feats 1%nat)))).
Proof.
  intros d feats.
  destruct (readout_per_layer toy_model [] [0%nat] [] []) as (_ & _ & Hnth).
  split; [lia |]. split.
  - exact (Hnth 0%nat ltac:(cbn; lia)).
  - exact (Hnth 1%nat ltac:(cbn; lia)).
Defined.

(** In the second layer of the small model, on two nodes with an edge from
    the first to the second, the messages are halved and the features of
    the layer before are added as they are. *)
Lemma self_connection_after_product_basis_witness :
  let d := edge_data toy_model [(0, 0, 2)] [0%nat; 0%nat] [0%nat] [1%nat] in
  let before := run_layers toy_model d 1 in
  let cfg :=
    {| ic_num_features := 1;
       ic_target_irreps := interaction_irreps toy_model;
       ic_hidden_irreps := [(1%nat, ir_0e)];
       ic_avg_num_neighbors := 1;
       ic_activation := activation toy_model;
       ic_num_species := 1 |} in
  let messages :=
    interaction_messages 1 cfg (interaction_inputs d (node_feats before)) in
  (1 <> 0)%nat /\
  interaction_cls toy_model = AgnosticResidualInteractionBlock /\
  node_feats (run_layers toy_model d 2) =
  iadd (EquivariantProductBasisBlock 1 1 [(1%nat, ir_0e)] 3%Z 36%Z 9%Z 1
          (imul messages (1 / 2)) [0%nat; 0%nat])
       (node_feats before).
Proof.
  intros d before cfg messages.
  split; [discriminate |]. split; [reflexivity |].
  exact (proj2 (proj2 (self_connection_after_product_basis toy_model d 1))
           ltac:(discriminate) eq_refl).
Defined.

(** C10 does not hold as it is stated: a model whose first block is the
    residual one adds a self-connection in the first layer. *)
Lemma first_layer_adds_self_connection :
  let d := edge_data residual_first_model [] [0%nat] [] [] in
  let cfg :=
    {| ic_num_features := 1;
       ic_target_irreps := interaction_irreps residual_first_model;
       ic_hidden_irreps := [(1%nat, ir_0e)];
       ic_avg_num_neighbors := 1;
       ic_activation := activation residual_first_model;
       ic_num_species := 1 |} in
  let inp :=
    interaction_inputs d (node_feats (run_layers residual_first_model d 0)) in
  let product :=
    EquivariantProductBasisBlock 0 1 [(1%nat, ir_0e)] 3%Z 9%Z 0%Z 1
      (imul (interaction_messages 0 cfg inp) (1 / 2)) [0%nat] in
  GeneralMACE_init residual_first_kwargs = Ok residual_first_model /\
  snd (interaction_cls_first residual_first_model 0%nat cfg inp) =
    Some [[1]] /\
  node_feats (run_layers residual_first_model d 1) = iadd product [[1]] /\
  node_feats (run_layers residual_first_model d 1) <> product.
Proof.
  intros d cfg inp product.
  split; [reflexivity |]. split; [reflexivity |]. split; [reflexivity |].
  cbn. intros [= H]. lra.
Qed.

(** ** Errors of construction *)

Lemma In_insert_z (x z : nat) (zs : list nat) :
  In x (insert_z z zs) <-> x = z \/ In x zs.
Proof.
  induction zs as [| y rest IH]; cbn [insert_z In].
  - intuition (subst; auto).
  - destruct (Nat.ltb z y); [clear IH; cbn [In]; intuition (subst; auto) |].
    destruct (Nat.eqb_spec z y) as [-> | Hne]; cbn [In]; rewrite ?IH;
      clear IH; intuition (subst; auto).
Qed.

Lemma In_atomic_number_table (z : nat) (zs : list nat) :
  In z (get_atomic_number_table_from_zs zs) <-> In z zs.
Proof.
  unfold get_atomic_number_table_from_zs.
  induction zs as [| y rest IH]; cbn; [tauto |].
  rewrite In_insert_z, IH. intuition.
Qed.

Lemma fold_left_max_ge (rest : list nat) (x z : nat) :
  (z <= x)%nat \/ In z rest -> (z <= fold_left Nat.max rest x)%nat.
Proof.
  revert x. induction rest as [| y rest IH]; intros x [H | H]; cbn.
  - exact H.
  - destruct H.
  - apply IH. left. lia.
  - apply IH. destruct H as [-> | H]; [left; lia | now right].
Qed.

Lemma py_max_ge (zs : list nat) (z : nat) :
  In z zs -> exists m, py_max zs = Ok m /\ (z <= m)%nat.
Proof.
  destruct zs as [| x rest]; [intros [] |].
  intros Hin. exists (fold_left Nat.max rest x). split; [reflexivity |].
  apply fold_left_max_ge. destruct Hin as [-> | Hin]; [left; lia | now right].
Qed.

Section ConfigurationErrors.

Context {E : E3nn} {B : Blocks}.

Lemma hidden_multiplicities_checked (kw : GeneralMACE_kwargs) :
  multiplicities_differ (kw_hidden_irreps kw) ->
  GeneralMACE_init kw =
  Raise (ValueError "All hidden irrep must have the same multiplicity").
Proof.
  intros (mi & mi' & Hin & Hin' & Hne).
  unfold GeneralMACE_init.
  destruct (all_mul_eq _ _) eqn:Hall; [| reflexivity].
  rewrite all_mul_eq_spec in Hall.
  rewrite (Hall mi Hin), (Hall mi' Hin') in Hne. now contradiction Hne.
Qed.

Variables Rest RadialFn Weights : Type.
Variable mace_init : MACE_kwargs Rest RadialFn -> nat -> result Weights.
Variable compute_avg_num_neighbors : option (list GraphsTuple) -> result R.
Variable compute_avg_min_neighbor_distance :
  option (list GraphsTuple) -> result R.
Variable compute_average_E0s :
  option (list GraphsTuple) -> option (list nat) -> result (list (nat * R)).

Lemma num_species_checked (a : model_args Rest RadialFn)
    (gs : list GraphsTuple) (n z : nat) :
  a_train_graphs a = Some gs ->
  a_num_species a = Some n ->
  In z (all_species gs) ->
  (n <= z)%nat ->
  check_num_species a (z_table_of (a_train_graphs a)) =
  Raise (ValueError "max(z_table.zs) >= num_species").
Proof.
  intros Hgs Hn Hin Hle.
  unfold check_num_species. rewrite Hgs. cbn [z_table_of].
  apply In_atomic_number_table in Hin.
  destruct (py_max_ge _ _ Hin) as (m & -> & Hm). cbn [bind].
  rewrite Hn. cbn [py_ge bind].
  replace (Nat.leb n m) with true; [reflexivity |].
  symmetry. apply Nat.leb_le. lia.
Qed.

(** C9. Construction raises, so that no model exists that could be
    evaluated: [GeneralMACE.__init__] (and with it [MACE.__init__] and a
    function that builds the model before calling it) raises a
    [ValueError] when two entries of [hidden_irreps] have different
    multiplicities, and [model] raises when the training graphs hold a
    species not below [num_species]; the exception is the [ValueError] of
    the consistency check unless an earlier step of [model] has raised. *)
Theorem configuration_errors_at_construction :
  (forall kw : GeneralMACE_kwargs,
     multiplicities_differ (kw_hidden_irreps kw) ->
     (exists msg, GeneralMACE_init kw = Raise (ValueError msg)) /\
     (forall scale shift energies,
        exists msg,
          MACE_init scale shift energies kw = Raise (ValueError msg)) /\
     (forall vectors node_specie senders receivers,
        exists msg,
          GeneralMACE_apply kw vectors node_specie senders receivers =
          Raise (ValueError msg))) /\
  (forall (a : model_args Rest RadialFn) (gs : list GraphsTuple) (n z : nat),
     a_train_graphs a = Some gs ->
     a_num_species a = Some n ->
     In z (all_species gs) ->
     (n <= z)%nat ->
     raises (model mace_init compute_avg_num_neighbors
               compute_avg_min_neighbor_distance compute_average_E0s a) /\
     (returns (resolve_avg_num_neighbors compute_avg_num_neighbors a) ->
      returns (resolve_avg_r_min compute_avg_min_neighbor_distance a) ->
      returns (resolve_atomic_energies compute_average_E0s a
                 (z_table_of (a_train_graphs a))) ->
      exists msg,
        model mace_init compute_avg_num_neighbors
          compute_avg_min_neighbor_distance compute_average_E0s a =
        Raise (ValueError msg))).
Proof.
  split.
  - intros kw Hdiff. split; [| split].
    + eexists. now apply hidden_multiplicities_checked.
    + intros scale shift energies. eexists. unfold MACE_init.
      rewrite hidden_multiplicities_checked by exact Hdiff. reflexivity.
    + intros vectors node_specie senders receivers. eexists.
      unfold GeneralMACE_apply.
      rewrite hidden_multiplicities_checked by exact Hdiff. reflexivity.
  - intros a gs n z Hgs Hn Hin Hle.
    pose proof (num_species_checked a Hgs Hn Hin Hle) as Hcheck.
    unfold model. split.
    + destruct (resolve_avg_num_neighbors _ a) as [x | e];
        [| now exists e].
      destruct (resolve_avg_r_min _ a) as [y | e]; [| now exists e].
      destruct (resolve_atomic_energies _ a _) as [en | e]; [| now exists e].
      cbn [bind]. rewrite Hcheck. cbn [bind]. now eexists.
    + intros [x ->] [y ->] [en ->]. cbn [bind]. rewrite Hcheck.
      cbn [bind]. now eexists.
Qed.

End ConfigurationErrors.

Lemma configuration_errors_at_construction_witness :
  (multiplicities_differ (kw_hidden_irreps uneven_kwargs) /\
   exists msg, GeneralMACE_init uneven_kwargs = Raise (ValueError msg)) /\
  (In 3%nat (all_species [one_atom_of 3]) /\ (2 <= 3)%nat /\
   exists msg,
     toy_gin_model (toy_args (Some 2%nat) (Some [one_atom_of 3])) =
     Raise (ValueError msg)).
Proof.
  destruct (configuration_errors_at_construction
              (E := toy_e3nn) (B := toy_blocks)
              (fun (_ : MACE_kwargs unit unit) (_ : nat) => Ok tt)
              (fun _ => Ok 1) (fun _ => Ok 1) (fun _ _ => Ok []))
    as [Hirreps Hspecies].
  assert (Hdiff : multiplicities_differ (kw_hidden_irreps uneven_kwargs)).
  { exists (2%nat, ir_0e), (1%nat, mkIrrep 1 Odd). cbn.
    repeat split; [now left | right; now left | discriminate]. }
  split.
  - split; [exact Hdiff |]. exact (proj1 (Hirreps uneven_kwargs Hdiff)).
  - assert (Hin : In 3%nat (all_species [one_atom_of 3])) by (now left).
    split; [exact Hin |]. split; [lia |].
    refine (proj2 (Hspecies (toy_args (Some 2%nat) (Some [one_atom_of 3]))
                     [one_atom_of 3] 2%nat 3%nat eq_refl eq_refl Hin _)
              _ _ _).
    + lia.
    + now eexists.
    + now eexists.
    + now eexists.
Defined.

(** ** Reloading parameters *)

Lemma treedef_eqb_refl : forall t : treedef, treedef_eqb t t = true.
Proof.
  fix IH 1. intros [| items]; [reflexivity |].
  cbn. induction items as [| [k x] rest IHrest]; [reflexivity |].
  now rewrite String.eqb_refl, IH, IHrest.
Qed.

Lemma treedef_eqb_true : forall s t : treedef, treedef_eqb s t = true -> s = t.
Proof.
  fix IH 1. intros [| xs] [| ys]; cbn; try discriminate; [reflexivity |].
  revert ys.
  induction xs as [| [k x] xs IHxs]; intros [| [k' y] ys]; try discriminate;
    [reflexivity |].
  intros H.
  apply andb_prop in H as [H Hrest]. apply andb_prop in H as [Hk Hxy].
  apply String.eqb_eq in Hk. apply IH in Hxy.
  specialize (IHxs ys Hrest). injection IHxs as ->. now subst.
Qed.

Lemma treedef_eqb_false (s t : treedef) :
  treedef_eqb s t = false <-> s <> t.
Proof.
  split.
  - intros H ->. rewrite treedef_eqb_refl in H. discriminate.
  - intros H. destruct (treedef_eqb s t) eqn:Heq; [| reflexivity].
    now apply treedef_eqb_true in Heq.
Qed.

Section ReloadProperties.

Variable Array : Type.

(** C8, as the code has it.  When the file holds a parameter tree,
    [reload] returns that tree, whether or not its structure is the one of
    the current parameters: what it returns does not depend on the current
    parameters at all, so that nothing is merged; an incompatible
    structure is reported by a warning in the log, and only that.  The
    current parameters are kept when no path is given. *)
Theorem reload_returns_loaded_parameters (fs : file_system Array)
    (params : pytree Array) (path : string)
    (config new_params : pytree Array) (rest : list (pytree Array)) :
  fs path = Some (config :: new_params :: rest) ->
  snd (reload fs params (Some path)) = Ok new_params /\
  (forall params', snd (reload fs params' (Some path)) = Ok new_params) /\
  (tree_structure params <> tree_structure new_params <->
   exists msg, In (WARNING, msg) (fst (reload fs params (Some path)))) /\
  reload fs params None = ([], Ok params).
Proof.
  intros Hfile. unfold reload. rewrite Hfile.
  split; [| split; [| split]].
  - now destruct (negb _).
  - intros params'. now destruct (negb _).
  - rewrite <- treedef_eqb_false.
    destruct (treedef_eqb _ _); cbn.
    + split; [discriminate |].
      intros [msg [H | []]]. discriminate.
    + split; [| reflexivity]. intros _. eexists. right. now left.
  - reflexivity.
Qed.

End ReloadProperties.

Lemma reload_returns_loaded_parameters_witness :
  toy_files "run.pkl"%string = Some [Leaf 0%nat; stored_params] /\
  snd (reload toy_files fresh_params (Some "run.pkl"%string)) =
  Ok stored_params.
Proof.
  split; [reflexivity |].
  exact (proj1 (reload_returns_loaded_parameters toy_files fresh_params
                  "run.pkl"%string eq_refl)).
Defined.

(** C8 does not hold as it is stated: the stored tree has another
    structure than the fresh one, and yet [reload] returns the stored
    tree and not the fresh one. *)
Lemma reload_does_not_keep_fresh_parameters :
  tree_structure fresh_params <> tree_structure stored_params /\
  snd (reload toy_files fresh_params (Some "run.pkl"%string)) =
  Ok stored_params /\
  snd (reload toy_files fresh_params (Some "run.pkl"%string)) <>
  Ok fresh_params.
Proof.
  split; [| split].
  - apply treedef_eqb_false. reflexivity.
  - reflexivity.
  - cbn. discriminate.
Qed.

(** ** Zero-length edge vectors *)

Lemma norm2_nonneg (v : vec3) : 0 <= norm2 v.
Proof.
  destruct v as [[a b] c]. unfold norm2. nra.
Qed.

Lemma norm2_zero (v : vec3) : norm2 v = 0 -> v = vzero.
Proof.
  destruct v as [[a b] c]. unfold norm2, vzero. intros H.
  assert (a = 0) by nra. assert (b = 0) by nra. assert (c = 0) by nra.
  now subst.
Qed.

Lemma vdiv_vzero (c : R) : vdiv vzero c = vzero.
Proof.
  unfold vdiv, vzero. f_equal; [f_equal |]; unfold Rdiv; apply Rmult_0_l.
Qed.

Section SafeNorm.

Context {E : E3nn} {B : Blocks}.

Lemma safe_norm_nonzero (v : vec3) : safe_norm v <> 0.
Proof.
  unfold safe_norm. destruct (Req_dec_T (norm2 v) 0) as [Hz | Hnz].
  - apply safe_denominator_nonzero.
  - pose proof (norm2_nonneg v) as Hpos.
    assert (0 < sqrt (norm2 v)) by (apply sqrt_lt_R0; lra). lra.
Qed.

Lemma float_div_number (x y : R) : y <> 0 -> float_div x y = Number (x / y).
Proof.
  intros Hy. unfold float_div. now destruct (Req_dec_T y 0).
Qed.

Lemma directions_are_numbers (debug : bool) (vectors : list vec3) :
  directions debug vectors =
  Ok (map (fun v => numbers (vdiv v (safe_norm v))) vectors).
Proof.
  induction vectors as [| v vectors IH]; [reflexivity |].
  cbn [directions map]. destruct v as [[x y] z].
  rewrite !float_div_number by apply safe_norm_nonzero.
  cbn [debug_check bind]. now rewrite IH.
Qed.

Lemma zero_direction (v : vec3) :
  norm2 v = 0 -> numbers (vdiv v (safe_norm v)) = numbers vzero.
Proof.
  intros Hz. now rewrite (norm2_zero v Hz), vdiv_vzero.
Qed.

(** C7, as the code has it.  No edge vector makes the quotient
    [vectors / lengths] fail, with the checks of [debug] or without: the
    length by which a vector is divided is never zero, because
    [safe_norm] gives a vector of length zero the substituted length, so
    that every direction is a row of numbers, and the direction of a
    vector of length zero is the zero vector.  Nothing is raised for it. *)
Theorem zero_length_edges_are_evaluated (debug : bool) (vectors : list vec3) :
  directions debug vectors =
    Ok (map (fun v => numbers (vdiv v (safe_norm v))) vectors) /\
  (forall v, norm2 v = 0 -> directions debug [v] = Ok [numbers vzero]).
Proof.
  split; [apply directions_are_numbers |].
  intros v Hz. rewrite directions_are_numbers. cbn [map].
  now rewrite (zero_direction v Hz).
Qed.

End SafeNorm.

(** C7 does not hold as it is stated: an edge between two superimposed
    atoms has a vector of length zero; with the checks of [debug] on, the
    quotient is the zero vector and the evaluation returns. *)
Lemma zero_length_edge_raises_nothing :
  norm2 vzero = 0 /\
  directions true [vzero] = Ok [numbers vzero] /\
  GeneralMACE_apply_checked true toy_kwargs [vzero] [0%nat; 0%nat] [0%nat]
    [1%nat] =
  Ok (GeneralMACE_call toy_model [vzero] [0%nat; 0%nat] [0%nat] [1%nat]).
Proof.
  assert (Hz : norm2 vzero = 0) by (unfold norm2, vzero; lra).
  assert (Hd : directions true [vzero] = Ok [numbers vzero]).
  { rewrite directions_are_numbers. cbn [map].
    now rewrite (zero_direction vzero Hz). }
  split; [exact Hz |]. split; [exact Hd |].
  unfold GeneralMACE_apply_checked.
  change (GeneralMACE_init toy_kwargs) with (Ok toy_model).
  cbn [bind]. now rewrite Hd.
Qed.

(** ** Arrays and sums *)

Lemma nth_error_map2 {A B C : Type} (f : A -> B -> C) (xs : list A)
    (ys : list B) (j : nat) (x : A) (y : B) :
  nth_error xs j = Some x -> nth_error ys j = Some y ->
  nth_error (map2 f xs ys) j = Some (f x y).
Proof.
  revert ys j. induction xs as [| x' xs IH]; intros [| y' ys] [| j];
    cbn; try discriminate.
  - now intros [= ->] [= ->].
  - apply IH.
Qed.

Lemma nth_error_nth_eq {A : Type} (xs : list A) (j : nat) (x d : A) :
  nth_error xs j = Some x -> nth j xs d = x.
Proof.
  intros H. now apply nth_error_nth.
Qed.

Lemma rsum_app (xs ys : list R) : rsum (xs ++ ys) = rsum xs + rsum ys.
Proof.
  unfold rsum.
  induction xs as [| x xs IH]; cbn [app fold_right].
  - lra.
  - rewrite IH. lra.
Qed.

Lemma rsum_zeros (xs : list R) : Forall (fun c => c = 0) xs -> rsum xs = 0.
Proof.
  unfold rsum.
  induction 1 as [| x xs Hx _ IH]; cbn [fold_right]; [reflexivity |].
  lra.
Qed.

Lemma sum_nodes_nth (n_node : list nat) (xs : list R) (g : nat) :
  (g < List.length n_node)%nat ->
  nth g (sum_nodes_of_the_same_graph n_node xs) 0 =
  rsum (nodes_of_graph n_node g xs).
Proof.
  revert xs g. induction n_node as [| n rest IH]; intros xs g Hg.
  - cbn in Hg. lia.
  - destruct g as [| g].
    + reflexivity.
    + cbn [sum_nodes_of_the_same_graph nth].
      rewrite IH by (cbn in Hg; lia).
      unfold nodes_of_graph. cbn [firstn nth list_sum fold_right].
      fold (list_sum (firstn g rest)).
      now rewrite skipn_skipn, Nat.add_comm.
Qed.

Lemma sum_nodes_total (n_node : list nat) (xs : list R) :
  rsum (sum_nodes_of_the_same_graph n_node xs) =
  rsum (firstn (list_sum n_node) xs).
Proof.
  revert xs. induction n_node as [| n rest IH]; intros xs.
  - reflexivity.
  - cbn [sum_nodes_of_the_same_graph list_sum fold_right].
    fold (list_sum rest).
    change (rsum (?a :: ?l)) with (a + rsum l).
    rewrite IH.
    rewrite <- (firstn_skipn n xs) at 3.
    rewrite firstn_app, firstn_firstn, rsum_app.
    replace (Nat.min (n + list_sum rest) n) with n by lia.
    destruct (Nat.le_gt_cases n (List.length xs)) as [Hle | Hgt].
    + rewrite length_firstn.
      replace (n + list_sum rest - Nat.min n (List.length xs))%nat
        with (list_sum rest) by lia.
      reflexivity.
    + rewrite (skipn_all2 xs) by lia. now rewrite !firstn_nil.
Qed.

(** ** Scale, shift and atomic energies *)

Section ScaleShift.

Context {E : E3nn} {B : Blocks} {T : Tools}.

Variables Rest RadialFn Weights : Type.
Variable mace :
  MACE_kwargs Rest RadialFn -> Weights ->
  list vec3 -> list nat -> list nat -> list nat -> result IrrepsArray.
Variable mace_init : MACE_kwargs Rest RadialFn -> nat -> result Weights.
Variable compute_avg_num_neighbors : option (list GraphsTuple) -> result R.
Variable compute_avg_min_neighbor_distance :
  option (list GraphsTuple) -> result R.
Variable compute_average_E0s :
  option (list GraphsTuple) -> option (list nat) -> result (list (nat * R)).

Lemma energy_fn_node_energies (self : MACE) (graph : GraphsTuple)
    (positions : list vec3) :
  snd (energy_fn self graph positions) =
  map2 Rplus
    (map (jnp_take 0 (atomic_energies self)) (nodes_attrs graph))
    (map (fun row => shift self + scale self * rsum row)
         (contributions_of self graph positions)).
Proof.
  unfold energy_fn, AtomicEnergiesBlock, ScaleShiftBlock. cbn [snd].
  now rewrite map_map.
Qed.

Lemma model_closure (a : model_args Rest RadialFn)
    (r : model_result Rest RadialFn Weights) :
  model mace_init compute_avg_num_neighbors compute_avg_min_neighbor_distance
        compute_average_E0s a = Ok r ->
  match a_scaling a with
  | None => c_mean (m_apply r) = 0 /\ c_std (m_apply r) = 1
  | Some scaling =>
      exists energies,
        scaling (a_train_graphs a) energies =
        Ok (c_mean (m_apply r), c_std (m_apply r))
  end.
Proof.
  unfold model.
  destruct (resolve_avg_num_neighbors _ a) as [x | e]; [| discriminate].
  destruct (resolve_avg_r_min _ a) as [y | e]; [| discriminate].
  destruct (resolve_atomic_energies _ a _) as [en | e]; [| discriminate].
  destruct (check_num_species a _) as [[] | e]; [| discriminate].
  cbn [bind].
  destruct (a_scaling a) as [scaling |].
  - destruct (scaling (a_train_graphs a) en) as [[mean std] | e] eqn:Hsc;
      [| discriminate].
    cbn [bind fst snd].
    destruct (a_initialize_seed a) as [seed |].
    + destruct (model_init _ _ _) as [p | e]; [| discriminate].
      cbn [bind]. intros [= <-]. now exists en.
    + cbn [bind]. intros [= <-]. now exists en.
  - cbn [bind fst snd].
    destruct (a_initialize_seed a) as [seed |].
    + destruct (model_init _ _ _) as [p | e]; [| discriminate].
      cbn [bind]. intros [= <-]. now split.
    + cbn [bind]. intros [= <-]. now split.
Qed.

(** C2. The energy of a node is its tabulated atomic energy added to
    [shift + scale * s], where [s] is the sum of the node's per-layer
    contributions: so in [MACE.__call__], with the [scale] and [shift]
    given to [MACE.__init__], and so in [model_], for every parameter
    tree, with the [std] and [mean] that [model] fixed when it built the
    function (0 and 1, or what the configured [scaling] returned).  The
    parameter tree enters through the contributions, and through the
    table of atomic energies when [learnable_atomic_energies] is set. *)
Theorem scale_shift_then_atomic_energies :
  (forall (atomic_inter_scale atomic_inter_shift : R) (table : list R)
          (kwargs : GeneralMACE_kwargs) (self : MACE) (graph : GraphsTuple)
          (positions : list vec3) (j z : nat) (row : list R),
     MACE_init atomic_inter_scale atomic_inter_shift table kwargs = Ok self ->
     nth_error (nodes_attrs graph) j = Some z ->
     nth_error (contributions_of self graph positions) j = Some row ->
     nth_error (snd (energy_fn self graph positions)) j =
     Some (jnp_take 0 table z
           + (atomic_inter_shift + atomic_inter_scale * rsum row))) /\
  (forall (a : model_args Rest RadialFn)
          (r : model_result Rest RadialFn Weights),
     model mace_init compute_avg_num_neighbors
           compute_avg_min_neighbor_distance compute_average_E0s a = Ok r ->
     match a_scaling a with
     | None => c_mean (m_apply r) = 0 /\ c_std (m_apply r) = 1
     | Some scaling =>
         exists energies,
           scaling (a_train_graphs a) energies =
           Ok (c_mean (m_apply r), c_std (m_apply r))
     end) /\
  (forall (c : closure Rest RadialFn) (params : hk_params Weights)
          (vectors : list vec3) (node_z senders receivers : list nat)
          (x : IrrepsArray) (table : list R),
     mace (c_kwargs c) (weights params) vectors node_z senders receivers
       = Ok x ->
     (if c_learnable_atomic_energies c
      then atomic_energies_param params = Some table
      else c_atomic_energies c = Array1 table) ->
     model_ mace c params vectors node_z senders receivers =
       Ok (map2 Rplus
             (map (fun row => c_mean c + c_std c * rsum row) (array_0 x))
             (map (jnp_take 0 table) node_z)) /\
     forall (j z : nat) (row : list R),
       nth_error node_z j = Some z ->
       nth_error (array_0 x) j = Some row ->
       exists node_energies,
         model_ mace c params vectors node_z senders receivers
           = Ok node_energies /\
         nth_error node_energies j =
         Some ((c_mean c + c_std c * rsum row) + jnp_take 0 table z)).
Proof.
  split; [| split].
  - intros s sh table kwargs self graph positions j z row Hinit Hz Hrow.
    unfold MACE_init in Hinit.
    destruct (GeneralMACE_init _) as [m | e]; [| discriminate].
    cbn [bind] in Hinit. injection Hinit as <-.
    rewrite energy_fn_node_energies. cbn [atomic_energies shift scale].
    apply nth_error_map2.
    + now rewrite nth_error_map, Hz.
    + rewrite nth_error_map. unfold contributions_of in Hrow.
      cbn [energy_model] in Hrow. unfold contributions_of.
      cbn [energy_model]. now rewrite Hrow.
  - exact model_closure.
  - intros c params vectors node_z senders receivers x table Hx Htable.
    assert (Hrun :
      model_ mace c params vectors node_z senders receivers =
      Ok (map2 Rplus
            (map (fun row => c_mean c + c_std c * rsum row) (array_0 x))
            (map (jnp_take 0 table) node_z))).
    { unfold model_. rewrite Hx. cbn [bind]. rewrite map_map.
      destruct (c_learnable_atomic_energies c).
      - unfold get_atomic_energies_parameter. now rewrite Htable.
      - now rewrite Htable. }
    split; [exact Hrun |].
    intros j z row Hz Hrow. eexists. split; [exact Hrun |].
    apply nth_error_map2.
    + now rewrite nth_error_map, Hrow.
    + now rewrite nth_error_map, Hz.
Qed.

End ScaleShift.

Lemma scale_shift_then_atomic_energies_witness :
  MACE_init 2 1 [7] toy_kwargs = Ok toy_mace /\
  nth_error (snd (energy_fn toy_mace lone_atom [vzero])) 0 =
  Some (jnp_take 0 [7] 0%nat
        + (1 + 2 * rsum [0 * (1 / 2); 0 * (1 / 2) + 0 * (1 / 2)])).
Proof.
  split; [reflexivity |].
  exact (proj1 (scale_shift_then_atomic_energies
                  (E := toy_e3nn) (B := toy_blocks) (T := toy_tools)
                  (fun (_ : MACE_kwargs unit unit) (_ : unit) _ _ _ _ =>
                     Ok [])
                  (fun _ _ => Ok tt) (fun _ => Ok 1) (fun _ => Ok 1)
                  (fun _ _ => Ok []))
               2 1 [7] toy_kwargs toy_mace lone_atom [vzero] 0%nat 0%nat
               [0 * (1 / 2); 0 * (1 / 2) + 0 * (1 / 2)]
               eq_refl eq_refl eq_refl).
Defined.

(** ** Energies and forces *)

Lemma coord_vneg (v : vec3) (k : axis) : coord (vneg v) k = - coord v k.
Proof.
  destruct v as [[x y] z]. now destruct k.
Qed.

Lemma vneg_vzero : vneg vzero = vzero.
Proof.
  unfold vneg, vzero. now rewrite Ropp_0.
Qed.

Lemma nth_map_vneg (g : list vec3) (i : nat) :
  nth i (map vneg g) vzero = vneg (nth i g vzero).
Proof.
  rewrite <- vneg_vzero at 1. apply map_nth.
Qed.

Lemma vec3_eq_coords (v w : vec3) :
  (forall k, coord v k = coord w k) -> v = w.
Proof.
  destruct v as [[x y] z], w as [[x' y'] z']. intros H.
  pose proof (H axis_x) as Hx. pose proof (H axis_y) as Hy.
  pose proof (H axis_z) as Hz. cbn in Hx, Hy, Hz. now subst.
Qed.

Lemma length_set_coord (p : list vec3) (i : nat) (k : axis) (t : R) :
  List.length (set_coord p i k t) = List.length p.
Proof.
  revert i. induction p as [| v p IH]; intros [| i]; cbn; auto.
Qed.

Lemma nth_set_coord_other (p : list vec3) (i j : nat) (k : axis) (t : R) :
  j <> i -> nth j (set_coord p i k t) vzero = nth j p vzero.
Proof.
  revert i j. induction p as [| v p IH]; intros [| i] [| j] Hne; cbn;
    try reflexivity; try (now contradiction Hne).
  apply IH. lia.
Qed.

Lemma jnp_take_set_coord_other (p : list vec3) (i j : nat) (k : axis) (t : R) :
  (j < List.length p)%nat -> j <> i ->
  jnp_take vzero (set_coord p i k t) j = jnp_take vzero p j.
Proof.
  intros Hlt Hne. unfold jnp_take. rewrite length_set_coord.
  replace (Nat.min j (List.length p - 1)) with j by lia.
  now apply nth_set_coord_other.
Qed.

(** A function that does not change has derivative zero. *)
Lemma constant_derivative (f : R -> R) (x : R) :
  (forall t, f t = f x) -> derivable_pt_lim f x 0.
Proof.
  intros Hconst eps Heps. exists (mkposreal 1 Rlt_0_1). intros h Hh _.
  rewrite (Hconst (x + h)).
  replace ((f x - f x) / h - 0) with 0 by (field; exact Hh).
  now rewrite Rabs_R0.
Qed.

Lemma derivable_pt_lim_ext (f g : R -> R) (x l : R) :
  (forall t, f t = g t) -> derivable_pt_lim f x l -> derivable_pt_lim g x l.
Proof.
  intros Hext Hf eps Heps. destruct (Hf eps Heps) as [delta Hdelta].
  exists delta. intros h Hh Hsmall. rewrite <- !Hext. now apply Hdelta.
Qed.

(** The derivative at a point depends on the function near it only. *)
Lemma derivable_pt_lim_near (f g : R -> R) (x l d : R) :
  0 < d -> (forall t, Rabs (t - x) < d -> f t = g t) ->
  derivable_pt_lim g x l -> derivable_pt_lim f x l.
Proof.
  intros Hd Hnear Hg eps Heps. destruct (Hg eps Heps) as [delta Hdelta].
  assert (Hmin : 0 < Rmin d delta)
    by (apply Rmin_pos; [exact Hd | apply cond_pos]).
  exists (mkposreal _ Hmin). intros h Hh Hsmall. cbn in Hsmall.
  rewrite (Hnear (x + h)), (Hnear x).
  - apply Hdelta; [exact Hh |].
    eapply Rlt_le_trans; [exact Hsmall | apply Rmin_r].
  - replace (x - x) with 0 by lra. now rewrite Rabs_R0.
  - replace (x + h - x) with h by lra.
    eapply Rlt_le_trans; [exact Hsmall | apply Rmin_l].
Qed.

Lemma derivable_pt_lim_affine (a b x : R) :
  derivable_pt_lim (fun t => a + b * t) x b.
Proof.
  intros eps Heps. exists (mkposreal 1 Rlt_0_1). intros h Hh _.
  replace ((a + b * (x + h) - (a + b * x)) / h - b) with 0
    by (field; exact Hh).
  now rewrite Rabs_R0.
Qed.

Lemma partial_derivative_is (f : R -> R) (x l : R) :
  derivable_pt_lim f x l -> partial_derivative f x = l.
Proof.
  intros Hl. unfold partial_derivative.
  destruct (excluded_middle_informative _) as [H | Hn].
  - destruct (constructive_indefinite_description _ H) as [l' Hl']. cbn.
    exact (uniqueness_limite f x l' l Hl' Hl).
  - exfalso. apply Hn. now exists l.
Qed.

(** The gradient of the small instance is what [jax.grad] is there for. *)
Lemma gradient_contract : jax_grad_contract (T := toy_tools).
Proof.
  intros f p i k l Hi Hl. cbn [jax_grad toy_tools]. unfold gradient.
  set (row := fun i : nat => _).
  rewrite (nth_indep _ vzero (row 0%nat))
    by now rewrite length_map, length_seq.
  rewrite map_nth, seq_nth by exact Hi. cbn [Nat.add]. unfold row.
  destruct k; cbn [coord]; now apply partial_derivative_is.
Qed.

Section Forces.

Context {E : E3nn} {B : Blocks} {T : Tools}.

Lemma MACE_call_energy (self : MACE) (graph : GraphsTuple) :
  energy (MACE_call self graph) =
  sum_nodes_of_the_same_graph (n_node graph)
    (snd (energy_fn self graph (nodes_positions graph))).
Proof. reflexivity. Qed.

Lemma MACE_call_forces (self : MACE) (graph : GraphsTuple) :
  forces (MACE_call self graph) =
  map vneg (jax_grad (fun q => rsum (snd (energy_fn self graph q)))
                     (nodes_positions graph)).
Proof. reflexivity. Qed.

(** The force on a node, from what [jax.grad] is there for. *)
Lemma force_coordinate (self : MACE) (graph : GraphsTuple) (i : nat)
    (k : axis) (l : R) :
  jax_grad_contract ->
  (i < List.length (nodes_positions graph))%nat ->
  derivable_pt_lim
    (fun t => rsum (snd (energy_fn self graph
                           (set_coord (nodes_positions graph) i k t))))
    (coord (nth i (nodes_positions graph) vzero) k) l ->
  coord (nth i (forces (MACE_call self graph)) vzero) k = - l.
Proof.
  intros Hjax Hi Hl.
  rewrite MACE_call_forces, nth_map_vneg, coord_vneg. f_equal.
  exact (Hjax (fun q => rsum (snd (energy_fn self graph q))) _ i k l Hi Hl).
Qed.

(** C1. The energy of a node is its tabulated atomic energy added to
    [shift + scale * s], for the sum [s] of the contributions that the
    energy model gives the node on the edge vectors of the positions.
    The energy that the driver returns for a structure is the sum of
    these energies over the nodes of the structure, and the energies of
    the structures add up to the sum over all the nodes.  The forces come
    from [jax.grad] on that sum as a function of the positions: with what
    [jax.grad] is there for, wherever the sum has a partial derivative in
    a coordinate of the position of a node, the force on the node has
    minus that derivative in that coordinate. *)
Theorem energies_and_forces (self : MACE) (graph : GraphsTuple) :
  jax_grad_contract ->
  let p := nodes_positions graph in
  let node_energies := fun q =>
    map2 Rplus
      (map (jnp_take 0 (atomic_energies self)) (nodes_attrs graph))
      (map (fun row => shift self + scale self * rsum row)
           (array_0
              (GeneralMACE_call (energy_model self)
                 (get_edge_relative_vectors q (graph_senders graph)
                    (graph_receivers graph) (edges_shifts graph)
                    (globals_cell graph) (n_edge graph))
                 (nodes_attrs graph) (graph_senders graph)
                 (graph_receivers graph)))) in
  let total := fun q => rsum (node_energies q) in
  let out := MACE_call self graph in
  (forall g, (g < List.length (n_node graph))%nat ->
     nth g (energy out) 0 =
     rsum (nodes_of_graph (n_node graph) g (node_energies p))) /\
  (list_sum (n_node graph) = List.length (node_energies p) ->
   rsum (energy out) = total p) /\
  (forall i k l, (i < List.length p)%nat ->
     derivable_pt_lim (fun t => total (set_coord p i k t))
       (coord (nth i p vzero) k) l ->
     coord (nth i (forces out) vzero) k = - l).
Proof.
  intros Hjax p node_energies total out.
  assert (Henergies : forall q, snd (energy_fn self graph q) = node_energies q)
    by (intros q; apply energy_fn_node_energies).
  split; [| split].
  - intros g Hg. unfold out. rewrite MACE_call_energy, Henergies.
    now apply sum_nodes_nth.
  - intros Hall. unfold out. rewrite MACE_call_energy, Henergies.
    rewrite sum_nodes_total, Hall. now rewrite firstn_all.
  - intros i k l Hi Hl. apply force_coordinate; [exact Hjax | exact Hi |].
    apply derivable_pt_lim_ext with (2 := Hl).
    intros t. unfold total. now rewrite Henergies.
Qed.

Lemma edge_vectors_of_isolated (graph : GraphsTuple) (i : nat) (k : axis)
    (t : R) :
  well_formed graph -> isolated graph i ->
  let p := nodes_positions graph in
  get_edge_relative_vectors (set_coord p i k t) (graph_senders graph)
    (graph_receivers graph) (edges_shifts graph) (globals_cell graph)
    (n_edge graph) =
  get_edge_relative_vectors p (graph_senders graph)
    (graph_receivers graph) (edges_shifts graph) (globals_cell graph)
    (n_edge graph).
Proof.
  intros (Hlen & Hs & Hr & _) (Hnots & Hnotr) p.
  unfold get_edge_relative_vectors.
  apply map_ext_in. intros e He. apply in_seq in He.
  assert (Hre : In (nth e (graph_receivers graph) 0%nat)
                   (graph_receivers graph)) by (apply nth_In; lia).
  assert (Hse : In (nth e (graph_senders graph) 0%nat)
                   (graph_senders graph)) by (apply nth_In; lia).
  rewrite Forall_forall in Hs, Hr.
  rewrite !jnp_take_set_coord_other; auto.
  - intros Heq. apply Hnots. now rewrite <- Heq.
  - intros Heq. apply Hnotr. now rewrite <- Heq.
Qed.

Lemma energy_fn_of_isolated (self : MACE) (graph : GraphsTuple) (i : nat)
    (k : axis) (t : R) :
  well_formed graph -> isolated graph i ->
  energy_fn self graph (set_coord (nodes_positions graph) i k t) =
  energy_fn self graph (nodes_positions graph).
Proof.
  intros Hwf Hiso. unfold energy_fn, contributions_of.
  now rewrite (edge_vectors_of_isolated k t Hwf Hiso).
Qed.

(** Moving an atom without edges leaves the energies as they are, so the
    force on it is zero. *)
Lemma isolated_atom_force (self : MACE) (graph : GraphsTuple) (i : nat) :
  jax_grad_contract -> well_formed graph -> isolated graph i ->
  (i < List.length (nodes_positions graph))%nat ->
  nth i (forces (MACE_call self graph)) vzero = vzero.
Proof.
  intros Hjax Hwf Hiso Hi.
  apply vec3_eq_coords. intros k.
  rewrite (force_coordinate self graph k (l := 0) Hjax Hi).
  - destruct k; cbn; lra.
  - apply constant_derivative. intros t.
    rewrite (energy_fn_of_isolated self _ _ Hwf Hiso).
    f_equal. f_equal. symmetry.
    replace (set_coord (nodes_positions graph) i k
               (coord (nth i (nodes_positions graph) vzero) k))
      with (nodes_positions graph); [reflexivity |].
    clear. revert i. induction (nodes_positions graph) as [| v p IH];
      intros [| i]; cbn; try reflexivity.
    + destruct v as [[x y] z]. now destruct k.
    + now rewrite <- IH.
Qed.

Section IsolatedAtom.

Context {Z : ZeroRows}.

Lemma normalize_zero_row (self : GeneralMACE) (x : IrrepsArray) (j : nat) :
  zero_row x j -> zero_row (normalize self x) j.
Proof.
  intros Hx. unfold normalize.
  destruct (epsilon self); [now apply imul_zero_row | now apply idiv_zero_row].
Qed.

Lemma readout_zero_row (self : GeneralMACE) (i : nat) (x : IrrepsArray)
    (j : nat) :
  activation self 0 = 0 -> zero_row x j -> zero_row (readout self i x) j.
Proof.
  intros Hact Hx. unfold readout, LinearReadoutBlock, NonLinearReadoutBlock.
  apply axis_to_mul_zero_row in Hx.
  destruct (_ <? _)%Z.
  - now apply Linear_zero_row.
  - apply Linear_zero_row, activation_zero_row; [exact Hact |].
    now apply Linear_zero_row.
Qed.

(** A layer of the default blocks leaves no features to a node at which no
    edge arrives, if the layer is the first or the node came without
    features. *)
Lemma layer_zero_row (self : GeneralMACE) (d : EdgeData) (st : LoopState)
    (i j : nat) :
  interaction_cls_first self = AgnosticInteractionBlock ->
  interaction_cls self = AgnosticResidualInteractionBlock ->
  activation self 0 = 0 ->
  ~ In j (receivers d) ->
  (i <> 0%nat -> zero_row (node_feats st) j) ->
  Forall (fun x => zero_row x j) (outputs st) ->
  zero_row (node_feats (layer self d st i)) j /\
  Forall (fun x => zero_row x j) (outputs (layer self d st i)).
Proof.
  intros Hfirst Hcls Hact Hj Hfeats Houts.
  assert (Hnew : zero_row (node_feats (layer self d st i)) j).
  { rewrite layer_node_feats. unfold interaction_of.
    destruct i as [| i]; cbn [Nat.eqb].
    - rewrite Hfirst. cbn [AgnosticInteractionBlock fst snd
                             add_self_connection].
      apply product_basis_zero_row, normalize_zero_row, messages_zero_row.
      exact Hj.
    - rewrite Hcls. cbn [AgnosticResidualInteractionBlock fst snd
                           add_self_connection].
      apply iadd_zero_row.
      + apply product_basis_zero_row, normalize_zero_row, messages_zero_row.
        exact Hj.
      + apply self_connection_zero_row. cbn. now apply Hfeats. }
  split; [exact Hnew |].
  rewrite layer_outputs. apply Forall_app. split; [exact Houts |].
  apply Forall_cons; [| apply Forall_nil].
  now apply readout_zero_row.
Qed.

Lemma run_layers_zero_row (self : GeneralMACE) (d : EdgeData) (j n : nat) :
  interaction_cls_first self = AgnosticInteractionBlock ->
  interaction_cls self = AgnosticResidualInteractionBlock ->
  activation self 0 = 0 ->
  ~ In j (receivers d) ->
  (n <> 0%nat -> zero_row (node_feats (run_layers self d n)) j) /\
  Forall (fun x => zero_row x j) (outputs (run_layers self d n)).
Proof.
  intros Hfirst Hcls Hact Hj. induction n as [| n [IHfeats IHouts]].
  - split; [intros H; now contradiction H | apply Forall_nil].
  - rewrite run_layers_S.
    edestruct layer_zero_row as [Hnew Houts];
      [exact Hfirst | exact Hcls | exact Hact | exact Hj | exact IHfeats
      | exact IHouts |].
    split; [intros _; exact Hnew | exact Houts].
Qed.

(** The contributions of a node at which no edge arrives are all zero. *)
Lemma contributions_of_isolated (self : MACE) (graph : GraphsTuple)
    (positions : list vec3) (i : nat) (row : list R) :
  interaction_cls_first (energy_model self) = AgnosticInteractionBlock ->
  interaction_cls (energy_model self) = AgnosticResidualInteractionBlock ->
  activation (energy_model self) 0 = 0 ->
  ~ In i (graph_receivers graph) ->
  nth_error (contributions_of self graph positions) i = Some row ->
  Forall (fun c => c = 0) row.
Proof.
  intros Hfirst Hcls Hact Hi Hrow.
  unfold contributions_of, GeneralMACE_call in Hrow.
  apply stack_zero_row with (2 := Hrow).
  now apply run_layers_zero_row.
Qed.

(** C4, as the code has it.  Take a node without incident edges in a
    graph whose edges name existing nodes, and a model with the default
    blocks (the first one without self-connection) and an activation that
    is zero at zero.  The contributions of the node are all zero, its
    energy is its tabulated atomic energy plus [shift] (that is, plus
    [shift + scale * 0]); and with what [jax.grad] is there for, the force
    on it is zero. *)
Theorem isolated_atom_energy_and_force (self : MACE) (graph : GraphsTuple)
    (i z : nat) (row : list R) :
  jax_grad_contract ->
  interaction_cls_first (energy_model self) = AgnosticInteractionBlock ->
  interaction_cls (energy_model self) = AgnosticResidualInteractionBlock ->
  activation (energy_model self) 0 = 0 ->
  well_formed graph ->
  isolated graph i ->
  nth_error (nodes_attrs graph) i = Some z ->
  nth_error (contributions_of self graph (nodes_positions graph)) i
    = Some row ->
  Forall (fun c => c = 0) row /\
  nth_error (snd (energy_fn self graph (nodes_positions graph))) i =
    Some (jnp_take 0 (atomic_energies self) z + shift self) /\
  nth i (forces (MACE_call self graph)) vzero = vzero.
Proof.
  intros Hjax Hfirst Hcls Hact Hwf Hiso Hz Hrow.
  assert (Hzero : Forall (fun c => c = 0) row)
    by (eapply contributions_of_isolated; try eassumption; apply Hiso).
  split; [exact Hzero |]. split.
  - rewrite energy_fn_node_energies.
    replace (jnp_take 0 (atomic_energies self) z + shift self)
      with (jnp_take 0 (atomic_energies self) z
            + (shift self + scale self * rsum row))
      by (rewrite (rsum_zeros Hzero); lra).
    apply nth_error_map2.
    + now rewrite nth_error_map, Hz.
    + now rewrite nth_error_map, Hrow.
  - apply isolated_atom_force; try assumption.
    destruct Hwf as (_ & _ & _ & Hattrs). rewrite <- Hattrs.
    apply nth_error_Some. congruence.
Qed.

End IsolatedAtom.

End Forces.

(** ** The small instance *)

Lemma safe_norm_along_axis {E : E3nn} {B : Blocks} (a b c : R) :
  a = 0 -> b = 0 -> 0 < c -> safe_norm (a, b, c) = c.
Proof.
  intros -> -> Hc. unfold safe_norm, norm2.
  destruct (Req_dec_T (0 * 0 + 0 * 0 + c * c) 0) as [Hz | _]; [nra |].
  replace (0 * 0 + 0 * 0 + c * c) with (c * c) by ring.
  apply sqrt_square. lra.
Qed.

Lemma Forall_zero_map (f : R -> R) (row : list R) :
  f 0 = 0 -> Forall (fun c => c = 0) row -> Forall (fun c => c = 0) (map f row).
Proof.
  intros Hf. induction 1 as [| c row -> _ IH]; cbn; constructor; assumption.
Qed.

Lemma Forall_zero_map2 (row row' : list R) :
  Forall (fun c => c = 0) row -> Forall (fun c => c = 0) row' ->
  Forall (fun c => c = 0) (map2 Rplus row row').
Proof.
  intros Hrow. revert row'.
  induction Hrow as [| c row -> _ IH]; intros row' Hrow'; [constructor |].
  destruct Hrow' as [| c' row' -> Hrow']; cbn; constructor; [lra | auto].
Qed.

Lemma nth_map_rows (g : list R -> list R) (x : list (list R)) (j : nat) :
  g [] = [] -> nth j (map g x) [] = g (nth j x []).
Proof.
  intros Hg. rewrite <- Hg at 1. apply map_nth.
Qed.

Lemma nth_map2_rows (x y : list (list R)) (j : nat) :
  nth j (map2 (map2 Rplus) x y) [] = [] \/
  nth j (map2 (map2 Rplus) x y) [] = map2 Rplus (nth j x []) (nth j y []).
Proof.
  revert y j. induction x as [| r x IH]; intros [| r' y] [| j]; cbn;
    try (now left); try (now right).
  apply IH.
Qed.

Lemma filter_none {A : Type} (f : A -> bool) (l : list A) :
  (forall x, In x l -> f x = false) -> filter f l = [].
Proof.
  induction l as [| x l IH]; intros H; [reflexivity |].
  cbn. rewrite (H x (or_introl eq_refl)). apply IH.
  intros y Hy. apply H. now right.
Qed.

Lemma toy_messages_zero (i : nat) (cfg : InteractionConfig)
    (inp : InteractionInputs) (j : nat) :
  ~ In j (ii_receivers inp) ->
  Forall (fun c => c = 0) (nth j (toy_messages i cfg inp) []).
Proof.
  intros Hj. unfold toy_messages.
  set (row := fun j : nat => _).
  destruct (Nat.lt_ge_cases j (List.length (ii_node_specie inp)))
    as [Hlt | Hge].
  - rewrite (nth_indep _ [] (row 0%nat))
      by now rewrite length_map, length_seq.
    rewrite map_nth, seq_nth by exact Hlt. cbn [Nat.add]. unfold row.
    rewrite filter_none; [cbn; now constructor |].
    intros e He. apply in_seq in He. apply Nat.eqb_neq. intros Heq.
    apply Hj. rewrite <- Heq. apply nth_In. lia.
  - rewrite nth_overflow by now rewrite length_map, length_seq.
    constructor.
Qed.

Lemma first_entries_zero (xs : list (list (list R))) (j : nat) :
  Forall (fun x => Forall (fun c => c = 0) (nth j x [])) xs ->
  Forall (fun c => c = 0) (map (fun o => hd 0 (nth j o [])) xs).
Proof.
  induction 1 as [| o os Ho _ IH]; cbn; constructor; [| exact IH].
  destruct Ho; [reflexivity | assumption].
Qed.

Lemma toy_stack_zero (xs : list (list (list R))) (j : nat) (row : list R) :
  Forall (fun x => Forall (fun c => c = 0) (nth j x [])) xs ->
  nth_error (toy_stack xs) j = Some row ->
  Forall (fun c => c = 0) row.
Proof.
  intros Hxs. unfold toy_stack. destruct xs as [| x xs']; [now destruct j |].
  rewrite nth_error_map.
  destruct (nth_error (seq 0 (List.length x)) j) as [j' |] eqn:Hj;
    [| discriminate].
  cbn [option_map]. intros [= <-].
  assert (j' = j) as ->.
  { pose proof (nth_error_nth _ _ 0%nat Hj) as Hnth.
    assert (j < List.length (seq 0 (List.length x)))%nat
      by (apply nth_error_Some; congruence).
    rewrite length_seq in *. rewrite seq_nth in Hnth by assumption.
    now rewrite <- Hnth. }
  exact (first_entries_zero j Hxs).
Qed.

(** The operations of the small instance keep the zero features of a
    node. *)
#[export] Instance toy_zero_rows : @ZeroRows toy_e3nn toy_blocks.
Proof.
  apply (@Build_ZeroRows toy_e3nn toy_blocks
           (fun x j => Forall (fun c => c = 0) (nth j (x : list (list R)) []))).
  - intros x c j Hx. cbn. rewrite nth_map_rows by reflexivity.
    apply Forall_zero_map; [lra | exact Hx].
  - intros x c j Hx. cbn. rewrite nth_map_rows by reflexivity.
    apply Forall_zero_map; [unfold Rdiv; lra | exact Hx].
  - intros x y j Hx Hy. cbn.
    destruct (nth_map2_rows x y j) as [-> | ->]; [constructor |].
    now apply Forall_zero_map2.
  - intros x j Hx. exact Hx.
  - intros i k irreps x j Hx. exact Hx.
  - intros f x j Hf Hx. cbn. rewrite nth_map_rows by reflexivity.
    now apply Forall_zero_map.
  - intros xs j row Hxs Hrow. exact (@toy_stack_zero xs j row Hxs Hrow).
  - intros i cfg inp j Hj. now apply toy_messages_zero.
  - intros i cfg inp j Hx. exact Hx.
  - intros i n irreps c order order' m x species j Hx. exact Hx.
Defined.

Lemma pair_and_one_well_formed :
  well_formed pair_and_one /\ isolated pair_and_one 2.
Proof.
  split.
  - repeat split; repeat constructor.
  - split; cbn; intros [H | []]; discriminate.
Qed.

(** The pair has the energy 20; the force on the second atom is 2 towards
    the first, and the force on the first atom is the opposite. *)
Lemma energies_and_forces_witness :
  jax_grad_contract (T := toy_tools) /\
  nth 0 (energy (MACE_call toy_mace bonded_pair)) 0 = 20 /\
  coord (nth 1 (forces (MACE_call toy_mace bonded_pair)) vzero) axis_z = - 2 /\
  coord (nth 0 (forces (MACE_call toy_mace bonded_pair)) vzero) axis_z = 2.
Proof.
  destruct (energies_and_forces toy_mace bonded_pair gradient_contract)
    as (Hsum & _ & Hforce).
  split; [exact gradient_contract |]. split; [| split].
  - rewrite (Hsum 0%nat) by (cbn; lia). cbn -[safe_norm].
    rewrite safe_norm_along_axis by lra. lra.
  - apply (Hforce 1%nat axis_z 2); [cbn; lia |].
    apply derivable_pt_lim_near with (g := fun t => 16 + 2 * t) (d := 1);
      [lra | | apply derivable_pt_lim_affine].
    intros t Ht. cbn in Ht. apply Rabs_def2 in Ht.
    cbn -[safe_norm]. rewrite safe_norm_along_axis by lra. lra.
  - rewrite <- (Ropp_involutive 2).
    apply (Hforce 0%nat axis_z (-2)); [cbn; lia |].
    apply derivable_pt_lim_near with (g := fun t => 20 + -2 * t) (d := 1);
      [lra | | apply derivable_pt_lim_affine].
    intros t Ht. cbn in Ht. apply Rabs_def2 in Ht.
    cbn -[safe_norm]. rewrite safe_norm_along_axis by lra. lra.
Defined.

(** The third atom of [pair_and_one] has no edge: no contribution, the
    energy 8, no force. *)
Lemma isolated_atom_energy_and_force_witness :
  (well_formed pair_and_one /\ isolated pair_and_one 2) /\
  activation (energy_model toy_mace) 0 = 0 /\
  exists row,
    nth_error (contributions_of toy_mace pair_and_one
                 (nodes_positions pair_and_one)) 2 = Some row /\
    Forall (fun c => c = 0) row /\
    nth_error (snd (energy_fn toy_mace pair_and_one
                      (nodes_positions pair_and_one))) 2 =
      Some (jnp_take 0 [7] 0%nat + 1) /\
    nth 2 (forces (MACE_call toy_mace pair_and_one)) vzero = vzero.
Proof.
  split; [exact pair_and_one_well_formed |]. split; [reflexivity |].
  eexists. split; [reflexivity |].
  exact (@isolated_atom_energy_and_force toy_e3nn toy_blocks toy_tools
           toy_zero_rows toy_mace pair_and_one 2%nat 0%nat _
           gradient_contract eq_refl eq_refl eq_refl
           (proj1 pair_and_one_well_formed) (proj2 pair_and_one_well_formed)
           eq_refl eq_refl).
Defined.

(** C4 does not hold as it is stated.  With a shift of 1 and a tabulated
    energy of 7, the lone atom has energy 8, not 7 plus [shift * 0]; so in
    [MACE.__call__], and so in [model_] with a mean of 1.  And the
    contributions of the lone atom are not zero in every model: with an
    activation that is 1 at 0 its energy is 10, and with a first block that
    returns a self-connection it is 12. *)
Lemma isolated_atom_energy_includes_shift :
  isolated lone_atom 0 /\
  (nth 0 (snd (energy_fn toy_mace lone_atom [vzero])) 0 = 8 /\
   nth 0 (snd (energy_fn toy_mace lone_atom [vzero])) 0 <>
     jnp_take 0 (atomic_energies toy_mace) 0%nat + shift toy_mace * 0) /\
  (exists e,
     model_ toy_forward toy_closure toy_params [] [0%nat] [] [] = Ok [e] /\
     e = 8 /\
     e <> jnp_take 0 (constant_table toy_closure) 0%nat
          + c_mean toy_closure * 0) /\
  (activation offset_gate_model 0 = 1 /\
   nth 0 (contributions_of offset_gate_mace lone_atom [vzero]) [] =
     [0 * (1 / 2); 0 * (1 / 2) + 0 * (1 / 2) + 1] /\
   nth 0 (snd (energy_fn offset_gate_mace lone_atom [vzero])) 0 = 10) /\
  (snd (interaction_cls_first residual_first_model 0%nat
          {| ic_num_features := 1;
             ic_target_irreps := interaction_irreps residual_first_model;
             ic_hidden_irreps := [(1%nat, ir_0e)];
             ic_avg_num_neighbors := 1;
             ic_activation := activation residual_first_model;
             ic_num_species := 1 |}
          (interaction_inputs
             (edge_data residual_first_model [] [0%nat] [] [])
             [[1]])) = Some [[1]] /\
   nth 0 (snd (energy_fn residual_first_mace lone_atom [vzero])) 0 = 12).
Proof.
  split; [split; intros [] |].
  split; [split; cbn; lra |].
  split; [eexists; split; [reflexivity |]; split; cbn; lra |].
  split.
  - split; [cbn; lra |]. split; [reflexivity | cbn; lra].
  - split; [reflexivity | cbn; lra].
Qed.

(** * Further properties *)

(** ** The hidden signature that [GeneralMACE.__init__] accepts *)

Lemma count_uniform (n : nat) (irreps : Irreps) (ir : Irrep) :
  (forall mi, In mi irreps -> fst mi = n) ->
  count irreps ir =
  (n * List.length (filter (fun mi => Irrep_eqb (snd mi) ir) irreps))%nat.
Proof.
  induction irreps as [| [mul ir'] rest IH]; intros Hall; cbn [count filter snd].
  - cbn. lia.
  - assert (Hmul : mul = n) by (apply (Hall (mul, ir')); now left).
    rewrite IH by (intros mi Hin; apply Hall; now right).
    destruct (Irrep_eqb ir' ir); cbn [List.length]; lia.
Qed.

Section HiddenSignature.

Context {E : E3nn} {B : Blocks}.

Lemma GeneralMACE_init_accepts (kw : GeneralMACE_kwargs) (self : GeneralMACE) :
  GeneralMACE_init kw = Ok self ->
  (forall mi, In mi (kw_hidden_irreps kw) ->
              fst mi = count (kw_hidden_irreps kw) ir_0e) /\
  num_features self = count (kw_hidden_irreps kw) ir_0e /\
  hidden_irreps self = map (fun mi => (1%nat, snd mi)) (kw_hidden_irreps kw).
Proof.
  unfold GeneralMACE_init.
  destruct (all_mul_eq _ _) eqn:Hall; cbn [negb]; [| discriminate].
  intros [= <-]. cbn. split; [now apply all_mul_eq_spec |].
  split; [reflexivity |].
  unfold Irreps_of_list. now rewrite map_map.
Qed.

(** X1. [GeneralMACE.__init__] returns exactly when every multiplicity
    of [hidden_irreps] equals the number of [0e] features that the
    signature holds; the model then has that many features and keeps
    every declared irrep once, in the declared order. *)
Theorem hidden_irreps_accepted_iff (kw : GeneralMACE_kwargs) :
  (returns (GeneralMACE_init kw) <->
   forall mi, In mi (kw_hidden_irreps kw) ->
              fst mi = count (kw_hidden_irreps kw) ir_0e) /\
  (forall self, GeneralMACE_init kw = Ok self ->
     num_features self = count (kw_hidden_irreps kw) ir_0e /\
     hidden_irreps self =
       map (fun mi => (1%nat, snd mi)) (kw_hidden_irreps kw)).
Proof.
  split; [split |].
  - intros [self Hself]. exact (proj1 (GeneralMACE_init_accepts kw Hself)).
  - intros Hall. apply all_mul_eq_spec in Hall.
    unfold GeneralMACE_init. rewrite Hall. cbn [negb]. now eexists.
  - intros self Hself. exact (proj2 (GeneralMACE_init_accepts kw Hself)).
Qed.

(** X2. A model that is built from a signature with a nonzero
    multiplicity has exactly one [0e] entry in [hidden_irreps], and every
    entry has the multiplicity of that one: a signature without scalars,
    and one that lists [0e] twice, are turned down. *)
Theorem one_scalar_entry (kw : GeneralMACE_kwargs) (self : GeneralMACE) :
  GeneralMACE_init kw = Ok self ->
  (exists mi, In mi (kw_hidden_irreps kw) /\ fst mi <> 0%nat) ->
  List.length (scalar_entries (kw_hidden_irreps kw)) = 1%nat /\
  num_features self <> 0%nat /\
  forall mi, In mi (kw_hidden_irreps kw) -> fst mi = num_features self.
Proof.
  intros Hinit (mi & Hin & Hnz).
  destruct (GeneralMACE_init_accepts kw Hinit) as (Hall & Hnum & _).
  pose proof (count_uniform (kw_hidden_irreps kw) ir_0e Hall) as Hcount.
  fold (scalar_entries (kw_hidden_irreps kw)) in Hcount.
  assert (Hn : count (kw_hidden_irreps kw) ir_0e <> 0%nat)
    by (rewrite <- (Hall mi Hin); exact Hnz).
  rewrite Hnum. split; [nia |]. split; [exact Hn | exact Hall].
Qed.

End HiddenSignature.

Lemma one_scalar_entry_witness :
  GeneralMACE_init toy_kwargs = Ok toy_model /\
  List.length (scalar_entries (kw_hidden_irreps toy_kwargs)) = 1%nat /\
  num_features toy_model <> 0%nat.
Proof.
  split; [reflexivity |].
  destruct (one_scalar_entry toy_kwargs (eq_refl (Ok toy_model)))
    as (Hone & Hnz & _).
  - exists (1%nat, ir_0e). split; [now left | discriminate].
  - split; [exact Hone | exact Hnz].
Defined.

(** ** The polynomial order in closed form *)

Lemma geometric_closed (c : Z) (n : nat) :
  ((c - 1) * geometric c n = c ^ Z.of_nat n - 1)%Z.
Proof.
  induction n as [| n IH].
  - cbn [geometric Z.of_nat]. rewrite Z.pow_0_r. lia.
  - rewrite Nat2Z.inj_succ, Z.pow_succ_r by lia.
    cbn [geometric]. nia.
Qed.

Lemma geometric_one (n : nat) : geometric 1 n = Z.of_nat n.
Proof.
  induction n as [| n IH]; [reflexivity |].
  cbn [geometric]. rewrite IH. lia.
Qed.

Section PolyOrderClosedForm.

Context {E : E3nn} {B : Blocks}.

(** X3. After [n] layers the polynomial order is
    [s * (1 + c + ... + c^(n-1))], where [c] is the correlation and the
    step [s] is [c * lmax] without a configured [max_poly_order] and the
    configured value with one.  So [(c - 1) * order = s * (c^n - 1)], and
    the order grows by [s] per layer when the correlation is 1. *)
Theorem poly_order_closed_form (self : GeneralMACE) (d : EdgeData) (n : nat) :
  let c := correlation self in
  let s :=
    match max_poly_order self with
    | None => (c * Z.of_nat (lmax (sh_irreps self)))%Z
    | Some cap => cap
    end in
  let order := poly_order (run_layers self d n) in
  order = (s * geometric c n)%Z /\
  ((c - 1) * order = s * (c ^ Z.of_nat n - 1))%Z /\
  (c = 1%Z -> order = (Z.of_nat n * s)%Z).
Proof.
  intros c s order.
  assert (Horder : order = (s * geometric c n)%Z).
  { unfold order. induction n as [| n IH].
    - cbn. lia.
    - rewrite run_layers_S, layer_poly_order, IH.
      unfold next_poly_order, s. fold c. cbn [geometric].
      destruct (max_poly_order self); lia. }
  split; [exact Horder |]. split.
  - rewrite Horder.
    replace ((c - 1) * (s * geometric c n))%Z
      with (s * ((c - 1) * geometric c n))%Z by lia.
    now rewrite geometric_closed.
  - intros Hc. rewrite Horder, Hc, geometric_one. lia.
Qed.

(** X4. A model of one layer is built from [interaction_cls_first] alone
    and reads its features out through the nonlinear readout: the class
    of the later layers and the linear readout are not used. *)
Theorem single_layer_model (self : GeneralMACE) (vectors : list vec3)
    (node_specie senders receivers : list nat) :
  num_interactions self = 1%nat ->
  let d := edge_data self vectors node_specie senders receivers in
  let io :=
    interaction_cls_first self 0%nat
      {| ic_num_features := num_features self;
         ic_target_irreps := interaction_irreps self;
         ic_hidden_irreps := hidden_irreps self;
         ic_avg_num_neighbors := avg_num_neighbors self;
         ic_activation := activation self;
         ic_num_species := num_species self |}
      (interaction_inputs d (node_embedding self node_specie)) in
  let feats :=
    add_self_connection
      (EquivariantProductBasisBlock 0 (num_features self) (hidden_irreps self)
         (correlation self) (next_poly_order self 0) 0 (num_species self)
         (normalize self (fst io)) node_specie)
      (snd io) in
  GeneralMACE_call self vectors node_specie senders receivers =
  e3nn_stack
    [NonLinearReadoutBlock 0 (readout_mlp_irreps self) (output_irreps self)
       (activation self) (axis_to_mul feats)].
Proof.
  intros Hone d io feats.
  unfold GeneralMACE_call. fold d. rewrite Hone.
  rewrite outputs_run_layers. cbn [seq map].
  rewrite run_layers_S, layer_node_feats.
  unfold readout. rewrite Hone. cbn [Z.of_nat Z.sub Z.ltb Z.compare].
  reflexivity.
Qed.

End PolyOrderClosedForm.

Lemma single_layer_model_witness :
  num_interactions one_layer_model = 1%nat /\
  GeneralMACE_call one_layer_model [] [0%nat] [] [] = [[0 * (1 / 2)]].
Proof.
  split; [reflexivity |].
  rewrite (single_layer_model one_layer_model [] [0%nat] [] [] eq_refl).
  reflexivity.
Defined.

(** ** The checks of [gin_model.model] *)

Lemma fold_left_max_lt (rest : list nat) (x n : nat) :
  (fold_left Nat.max rest x < n)%nat <->
  (x < n)%nat /\ Forall (fun z => (z < n)%nat) rest.
Proof.
  revert x. induction rest as [| y rest IH]; intros x; cbn [fold_left].
  - split; [intros H; split; [exact H | constructor] | now intros [H _]].
  - rewrite IH. split.
    + intros [Hmax Hrest]. split; [lia |]. constructor; [lia | exact Hrest].
    + intros [Hx Hall]. inversion Hall; subst. split; [lia | assumption].
Qed.

Lemma energies_of_dict_returns (d : option (list (nat * R)))
    (num_species : option nat) (table : list R) :
  energies_of_dict d num_species = Ok table ->
  exists n, num_species = Some n /\ List.length table = n.
Proof.
  unfold energies_of_dict.
  destruct num_species as [n |]; cbn [py_range bind]; [| discriminate].
  intros H. exists n. split; [reflexivity |].
  destruct n as [| n].
  - cbn in H. now injection H as <-.
  - change (seq 0 (S n)) with (0%nat :: seq 1 n) in H.
    destruct d as [d |]; [| discriminate].
    injection H as <-. cbn [map List.length].
    now rewrite length_map, length_seq.
Qed.

Section ModelChecks.

Context {E : E3nn}.

Variables Rest RadialFn Weights : Type.
Variable mace :
  MACE_kwargs Rest RadialFn -> Weights ->
  list vec3 -> list nat -> list nat -> list nat -> result IrrepsArray.
Variable mace_init : MACE_kwargs Rest RadialFn -> nat -> result Weights.
Variable compute_avg_num_neighbors : option (list GraphsTuple) -> result R.
Variable compute_avg_min_neighbor_distance :
  option (list GraphsTuple) -> result R.
Variable compute_average_E0s :
  option (list GraphsTuple) -> option (list nat) -> result (list (nat * R)).

(** X5. Given a species table, the consistency check of [model] passes
    exactly when the table is not empty and all its entries are below
    [num_species]; on an empty table it raises the [ValueError] of
    [max()], whatever [num_species] is. *)
Theorem check_num_species_iff (a : model_args Rest RadialFn)
    (zs : list nat) (n : nat) :
  a_num_species a = Some n ->
  (check_num_species a (Some zs) = Ok tt <->
   zs <> [] /\ Forall (fun z => (z < n)%nat) zs) /\
  (forall a' : model_args Rest RadialFn,
     check_num_species a' (Some []) =
     Raise (ValueError "max() arg is an empty sequence")).
Proof.
  intros Hn. split; [| reflexivity].
  unfold check_num_species.
  destruct zs as [| x rest].
  - cbn. split; [discriminate | now intros [H _]].
  - cbn [py_max bind]. rewrite Hn. cbn [py_ge bind].
    destruct (Nat.leb_spec n (fold_left Nat.max rest x)) as [Hle | Hlt].
    + split; [discriminate |]. intros [_ Hall]. exfalso.
      inversion Hall; subst.
      assert (fold_left Nat.max rest x < n)%nat
        by (apply fold_left_max_lt; now split).
      lia.
    + split; [intros _ | reflexivity].
      split; [discriminate |].
      apply fold_left_max_lt in Hlt as [Hx Hrest]. now constructor.
Qed.

Lemma resolve_atomic_energies_returns (a : model_args Rest RadialFn)
    (z_table : option (list nat)) (table : np_array) :
  resolve_atomic_energies compute_average_E0s a z_table = Ok table ->
  (exists n xs,
     a_num_species a = Some n /\ table = Array1 xs /\ List.length xs = n) \/
  (a_num_species a = None /\ a_atomic_energies a = Some (AE_str "zero") /\
   table = Array0 0).
Proof.
  assert (Hdict : forall d,
            bind (energies_of_dict d (a_num_species a))
                 (fun xs => Ok (Array1 xs)) = Ok table ->
            exists n xs,
              a_num_species a = Some n /\ table = Array1 xs /\
              List.length xs = n).
  { intros d.
    destruct (energies_of_dict d (a_num_species a)) as [xs | e] eqn:Hd;
      [| discriminate].
    cbn [bind]. intros [= <-].
    apply energies_of_dict_returns in Hd as (n & Hn & Hlen).
    now exists n, xs. }
  unfold resolve_atomic_energies.
  destruct (a_atomic_energies a) as [[s | arr | d] |] eqn:Harg.
  - destruct (String.eqb s "average").
    { destruct (compute_average_E0s _ _) as [d | e]; [| discriminate].
      cbn [bind]. intros H. left. exact (Hdict _ H). }
    destruct (String.eqb s "isolated_atom").
    { intros H. left. exact (Hdict _ H). }
    destruct (String.eqb_spec s "zero") as [-> | _]; [| discriminate].
    intros [= <-]. destruct (a_num_species a) as [n |].
    + left. exists n, (repeat 0 n). repeat split. apply repeat_length.
    + now right.
  - destruct (a_num_species a) as [n |]; [| discriminate].
    destruct (Nat.eqb_spec (List.length arr) n) as [Hlen | _];
      [| discriminate].
    intros [= <-]. left. now exists n, arr.
  - intros H. left. exact (Hdict _ H).
  - destruct (a_atomic_energies_dict a) as [[| kv d] |].
    + cbn [String.eqb Ascii.eqb Bool.eqb].
      destruct (compute_average_E0s _ _) as [d | e]; [| discriminate].
      cbn [bind]. intros H. left. exact (Hdict _ H).
    + cbn. intros H. left. exact (Hdict _ H).
    + cbn [String.eqb Ascii.eqb Bool.eqb].
      destruct (compute_average_E0s _ _) as [d | e]; [| discriminate].
      cbn [bind]. intros H. left. exact (Hdict _ H).
Qed.

(** What [model] went through when it returns. *)
Lemma model_returns (a : model_args Rest RadialFn)
    (r : model_result Rest RadialFn Weights) :
  model mace_init compute_avg_num_neighbors compute_avg_min_neighbor_distance
        compute_average_E0s a = Ok r ->
  resolve_atomic_energies compute_average_E0s a
    (z_table_of (a_train_graphs a)) = Ok (c_atomic_energies (m_apply r)) /\
  check_num_species a (z_table_of (a_train_graphs a)) = Ok tt /\
  mk_num_species (c_kwargs (m_apply r)) = a_num_species a /\
  c_learnable_atomic_energies (m_apply r) = a_learnable_atomic_energies a /\
  match a_initialize_seed a with
  | Some seed => exists p, model_init mace_init (m_apply r) seed = Ok p /\
                           m_params r = Some p
  | None => m_params r = None
  end.
Proof.
  unfold model.
  destruct (resolve_avg_num_neighbors _ a) as [x | e]; [| discriminate].
  destruct (resolve_avg_r_min _ a) as [y | e]; [| discriminate].
  destruct (resolve_atomic_energies _ a _) as [table | e]; [| discriminate].
  destruct (check_num_species a _) as [[] | e]; [| discriminate].
  cbn [bind].
  destruct (match a_scaling a with Some _ => _ | None => _ end)
    as [mean_std | e]; [| discriminate].
  cbn [bind].
  destruct (a_initialize_seed a) as [seed |].
  - destruct (model_init _ _ _) as [p | e] eqn:Hinit; [| discriminate].
    cbn [bind]. intros [= <-]. cbn. repeat split. now exists p.
  - cbn [bind]. intros [= <-]. cbn. now repeat split.
Qed.

(** X6. Whatever form [atomic_energies] is given in (["average"],
    ["isolated_atom"], ["zero"], an array or a dictionary), a model that
    [model] returns for a given [num_species] holds a table of atomic
    energies with one axis and exactly [num_species] entries.  With
    [num_species] left at [None], what it holds is the array without an
    axis of [np.zeros(None)]. *)
Theorem atomic_energies_table_length (a : model_args Rest RadialFn)
    (r : model_result Rest RadialFn Weights) :
  model mace_init compute_avg_num_neighbors compute_avg_min_neighbor_distance
        compute_average_E0s a = Ok r ->
  match a_num_species a with
  | Some n =>
      exists xs,
        c_atomic_energies (m_apply r) = Array1 xs /\ List.length xs = n
  | None => c_atomic_energies (m_apply r) = Array0 0
  end.
Proof.
  intros Hmodel. apply model_returns in Hmodel as (Htable & _).
  apply resolve_atomic_energies_returns in Htable
    as [(n & xs & -> & Hxs & Hlen) | (-> & _ & Htable)].
  - now exists xs.
  - exact Htable.
Qed.

(** X7. With [num_species] left at its default, [None], [model] returns
    in one case only: [atomic_energies] is ["zero"], there are no training
    graphs and no seed.  It then returns no parameters, and a function
    that, when the atomic energies are not learnable, raises [IndexError]
    as soon as the energy model has returned: its table has no axis. *)
Theorem model_without_num_species (a : model_args Rest RadialFn)
    (r : model_result Rest RadialFn Weights) :
  a_num_species a = None ->
  model mace_init compute_avg_num_neighbors compute_avg_min_neighbor_distance
        compute_average_E0s a = Ok r ->
  a_atomic_energies a = Some (AE_str "zero") /\
  a_train_graphs a = None /\
  a_initialize_seed a = None /\
  m_params r = None /\
  (a_learnable_atomic_energies a = false ->
   forall (params : hk_params Weights) (vectors : list vec3)
          (node_z senders receivers : list nat) (x : IrrepsArray),
     mace (c_kwargs (m_apply r)) (weights params) vectors node_z senders
          receivers = Ok x ->
     model_ mace (m_apply r) params vectors node_z senders receivers =
     Raise (ArrayIndexError "Too many indices for array")).
Proof.
  intros Hnone Hmodel.
  apply model_returns in Hmodel as (Htable & Hcheck & Hkw & Hlearn & Hseed).
  apply resolve_atomic_energies_returns in Htable
    as [(n & xs & Hn & _) | (_ & Hzero & Htable)]; [congruence |].
  split; [exact Hzero |].
  assert (Hgraphs : a_train_graphs a = None).
  { destruct (a_train_graphs a) as [gs |]; [| reflexivity].
    cbn [z_table_of check_num_species] in Hcheck. rewrite Hnone in Hcheck.
    destruct (py_max _) as [m | e]; discriminate. }
  split; [exact Hgraphs |].
  assert (Hnoseed : a_initialize_seed a = None).
  { destruct (a_initialize_seed a) as [seed |]; [| reflexivity].
    destruct Hseed as (p & Hinit & _). unfold model_init in Hinit.
    destruct (mace_init _ seed) as [w | e]; [| discriminate].
    cbn [bind] in Hinit.
    destruct (c_learnable_atomic_energies (m_apply r)).
    - unfold init_atomic_energies_parameter in Hinit.
      rewrite Hkw, Hnone in Hinit. discriminate.
    - rewrite Htable in Hinit. discriminate. }
  split; [exact Hnoseed |].
  split; [now rewrite Hnoseed in Hseed |].
  intros Hfixed params vectors node_z senders receivers x Hx.
  unfold model_. rewrite Hx. cbn [bind].
  now rewrite Hlearn, Hfixed, Htable.
Qed.

(** X8. When the atomic energies are learnable, the parameter tree that
    the first run creates holds the tabulated energies: run on that tree,
    [model_] adds to every node the energy that the table gives its
    species, as it does when they are not learnable. *)
Theorem learnable_atomic_energies_start_at_table
    (c : closure Rest RadialFn) (seed : nat) (params : hk_params Weights)
    (vectors : list vec3) (node_z senders receivers : list nat)
    (x : IrrepsArray) :
  model_init mace_init c seed = Ok params ->
  mace (c_kwargs c) (weights params) vectors node_z senders receivers = Ok x ->
  model_ mace c params vectors node_z senders receivers =
  Ok (map2 Rplus
        (map (fun row => c_mean c + c_std c * rsum row) (array_0 x))
        (map (jnp_take 0 (constant_table c)) node_z)).
Proof.
  unfold model_init, model_. intros Hinit Hx.
  destruct (mace_init _ _) as [w | e]; [| discriminate].
  cbn [bind] in Hinit.
  destruct (c_learnable_atomic_energies c).
  - unfold init_atomic_energies_parameter in Hinit.
    destruct (mk_num_species (c_kwargs c)); [| discriminate].
    cbn [bind] in Hinit. injection Hinit as <-.
    cbn [weights atomic_energies_param] in *. rewrite Hx. cbn [bind].
    now rewrite map_map.
  - unfold constant_table.
    destruct (c_atomic_energies c) as [x0 | xs]; [discriminate |].
    cbn [take_rows bind] in Hinit. injection Hinit as <-.
    cbn [weights atomic_energies_param] in *. rewrite Hx.
    cbn [bind take_rows]. now rewrite map_map.
Qed.

End ModelChecks.

Lemma check_num_species_iff_witness :
  a_num_species (toy_args (Some 2%nat) None) = Some 2%nat /\
  check_num_species (toy_args (Some 2%nat) None) (Some [0%nat; 1%nat]) = Ok tt.
Proof.
  split; [reflexivity |].
  apply (proj1 (check_num_species_iff (toy_args (Some 2%nat) None)
                  [0%nat; 1%nat] (eq_refl (Some 2%nat)))).
  split; [discriminate |]. repeat constructor.
Defined.

Lemma atomic_energies_table_length_witness :
  exists r,
    toy_gin_model (toy_args (Some 2%nat) None) = Ok r /\
    exists xs,
      c_atomic_energies (m_apply r) = Array1 xs /\ List.length xs = 2%nat.
Proof.
  eexists. split; [reflexivity |].
  exact (atomic_energies_table_length
           (fun (_ : MACE_kwargs unit unit) (_ : nat) => Ok tt)
           (fun _ => Ok 1) (fun _ => Ok 1) (fun _ _ => Ok [])
           (toy_args (Some 2%nat) None) eq_refl).
Defined.

Lemma model_without_num_species_witness :
  a_num_species (toy_args None None) = None /\
  exists r,
    toy_gin_model (toy_args None None) = Ok r /\
    c_atomic_energies (m_apply r) = Array0 0 /\
    m_params r = None /\
    model_ toy_forward (m_apply r) toy_params [] [0%nat] [] [] =
    Raise (ArrayIndexError "Too many indices for array").
Proof.
  split; [reflexivity |].
  eexists. split; [reflexivity |]. split; [reflexivity |].
  destruct (model_without_num_species (E := toy_e3nn) toy_forward
              (fun (_ : MACE_kwargs unit unit) (_ : nat) => Ok tt)
              (fun _ => Ok 1) (fun _ => Ok 1) (fun _ _ => Ok [])
              (toy_args None None) eq_refl eq_refl)
    as (_ & _ & _ & Hparams & Hraise).
  split; [exact Hparams |].
  exact (Hraise eq_refl toy_params [] [0%nat] [] [] _ eq_refl).
Defined.

Lemma learnable_atomic_energies_start_at_table_witness :
  exists params,
    model_init (fun _ _ => Ok tt) learnable_closure 0 = Ok params /\
    atomic_energies_param params = Some [7] /\
    model_ toy_forward learnable_closure params [] [0%nat] [] [] =
    Ok [1 + 2 * rsum [0 * (1 / 2); 0 * (1 / 2) + 0 * (1 / 2)]
        + jnp_take 0 [7] 0%nat].
Proof.
  eexists. split; [reflexivity |]. split; [reflexivity |].
  exact (learnable_atomic_energies_start_at_table toy_forward
           (fun _ _ => Ok tt) learnable_closure 0 [] [0%nat] [] []
           eq_refl eq_refl).
Defined.

(** ** The command line *)

Lemma lstrip_all_space (s : string) :
  all_space s = true -> lstrip s = EmptyString.
Proof.
  induction s as [| c s IH]; cbn; [reflexivity |].
  intros H. apply andb_prop in H as [Hc Hs]. rewrite Hc. now apply IH.
Qed.

Lemma py_strip_all_space (s : string) :
  all_space s = true -> py_strip s = EmptyString.
Proof.
  intros H. unfold py_strip. now rewrite lstrip_all_space.
Qed.

Lemma contains_count (c : ascii) (s : string) :
  contains c s = false <-> count_char c s = 0%nat.
Proof.
  induction s as [| c' s IH]; cbn; [tauto |].
  destruct (Ascii.eqb c' c); cbn; [split; [discriminate | lia] | exact IH].
Qed.

Lemma py_split_length (sep : ascii) (s : string) :
  List.length (py_split sep s) = S (count_char sep s).
Proof.
  induction s as [| c s IH]; cbn [py_split count_char]; [reflexivity |].
  destruct (Ascii.eqb c sep); cbn [List.length]; [now rewrite IH |].
  destruct (py_split sep s); cbn in *; lia.
Qed.

Lemma py_split_none (sep : ascii) (s : string) :
  contains sep s = false -> py_split sep s = [s].
Proof.
  induction s as [| c s IH]; cbn; [reflexivity |].
  destruct (Ascii.eqb c sep); cbn; [discriminate |].
  intros H. now rewrite IH.
Qed.

Lemma py_split_one (sep : ascii) (k v : string) :
  contains sep k = false -> contains sep v = false ->
  py_split sep (k ++ String sep v) = [k; v].
Proof.
  intros Hk Hv. induction k as [| c k IH]; cbn.
  - rewrite Ascii.eqb_refl. now rewrite py_split_none.
  - cbn in Hk. destruct (Ascii.eqb c sep); [discriminate |].
    cbn in Hk. now rewrite IH.
Qed.

Lemma contains_append (c : ascii) (a b : string) :
  contains c (a ++ b) = contains c a || contains c b.
Proof.
  induction a as [| c' a IH]; cbn; [reflexivity |].
  now rewrite IH, orb_assoc.
Qed.

Lemma contains_middle (c : ascii) (a b : string) :
  contains c (a ++ String c b) = true.
Proof.
  induction a as [| c' a IH]; cbn [append contains].
  - now rewrite Ascii.eqb_refl.
  - rewrite IH. apply orb_true_r.
Qed.

Lemma ends_with_append (a b suffix : string) :
  ends_with b suffix = true -> ends_with (a ++ b) suffix = true.
Proof.
  intros H. induction a as [| c a IH]; [exact H |].
  cbn [append ends_with]. rewrite IH. apply orb_true_r.
Qed.

Section CommandLine.

Variable Gin : Type.
Variable gin_parse_config : string -> Gin -> outcome Gin.
Variable gin_parse_config_file : string -> Gin -> outcome Gin.

Lemma parse_args_app (key : option string) (xs ys : list string) (g : Gin) :
  parse_args gin_parse_config gin_parse_config_file key (xs ++ ys) g =
  abind (parse_args gin_parse_config gin_parse_config_file key xs)
        (fun next =>
           parse_args gin_parse_config gin_parse_config_file next ys) g.
Proof.
  revert key g. induction xs as [| x xs IH]; intros key g.
  - reflexivity.
  - cbn [app parse_args]. unfold abind.
    destruct (parse_arg _ _ key x g) as [g' [next | e]]; [| reflexivity].
    rewrite IH. reflexivity.
Qed.

Lemma first_char_nonempty (v : string) :
  v <> EmptyString -> exists a b, first_char v = Done a /\ last_char v = Done b.
Proof.
  destruct v as [| c v]; [now intros [] |]. intros _.
  exists c. revert c. induction v as [| c' v IH]; intros c.
  - now exists c.
  - destruct (IH c') as (b & _ & Hb). exists b. split; [reflexivity |].
    exact Hb.
Qed.

Lemma gin_bind_parameter_texts (key value : string) (g : Gin) :
  py_strip value <> EmptyString ->
  gin_bind_parameter gin_parse_config key value g =
  parse_configs gin_parse_config (texts_bound key (py_strip value)) g.
Proof.
  intros Hne. unfold gin_bind_parameter, texts_bound, is_quoted, is_reference,
    is_constant.
  set (v := py_strip value) in *.
  destruct (first_char_nonempty Hne) as (a & b & Ha & Hb).
  rewrite Ha, Hb. unfold abind, lift_outcome, when.
  destruct (Ascii.eqb a b && _); destruct (Ascii.eqb a at_char);
    destruct (_ || _ || _); destruct (any_alpha v); cbn [app parse_configs];
    unfold abind, aret;
    repeat (destruct (gin_call _ _) as [? [[] | ?]]; try reflexivity).
Qed.

Lemma starts_with_dashes (arg : string) :
  starts_with arg "--" = true ->
  exists s, arg = String "-" (String "-" s).
Proof.
  unfold starts_with.
  destruct arg as [| a [| b s]]; cbn [String.prefix]; try discriminate.
  - destruct (ascii_dec "-" a); discriminate.
  - destruct (ascii_dec "-" a) as [<- |]; [| discriminate].
    destruct (ascii_dec "-" b) as [<- |]; [| discriminate].
    intros _. now exists s.
Qed.

Lemma starts_with_dashes_append (s : string) :
  starts_with ("--" ++ s) "--" = true.
Proof.
  unfold starts_with. now destruct s.
Qed.

(** X9. For a value that is not blank, [gin_bind_parameter] hands to
    [gin.parse_config] the texts of [texts_bound], one after the other:
    the tests are not exclusive, and the last text, which decides the
    binding, is the quoted form exactly when the stripped value holds a
    letter.  So [True], [False] and [None] are bound as written and then
    again as strings. *)
Theorem gin_bind_parameter_calls (key value : string) (g : Gin) :
  py_strip value <> EmptyString ->
  let v := py_strip value in
  gin_bind_parameter gin_parse_config key value g =
    parse_configs gin_parse_config (texts_bound key v) g /\
  last (texts_bound key v) EmptyString =
    (if any_alpha v then quoted_binding key v else binding key v) /\
  (is_constant v = true ->
   texts_bound key v = [binding key v; quoted_binding key v]).
Proof.
  intros Hne v. split; [now apply gin_bind_parameter_texts |]. split.
  - unfold texts_bound.
    destruct (is_quoted v), (is_reference v), (is_constant v); reflexivity.
  - unfold is_constant. intros H.
    apply orb_prop in H as [H | H]; [apply orb_prop in H as [H | H] |];
      apply String.eqb_eq in H; rewrite H; reflexivity.
Qed.

(** X10. A value that is empty or blank raises [IndexError] before
    anything is handed to [gin], also when it comes as the argument
    after a key. *)
Theorem blank_value_is_an_index_error (key value : string) (g : Gin) :
  all_space value = true ->
  gin_bind_parameter gin_parse_config key value g =
    (g, Fail (IndexError "string index out of range")) /\
  parse_args gin_parse_config gin_parse_config_file (Some key) [value] g =
    (g, Fail (IndexError "string index out of range")).
Proof.
  intros Hblank.
  assert (Hbind : gin_bind_parameter gin_parse_config key value g =
                  (g, Fail (IndexError "string index out of range"))).
  { unfold gin_bind_parameter. now rewrite py_strip_all_space. }
  split; [exact Hbind |].
  cbn [parse_args parse_arg]. unfold abind. now rewrite Hbind.
Qed.

(** X11. [--key=value] and [--key value] have the same effect, for a key
    and a value without [=], as long as neither argument ends in
    [.gin]. *)
Theorem key_value_forms_agree (k v : string) (rest : list string) (g : Gin) :
  contains equals_char k = false ->
  contains equals_char v = false ->
  ends_with ("--" ++ k) ".gin" = false ->
  ends_with ("--" ++ k ++ String equals_char v) ".gin" = false ->
  parse_args gin_parse_config gin_parse_config_file None
    (("--" ++ k ++ String equals_char v)%string :: rest) g =
  parse_args gin_parse_config gin_parse_config_file None
    (("--" ++ k)%string :: v :: rest) g.
Proof.
  intros Hk Hv Hgin1 Hgin2.
  cbn [parse_args]. unfold parse_arg at 1 2. rewrite Hgin1, Hgin2.
  assert (Hc1 : contains equals_char ("--" ++ k ++ String equals_char v)
                = true).
  { change ("--" ++ k ++ String equals_char v)%string
      with (String "-" (String "-" (k ++ String equals_char v))).
    cbn [contains]. rewrite contains_middle. now rewrite !orb_true_r. }
  assert (Hc2 : contains equals_char ("--" ++ k) = false) by exact Hk.
  rewrite Hc1, Hc2.
  rewrite (starts_with_dashes_append (k ++ String equals_char v)).
  rewrite (starts_with_dashes_append k).
  change (drop2 ("--" ++ k ++ String equals_char v))
    with (k ++ String equals_char v)%string.
  change (drop2 ("--" ++ k)) with k.
  rewrite (py_split_one equals_char k v Hk Hv).
  unfold abind, aret. cbn [parse_arg]. unfold abind, aret.
  reflexivity.
Qed.

(** X12. While no key is pending, an argument that ends in [.gin] is
    handed whole to [gin.parse_config_file], also when it starts with
    [--]: [--key=file.gin] binds nothing. *)
Theorem gin_suffix_wins (prefix v : string) (rest : list string) (g : Gin) :
  ends_with v ".gin" = true ->
  parse_args gin_parse_config gin_parse_config_file None
    ((prefix ++ v)%string :: rest) g =
  abind (gin_call (gin_parse_config_file (prefix ++ v)%string))
        (fun _ => parse_args gin_parse_config gin_parse_config_file None rest)
        g.
Proof.
  intros Hgin. cbn [parse_args parse_arg].
  rewrite (ends_with_append prefix v ".gin" Hgin).
  unfold abind, aret.
  destruct (gin_call _ g) as [g' [[] | e]]; reflexivity.
Qed.

(** X13. A key that is the last argument is dropped: nothing is bound
    for it and nothing is raised. *)
Theorem trailing_key_is_dropped (prog k : string) (args : list string)
    (g g' : Gin) :
  parse_args gin_parse_config gin_parse_config_file None args g =
    (g', Done None) ->
  contains equals_char k = false ->
  ends_with ("--" ++ k) ".gin" = false ->
  parse_argv gin_parse_config gin_parse_config_file
    (prog :: args ++ [("--" ++ k)%string]) g = (g', Done tt).
Proof.
  intros Hargs Hk Hgin. unfold parse_argv. cbn [tl].
  unfold abind at 1. rewrite parse_args_app. unfold abind at 1.
  rewrite Hargs. cbn [parse_args parse_arg]. rewrite Hgin.
  rewrite (starts_with_dashes_append k).
  assert (Hc : contains equals_char ("--" ++ k) = false) by exact Hk.
  rewrite Hc. reflexivity.
Qed.

(** X14. An argument that neither ends in [.gin] nor starts with [--]
    raises [ValueError] when no key is pending: the arguments before it
    have taken effect, the ones after it are not looked at. *)
Theorem unknown_argument_stops (prog bad : string) (args rest : list string)
    (g g' : Gin) :
  parse_args gin_parse_config gin_parse_config_file None args g =
    (g', Done None) ->
  ends_with bad ".gin" = false ->
  starts_with bad "--" = false ->
  parse_argv gin_parse_config gin_parse_config_file
    (prog :: args ++ bad :: rest) g =
  (g', Fail (Builtin (ValueError "Unknown argument"))).
Proof.
  intros Hargs Hgin Hdash. unfold parse_argv. cbn [tl].
  unfold abind at 1. rewrite parse_args_app. unfold abind at 1.
  rewrite Hargs. cbn [parse_args parse_arg]. rewrite Hgin, Hdash.
  reflexivity.
Qed.

(** X15. An argument [--...] with two or more [=] raises [ValueError]
    from the unpacking of the split, and [gin] is left as it was. *)
Theorem too_many_equals_signs (arg : string) (rest : list string) (g : Gin) :
  ends_with arg ".gin" = false ->
  starts_with arg "--" = true ->
  (2 <= count_char equals_char arg)%nat ->
  parse_args gin_parse_config gin_parse_config_file None (arg :: rest) g =
  (g, Fail (Builtin (ValueError "too many values to unpack (expected 2)"))).
Proof.
  intros Hgin Hdash Hcount.
  cbn [parse_args parse_arg]. rewrite Hgin, Hdash.
  assert (Hc : contains equals_char arg = true).
  { destruct (contains equals_char arg) eqn:Hc; [reflexivity |].
    apply contains_count in Hc. lia. }
  rewrite Hc.
  destruct (starts_with_dashes arg Hdash) as [s ->].
  cbn [drop2]. cbn in Hcount.
  pose proof (py_split_length equals_char s) as Hlen.
  destruct (py_split equals_char s) as [| p1 [| p2 [| p3 ps]]];
    cbn in Hlen; try lia.
  reflexivity.
Qed.

End CommandLine.

Lemma gin_bind_parameter_calls_witness :
  py_strip " True " <> EmptyString /\
  gin_bind_parameter recording_parse_config "debug" " True " [] =
  ([Parsed "debug = True"; Parsed (quoted_binding "debug" "True")], Done tt).
Proof.
  split; [discriminate |].
  rewrite (proj1 (gin_bind_parameter_calls recording_parse_config
                    "debug" " True " [] ltac:(discriminate))).
  reflexivity.
Defined.

Lemma blank_value_is_an_index_error_witness :
  all_space "  " = true /\
  parse_args recording_parse_config recording_parse_config_file
    (Some "seed"%string) ["  "%string] [] =
  ([], Fail (IndexError "string index out of range")).
Proof.
  split; [reflexivity |].
  exact (proj2 (blank_value_is_an_index_error recording_parse_config
                  recording_parse_config_file "seed" "  " [] eq_refl)).
Defined.

Lemma key_value_forms_agree_witness :
  (contains equals_char "lr" = false /\
   contains equals_char "0.01" = false) /\
  parse_args recording_parse_config recording_parse_config_file None
    ["--lr=0.01"%string] [] =
  parse_args recording_parse_config recording_parse_config_file None
    ["--lr"%string; "0.01"%string] [].
Proof.
  split; [split; reflexivity |].
  exact (key_value_forms_agree recording_parse_config
           recording_parse_config_file "lr" "0.01" [] []
           eq_refl eq_refl eq_refl eq_refl).
Defined.

Lemma gin_suffix_wins_witness :
  ends_with "a.gin" ".gin" = true /\
  parse_args recording_parse_config recording_parse_config_file None
    ["--config=a.gin"%string] [] =
  ([ParsedFile "--config=a.gin"], Done None).
Proof.
  split; [reflexivity |].
  exact (eq_trans
           (gin_suffix_wins recording_parse_config
              recording_parse_config_file "--config=" "a.gin" [] [] eq_refl)
           eq_refl).
Defined.

Lemma trailing_key_is_dropped_witness :
  parse_args recording_parse_config recording_parse_config_file None
    ["--lr=0.01"%string] [] = ([Parsed "lr = 0.01"], Done None) /\
  parse_argv recording_parse_config recording_parse_config_file
    ["run.py"; "--lr=0.01"; "--seed"]%string [] =
  ([Parsed "lr = 0.01"], Done tt).
Proof.
  split; [reflexivity |].
  exact (trailing_key_is_dropped recording_parse_config
           recording_parse_config_file "run.py" "seed" ["--lr=0.01"%string]
           [] eq_refl eq_refl eq_refl).
Defined.

Lemma unknown_argument_stops_witness :
  parse_args recording_parse_config recording_parse_config_file None
    ["--lr=0.01"%string] [] = ([Parsed "lr = 0.01"], Done None) /\
  parse_argv recording_parse_config recording_parse_config_file
    ["run.py"; "--lr=0.01"; "train"; "--seed=1"]%string [] =
  ([Parsed "lr = 0.01"], Fail (Builtin (ValueError "Unknown argument"))).
Proof.
  split; [reflexivity |].
  exact (unknown_argument_stops recording_parse_config
           recording_parse_config_file "run.py" "train" ["--lr=0.01"%string]
           ["--seed=1"%string] [] eq_refl eq_refl eq_refl).
Defined.

Lemma too_many_equals_signs_witness :
  (2 <= count_char equals_char "--a=b=c")%nat /\
  parse_args recording_parse_config recording_parse_config_file None
    ["--a=b=c"%string] [] =
  ([], Fail (Builtin (ValueError "too many values to unpack (expected 2)"))).
Proof.
  split; [cbn; lia |].
  apply (too_many_equals_signs recording_parse_config
           recording_parse_config_file "--a=b=c" [] [] eq_refl eq_refl).
  cbn. lia.
Defined.

(** ** The training loop *)

Lemma float_ge_refl (x : pyfloat) : x <> NaN -> float_ge x x = true.
Proof.
  destruct x as [x | | |]; cbn; try reflexivity; [| congruence].
  intros _. destruct (Rle_dec x x) as [_ | Hn]; [reflexivity |].
  exfalso. apply Hn. lra.
Qed.

(** A loss that is not at or above the lowest one is below every loss that
    is. *)
Lemma float_ge_below (x l m : pyfloat) :
  l <> NaN -> m <> NaN ->
  float_ge x m = true -> float_ge l m = false -> float_ge x l = true.
Proof.
  intros Hl Hm.
  destruct x as [x | | |], l as [l | | |], m as [m | | |]; cbn;
    try congruence; try reflexivity.
  destruct (Rle_dec m x), (Rle_dec m l), (Rle_dec l x);
    try congruence; try reflexivity.
  intros _ _. exfalso. lra.
Qed.

Lemma float_ge_finite (x y : R) :
  y <= x -> float_ge (Finite x) (Finite y) = true.
Proof.
  intros H. cbn. now destruct (Rle_dec y x).
Qed.

Lemma validation_losses_app (xs ys : list train_event) :
  validation_losses (xs ++ ys) = validation_losses xs ++ validation_losses ys.
Proof.
  induction xs as [| [epoch | mode epoch loss_] xs IH]; cbn; [reflexivity | |].
  - exact IH.
  - destruct (String.eqb mode "eval_valid"); cbn; now rewrite IH.
Qed.

Lemma reload_loaded {Array : Type} (fs : file_system Array) (path : string)
    (config new_params fresh : pytree Array) (rest : list (pytree Array)) :
  fs path = Some (config :: new_params :: rest) ->
  snd (reload fs fresh (Some path)) = Ok new_params.
Proof.
  intros Hfile. unfold reload. rewrite Hfile. now destruct (negb _).
Qed.

Section Training.

Variable Array : Type.
Variable Loader : Type.
Variable loader_len : Loader -> nat.
Variable evaluate : pytree Array -> Loader -> pyfloat.
Variable operative_config : pytree Array.
Variable writable : string -> bool.

(** A computation keeps [P] when it returns. *)
Definition keeps {A : Type} (P : train_state Array -> Prop)
    (c : action (train_state Array) A) : Prop :=
  forall st st' r, P st -> c st = (st', Done r) -> P st'.

Lemma keeps_bind {A B : Type} (P : train_state Array -> Prop)
    (c : action (train_state Array) A)
    (k : A -> action (train_state Array) B) :
  keeps P c -> (forall x, keeps P (k x)) -> keeps P (abind c k).
Proof.
  intros Hc Hk st st' r HP. unfold abind.
  destruct (c st) as [st1 [x | e]] eqn:Hcst; [| discriminate].
  intros Hkx. exact (Hk x st1 st' r (Hc st st1 x HP Hcst) Hkx).
Qed.

Lemma keeps_ret {A : Type} (P : train_state Array -> Prop) (x : A) :
  keeps P (aret x).
Proof.
  intros st st' r HP [= <- _]. exact HP.
Qed.

Lemma keeps_awhen (P : train_state Array -> Prop) (b : bool)
    (c : action (train_state Array) unit) :
  keeps P c -> keeps P (awhen b c).
Proof.
  intros Hc. destruct b; [exact Hc | apply keeps_ret].
Qed.

(** The lowest loss is the initial one or a validation loss logged so
    far, no logged loss is below it unless a NaN was logged, and the
    patience counter is not negative. *)
Definition loss_invariant (st : train_state Array) : Prop :=
  (0 <= patience_counter st)%Z /\
  (lowest_loss st = PosInf \/
   In (lowest_loss st) (validation_losses (events st))) /\
  (Forall (fun x => x <> NaN) (validation_losses (events st)) ->
   Forall (fun x => float_ge x (lowest_loss st) = true)
          (validation_losses (events st))).

Lemma save_checkpoint_keeps (a : train_args Loader) (item : train_item Array) :
  keeps loss_invariant (save_checkpoint operative_config writable a item).
Proof.
  intros st st' r [Hc Hl]. unfold save_checkpoint.
  destruct (writable _); [| discriminate].
  intros [= <- _]. split; [exact Hc |]. cbn.
  rewrite validation_losses_app. cbn [validation_losses].
  rewrite app_nil_r. exact Hl.
Qed.

Lemma eval_other_keeps (a : train_args Loader) (item : train_item Array)
    (loader : Loader) (mode : string) :
  String.eqb mode "eval_valid" = false ->
  keeps loss_invariant (eval_and_print evaluate a item loader mode).
Proof.
  intros Hmode st st' r [Hc Hl]. unfold eval_and_print.
  destruct (log_errors_known a); [| discriminate].
  intros [= <- _]. split; [exact Hc |]. cbn.
  rewrite validation_losses_app. cbn [validation_losses].
  rewrite Hmode, app_nil_r. exact Hl.
Qed.

Lemma validation_keeps (a : train_args Loader) (patience : Z)
    (item : train_item Array) (loader : Loader) :
  keeps loss_invariant
    (abind (eval_and_print evaluate a item loader "eval_valid")
           (fun loss_ => update_patience patience loss_)).
Proof.
  intros st st' r (Hc & Hin & Hall). unfold abind, eval_and_print.
  destruct (log_errors_known a); [| discriminate].
  set (loss_ := evaluate (it_ema_params item) loader).
  assert (Hlog :
    validation_losses
      (events st ++ [Evaluated "eval_valid" (it_epoch item) loss_]) =
    validation_losses (events st) ++ [loss_])
    by (now rewrite validation_losses_app).
  unfold update_patience. cbn [lowest_loss patience_counter files events].
  destruct (float_ge loss_ (lowest_loss st)) eqn:Hge; intros [= <- _];
    unfold loss_invariant; cbn [patience_counter lowest_loss events];
    rewrite Hlog.
  - split; [lia |]. split.
    + destruct Hin as [Hinf | Hin]; [now left | right].
      apply in_or_app. now left.
    + intros Hnan. apply Forall_app in Hnan as [Hnan _].
      apply Forall_app. split; [now apply Hall |].
      apply Forall_cons; [exact Hge | apply Forall_nil].
  - split; [lia |]. split; [right; apply in_or_app; right; now left |].
    intros Hnan. apply Forall_app in Hnan as [Hnan Hloss].
    assert (Hl : loss_ <> NaN) by now inversion Hloss.
    assert (Hlow : lowest_loss st <> NaN).
    { destruct Hin as [-> | Hin]; [discriminate |].
      rewrite Forall_forall in Hnan. now apply Hnan. }
    apply Forall_app. split.
    + eapply Forall_impl; [| exact (Hall Hnan)].
      intros x Hx.
      apply float_ge_below with (m := lowest_loss st); assumption.
    + apply Forall_cons; [now apply float_ge_refl | apply Forall_nil].
Qed.

Lemma train_step_keeps (a : train_args Loader) (patience : Z)
    (item : train_item Array) :
  keeps loss_invariant
    (train_step loader_len evaluate operative_config writable a patience item).
Proof.
  unfold train_step.
  destruct (Z.eqb (eval_interval a) 0); [intros st st' r _; discriminate |].
  destruct (_ || _).
  - apply keeps_bind; [apply save_checkpoint_keeps | intros _].
    apply keeps_bind.
    { apply keeps_awhen, keeps_bind;
        [now apply eval_other_keeps | intros; apply keeps_ret]. }
    intros _. apply keeps_bind.
    { destruct (usable loader_len (test_loader a)); [| apply keeps_ret].
      apply keeps_awhen, keeps_bind;
        [now apply eval_other_keeps | intros; apply keeps_ret]. }
    intros _. apply keeps_bind.
    { destruct (usable loader_len (valid_loader a)); [| apply keeps_ret].
      apply validation_keeps. }
    intros stop. destruct stop; [apply keeps_ret |].
    destruct (Z.eqb _ _); apply keeps_ret.
  - destruct (Z.eqb _ _); apply keeps_ret.
Qed.

Lemma train_loop_keeps (a : train_args Loader) (patience : Z)
    (items : list (train_item Array)) (last : option (train_item Array)) :
  keeps loss_invariant
    (train_loop loader_len evaluate operative_config writable a patience
       items last).
Proof.
  revert last. induction items as [| item rest IH]; intros last.
  - apply keeps_ret.
  - cbn [train_loop]. apply keeps_bind; [apply train_step_keeps |].
    intros [|]; [apply IH | apply keeps_ret].
Qed.

(** X16. When [train] returns, the patience counter is not negative and
    the lowest loss it holds is the initial one, [np.inf], or one of the
    validation losses that were logged; and when none of the logged
    validation losses is NaN, none of them is below the lowest loss.  A
    NaN loss takes the place of the lowest loss, since [NaN >= x] is false,
    and the loss after it does too. *)
Theorem lowest_loss_is_minimum (a : train_args Loader) (patience : Z)
    (items : list (train_item Array)) (fs : file_system Array)
    (st : train_state Array) (r : Z * pytree Array) :
  train loader_len evaluate operative_config writable a patience items
    (initial_train_state fs) = (st, Done r) ->
  (0 <= patience_counter st)%Z /\
  (lowest_loss st = PosInf \/
   In (lowest_loss st) (validation_losses (events st))) /\
  (Forall (fun x => x <> NaN) (validation_losses (events st)) ->
   Forall (fun x => float_ge x (lowest_loss st) = true)
          (validation_losses (events st))).
Proof.
  intros Hrun.
  assert (Hkeeps : keeps loss_invariant
            (train loader_len evaluate operative_config writable a patience
               items)).
  { unfold train. apply keeps_bind; [apply train_loop_keeps |].
    intros [item |]; [apply keeps_ret |].
    intros st1 st2 r' _. discriminate. }
  apply (Hkeeps (initial_train_state fs) st r); [| exact Hrun].
  split; [cbn; lia |]. split; [now left |]. intros _. apply Forall_nil.
Qed.

(** *** Patience *)

Definition counter_ok (st : train_state Array) : Prop :=
  (0 <= patience_counter st)%Z.

Lemma abind_ext {A B : Type} (P : train_state Array -> Prop)
    (c : action (train_state Array) A)
    (k k' : A -> action (train_state Array) B) (st : train_state Array) :
  P st -> keeps P c -> (forall x st1, P st1 -> k x st1 = k' x st1) ->
  abind c k st = abind c k' st.
Proof.
  intros HP Hc Hk. unfold abind.
  destruct (c st) as [st1 [x | e]] eqn:Hcst; [| reflexivity].
  apply Hk. exact (Hc st st1 x HP Hcst).
Qed.

Lemma save_checkpoint_counter (a : train_args Loader)
    (item : train_item Array) :
  keeps counter_ok (save_checkpoint operative_config writable a item).
Proof.
  intros st st' r Hc. unfold save_checkpoint.
  destruct (writable _); [| discriminate]. now intros [= <- _].
Qed.

Lemma eval_and_print_counter (a : train_args Loader) (item : train_item Array)
    (loader : Loader) (mode : string) :
  keeps counter_ok (eval_and_print evaluate a item loader mode).
Proof.
  intros st st' r Hc. unfold eval_and_print.
  destruct (log_errors_known a); [| discriminate]. now intros [= <- _].
Qed.

Lemma update_patience_counter (patience : Z) (loss_ : pyfloat) :
  keeps counter_ok (update_patience patience loss_).
Proof.
  intros st st' r Hc. unfold update_patience, counter_ok in *.
  destruct (float_ge loss_ (lowest_loss st));
    intros [= <- _]; cbn; lia.
Qed.

Lemma evaluation_counter (a : train_args Loader) (item : train_item Array)
    (loader : Loader) (mode : string) (b : bool) :
  keeps counter_ok
    (awhen b (abind (eval_and_print evaluate a item loader mode)
                    (fun _ => aret tt))).
Proof.
  apply keeps_awhen, keeps_bind;
    [apply eval_and_print_counter | intros; apply keeps_ret].
Qed.

Lemma test_phase_counter (a : train_args Loader) (item : train_item Array)
    (b : bool) :
  keeps counter_ok
    match usable loader_len (test_loader a) with
    | Some loader =>
        awhen b (abind (eval_and_print evaluate a item loader "eval_test")
                       (fun _ => aret tt))
    | None => aret tt
    end.
Proof.
  destruct (usable loader_len (test_loader a));
    [apply evaluation_counter | apply keeps_ret].
Qed.

Lemma train_step_counter (a : train_args Loader) (patience : Z)
    (item : train_item Array) :
  keeps counter_ok
    (train_step loader_len evaluate operative_config writable a patience item).
Proof.
  unfold train_step.
  destruct (Z.eqb (eval_interval a) 0); [intros st st' r _; discriminate |].
  destruct (_ || _).
  - apply keeps_bind; [apply save_checkpoint_counter | intros _].
    apply keeps_bind; [apply evaluation_counter | intros _].
    apply keeps_bind; [apply test_phase_counter | intros _].
    apply keeps_bind.
    { destruct (usable loader_len (valid_loader a)); [| apply keeps_ret].
      apply keeps_bind;
        [apply eval_and_print_counter | apply update_patience_counter]. }
    intros stop. destruct stop; [apply keeps_ret |].
    destruct (Z.eqb _ _); apply keeps_ret.
  - destruct (Z.eqb _ _); apply keeps_ret.
Qed.

Lemma update_patience_small (patience : Z) (loss_ : pyfloat)
    (st : train_state Array) :
  (patience <= 1)%Z -> counter_ok st ->
  update_patience patience loss_ st = update_patience 1 loss_ st.
Proof.
  intros Hp Hc. unfold update_patience, counter_ok in *.
  destruct (float_ge loss_ (lowest_loss st)); [| reflexivity].
  replace (patience_counter st + 1 >=? patience)%Z with true
    by (symmetry; rewrite Z.geb_leb; apply Z.leb_le; lia).
  replace (patience_counter st + 1 >=? 1)%Z with true
    by (symmetry; rewrite Z.geb_leb; apply Z.leb_le; lia).
  reflexivity.
Qed.

Lemma train_step_small (a : train_args Loader) (patience : Z)
    (item : train_item Array) (st : train_state Array) :
  (patience <= 1)%Z -> counter_ok st ->
  train_step loader_len evaluate operative_config writable a patience item st =
  train_step loader_len evaluate operative_config writable a 1 item st.
Proof.
  intros Hp Hc. unfold train_step.
  destruct (Z.eqb (eval_interval a) 0); [reflexivity |].
  destruct (_ || _); [| reflexivity].
  apply (abind_ext (P := counter_ok)); [exact Hc | | intros _ st1 H1].
  { apply save_checkpoint_counter. }
  apply (abind_ext (P := counter_ok)); [exact H1 | | intros _ st2 H2].
  { apply evaluation_counter. }
  apply (abind_ext (P := counter_ok)); [exact H2 | | intros _ st3 H3].
  { apply test_phase_counter. }
  unfold abind at 1 3.
  replace (match usable loader_len (valid_loader a) with
           | Some loader =>
               abind (eval_and_print evaluate a item loader "eval_valid")
                     (fun loss_ => update_patience patience loss_)
           | None => aret false
           end st3)
    with (match usable loader_len (valid_loader a) with
          | Some loader =>
              abind (eval_and_print evaluate a item loader "eval_valid")
                    (fun loss_ => update_patience 1 loss_)
          | None => aret false
          end st3); [reflexivity |].
  destruct (usable loader_len (valid_loader a)); [| reflexivity].
  apply (abind_ext (P := counter_ok)); [exact H3 | |].
  - apply eval_and_print_counter.
  - intros loss_ st4 H4. symmetry. now apply update_patience_small.
Qed.

Lemma train_loop_small (a : train_args Loader) (patience : Z)
    (items : list (train_item Array)) (last : option (train_item Array))
    (st : train_state Array) :
  (patience <= 1)%Z -> counter_ok st ->
  train_loop loader_len evaluate operative_config writable a patience items
    last st =
  train_loop loader_len evaluate operative_config writable a 1 items last st.
Proof.
  intros Hp. revert last st.
  induction items as [| item rest IH]; intros last st Hc; [reflexivity |].
  cbn [train_loop]. unfold abind.
  rewrite (train_step_small a item Hp Hc).
  destruct (train_step _ _ _ _ a 1 item st) as [st1 [[|] | e]] eqn:Hstep;
    try reflexivity.
  apply IH. eapply train_step_counter; eassumption.
Qed.

(** X17. A patience of 0, or a negative one, is a patience of 1: in all
    three cases [train] stops at the first validation loss that does not
    improve on the lowest one, and does everything else alike. *)
Theorem patience_below_one (a : train_args Loader) (patience : Z)
    (items : list (train_item Array)) (fs : file_system Array) :
  (patience <= 1)%Z ->
  train loader_len evaluate operative_config writable a patience items
    (initial_train_state fs) =
  train loader_len evaluate operative_config writable a 1 items
    (initial_train_state fs).
Proof.
  intros Hp. unfold train, abind.
  rewrite (train_loop_small a items None Hp); [reflexivity |].
  unfold counter_ok. cbn. lia.
Qed.

(** *** Checkpoints *)

(** The epochs at which the loop saves and evaluates. *)
Definition evaluation_epoch (a : train_args Loader) (item : train_item Array)
    : bool :=
  Z.eqb (it_epoch item mod eval_interval a) 0
  || Z.eqb (it_epoch item) (max_num_epochs a).

Definition checkpoint_is (a : train_args Loader) (item : train_item Array)
    (st : train_state Array) : Prop :=
  files st (checkpoint_path a) = Some [operative_config; it_params item].

Definition saved_for (a : train_args Loader)
    (last : option (train_item Array)) (st : train_state Array) : Prop :=
  match last with
  | Some item => evaluation_epoch a item = true -> checkpoint_is a item st
  | None => True
  end.

Lemma eval_and_print_files (a : train_args Loader) (item item' : train_item Array)
    (loader : Loader) (mode : string) :
  keeps (checkpoint_is a item') (eval_and_print evaluate a item loader mode).
Proof.
  intros st st' r Hc. unfold eval_and_print.
  destruct (log_errors_known a); [| discriminate]. now intros [= <- _].
Qed.

Lemma update_patience_files (a : train_args Loader) (item : train_item Array)
    (patience : Z) (loss_ : pyfloat) :
  keeps (checkpoint_is a item) (update_patience patience loss_).
Proof.
  intros st st' r Hc. unfold update_patience.
  destruct (float_ge loss_ (lowest_loss st)); now intros [= <- _].
Qed.

Lemma train_step_saved (a : train_args Loader) (patience : Z)
    (item : train_item Array) (st st' : train_state Array) (next : flow) :
  train_step loader_len evaluate operative_config writable a patience item st
    = (st', Done next) ->
  saved_for a (Some item) st'.
Proof.
  unfold train_step, saved_for, evaluation_epoch.
  destruct (Z.eqb (eval_interval a) 0); [discriminate |].
  destruct (_ || _); [| intros _; discriminate].
  intros Hstep _. revert Hstep. unfold abind at 1.
  unfold save_checkpoint at 1.
  destruct (writable _); [| discriminate].
  set (st1 := {| lowest_loss := _ |}).
  assert (H1 : checkpoint_is a item st1).
  { unfold checkpoint_is, st1. cbn. now rewrite String.eqb_refl. }
  revert H1. generalize st1. clear st1. intros st1 H1 Hrest.
  match type of Hrest with
  | ?c st1 = _ =>
      enough (Hk : keeps (checkpoint_is a item) c)
        by exact (Hk st1 st' next H1 Hrest)
  end.
  apply keeps_bind.
  { apply keeps_awhen, keeps_bind;
      [apply eval_and_print_files | intros; apply keeps_ret]. }
  intros _. apply keeps_bind.
  { destruct (usable loader_len (test_loader a)); [| apply keeps_ret].
    apply keeps_awhen, keeps_bind;
      [apply eval_and_print_files | intros; apply keeps_ret]. }
  intros _. apply keeps_bind.
  { destruct (usable loader_len (valid_loader a)); [| apply keeps_ret].
    apply keeps_bind;
      [apply eval_and_print_files | intros; apply update_patience_files]. }
  intros stop. destruct stop; [apply keeps_ret |].
  destruct (Z.eqb _ _); apply keeps_ret.
Qed.

(** The items that the loop takes from the generator: all of them up to
    the first one at which it breaks or raises. *)
Fixpoint items_taken (a : train_args Loader) (patience : Z)
    (items : list (train_item Array)) (st : train_state Array)
    : list (train_item Array) :=
  match items with
  | [] => []
  | item :: rest =>
      match
        train_step loader_len evaluate operative_config writable a patience
          item st
      with
      | (st', Done Continue) => item :: items_taken a patience rest st'
      | _ => [item]
      end
  end.

Lemma items_taken_prefix (a : train_args Loader) (patience : Z)
    (items : list (train_item Array)) (st : train_state Array) :
  exists after, items = items_taken a patience items st ++ after.
Proof.
  revert st. induction items as [| item rest IH]; intros st.
  - now exists [].
  - cbn [items_taken].
    destruct (train_step _ _ _ _ a patience item st) as [st1 [[|] | e]].
    + destruct (IH st1) as [after Hafter]. exists after.
      cbn [app]. now rewrite <- Hafter.
    + now exists rest.
    + now exists rest.
Qed.

Lemma train_loop_saved (a : train_args Loader) (patience : Z)
    (items : list (train_item Array)) (last r : option (train_item Array))
    (st st' : train_state Array) :
  saved_for a last st ->
  train_loop loader_len evaluate operative_config writable a patience items
    last st = (st', Done r) ->
  saved_for a r st' /\
  ((items_taken a patience items st = [] /\ r = last) \/
   exists before item,
     items_taken a patience items st = before ++ [item] /\ r = Some item).
Proof.
  revert last st. induction items as [| item rest IH]; intros last st Hlast.
  - intros [= <- <-]. split; [exact Hlast | now left].
  - cbn [train_loop items_taken]. unfold abind.
    destruct (train_step _ _ _ _ a patience item st) as [st1 [[|] | e]]
      eqn:Hstep; [| | discriminate].
    + intros Hloop.
      pose proof (@train_step_saved a patience item st st1 _ Hstep) as Hs.
      destruct (IH (Some item) st1 Hs Hloop)
        as [Hsaved [[Hnil ->] | (before & item' & Htaken & ->)]].
      * split; [exact Hsaved |]. right. exists [], item.
        now rewrite Hnil.
      * split; [exact Hsaved |]. right. exists (item :: before), item'.
        now rewrite Htaken.
    + intros [= <- <-].
      split; [exact (@train_step_saved a patience item st st1 _ Hstep) |].
      right. now exists [], item.
Qed.

(** X18. What [train] returns is the epoch and the averaged parameters of
    the last item it took from the generator: the loop went on after every
    item before it, and broke at it or found the generator empty after it.
    If that epoch is one at which the loop evaluates (a multiple of
    [eval_interval], or [max_num_epochs]), the checkpoint file holds the
    configuration and the parameters of that item, not their average, and
    [reload] of the checkpoint returns these parameters. *)
Theorem checkpoint_round_trip (a : train_args Loader) (patience : Z)
    (items : list (train_item Array)) (fs : file_system Array)
    (st : train_state Array) (epoch : Z) (ema : pytree Array) :
  train loader_len evaluate operative_config writable a patience items
    (initial_train_state fs) = (st, Done (epoch, ema)) ->
  exists before item after,
    items = before ++ item :: after /\
    items_taken a patience items (initial_train_state fs) = before ++ [item] /\
    it_epoch item = epoch /\ it_ema_params item = ema /\
    (((epoch mod eval_interval a)%Z = 0%Z \/ epoch = max_num_epochs a) ->
     files st (checkpoint_path a) = Some [operative_config; it_params item] /\
     forall fresh,
       snd (reload (files st) fresh (Some (checkpoint_path a))) =
       Ok (it_params item)).
Proof.
  unfold train, abind.
  destruct (train_loop _ _ _ _ a patience items None (initial_train_state fs))
    as [st1 [[item |] | e]] eqn:Hloop; [| discriminate | discriminate].
  intros [= <- <- <-].
  destruct (train_loop_saved a patience items None (initial_train_state fs) I
              Hloop)
    as [Hsaved [[_ Hnone] | (before & item' & Htaken & [= ->])]];
    [discriminate |].
  destruct (items_taken_prefix a patience items (initial_train_state fs))
    as [after Hafter].
  exists before, item', after.
  split; [rewrite Hafter at 1; rewrite Htaken; now rewrite <- app_assoc |].
  split; [exact Htaken |]. split; [reflexivity |]. split; [reflexivity |].
  intros Hepoch.
  assert (Heval : evaluation_epoch a item' = true).
  { unfold evaluation_epoch.
    destruct Hepoch as [-> | ->]; [reflexivity |].
    rewrite Z.eqb_refl. apply orb_true_r. }
  split; [exact (Hsaved Heval) |].
  intros fresh. eapply reload_loaded. exact (Hsaved Heval).
Qed.

End Training.

Lemma lowest_loss_is_minimum_witness :
  exists st,
    toy_train 3 three_items (initial_train_state toy_files) =
      (st, Done (2%Z, Leaf 7%nat)) /\
    validation_losses (events st) = [Finite (INR 5); Finite (INR 7)] /\
    (0 <= patience_counter st)%Z /\
    (lowest_loss st = PosInf \/
     In (lowest_loss st) (validation_losses (events st))) /\
    (Forall (fun x => x <> NaN) (validation_losses (events st)) ->
     Forall (fun x => float_ge x (lowest_loss st) = true)
            (validation_losses (events st))).
Proof.
  eexists. split.
  - cbv -[Rle_dec INR].
    destruct (Rle_dec (INR 5) (INR 7)) as [_ | Hn]; [reflexivity |].
    exfalso. apply Hn. cbn. lra.
  - split; [reflexivity |].
    apply (lowest_loss_is_minimum (fun loader : nat => loader) toy_evaluate
             (Leaf 0%nat) (fun _ => true) toy_train_args 3%Z three_items
             toy_files (r := (2%Z, Leaf 7%nat))).
    cbv -[Rle_dec INR].
    destruct (Rle_dec (INR 5) (INR 7)) as [_ | Hn]; [reflexivity |].
    exfalso. apply Hn. cbn. lra.
Defined.

(** After the losses 5, NaN and 7 the lowest loss is 7: the NaN took the
    place of the 5, and the 7 the place of the NaN. *)
Example lowest_loss_after_nan :
  exists st,
    train (fun loader : nat => loader) toy_evaluate (Leaf 0%nat)
      (fun _ => true) nan_train_args 3 nan_items
      (initial_train_state toy_files) = (st, Done (3%Z, Leaf 7%nat)) /\
    validation_losses (events st) = [Finite (INR 5); NaN; Finite (INR 7)] /\
    lowest_loss st = Finite (INR 7) /\
    patience_counter st = 0%Z.
Proof.
  eexists. split; [reflexivity |]. repeat split.
Qed.

Lemma patience_below_one_witness :
  (0 <= 1)%Z /\
  toy_train 0 toy_items (initial_train_state toy_files) =
  toy_train 1 toy_items (initial_train_state toy_files).
Proof.
  split; [lia |].
  apply (patience_below_one (fun loader : nat => loader) toy_evaluate
           (Leaf 0%nat) (fun _ => true) toy_train_args (patience := 0%Z)
           toy_items toy_files).
  lia.
Defined.

Lemma checkpoint_round_trip_witness :
  exists st,
    toy_train 3 three_items (initial_train_state toy_files) =
      (st, Done (2%Z, Leaf 7%nat)) /\
    items_taken (fun loader : nat => loader) toy_evaluate (Leaf 0%nat)
      (fun _ => true) toy_train_args 3 three_items
      (initial_train_state toy_files) = [first_item; second_item] /\
    files st "results/run.pkl"%string = Some [Leaf 0%nat; Leaf 17%nat] /\
    snd (reload (files st) stored_params (Some "results/run.pkl"%string)) =
    Ok (Leaf 17%nat).
Proof.
  assert (Hrun : exists st,
            toy_train 3 three_items (initial_train_state toy_files) =
            (st, Done (2%Z, Leaf 7%nat))).
  { eexists. cbv -[Rle_dec INR].
    destruct (Rle_dec (INR 5) (INR 7)) as [_ | Hn]; [reflexivity |].
    exfalso. apply Hn. cbn. lra. }
  assert (Htaken :
    items_taken (fun loader : nat => loader) toy_evaluate (Leaf 0%nat)
      (fun _ => true) toy_train_args 3 three_items
      (initial_train_state toy_files) = [first_item] ++ [second_item]).
  { cbv -[Rle_dec INR].
    destruct (Rle_dec (INR 5) (INR 7)) as [_ | Hn]; [reflexivity |].
    exfalso. apply Hn. cbn. lra. }
  destruct Hrun as [st Hrun]. exists st. split; [exact Hrun |].
  split; [exact Htaken |].
  destruct (checkpoint_round_trip (fun loader : nat => loader) toy_evaluate
              (Leaf 0%nat) (fun _ => true) toy_train_args 3%Z three_items
              toy_files Hrun)
    as (before & item & after & _ & Hlast & _ & _ & Hfile).
  rewrite Htaken in Hlast. apply app_inj_tail in Hlast as [_ <-].
  destruct (Hfile (or_introl eq_refl)) as [Hsaved Hreload].
  split; [exact Hsaved | apply Hreload].
Defined.

(** ** What the training loop logs *)

Section TrainingLog.

Variable Array : Type.
Variable Loader : Type.
Variable loader_len : Loader -> nat.
Variable evaluate : pytree Array -> Loader -> pyfloat.
Variable operative_config : pytree Array.
Variable writable : string -> bool.

(** A computation that starts where [P] holds ends where [P] holds when it
    returns, and where [Q] holds of the exception when it raises. *)
Definition ensures {A : Type} (P : train_state Array -> Prop)
    (Q : train_state Array -> py_exn -> Prop)
    (c : action (train_state Array) A) : Prop :=
  forall st st' r, P st -> c st = (st', r) ->
    match r with
    | Done _ => P st'
    | Fail e => Q st' e
    end.

Lemma ensures_bind {A B : Type} (P : train_state Array -> Prop)
    (Q : train_state Array -> py_exn -> Prop)
    (c : action (train_state Array) A)
    (k : A -> action (train_state Array) B) :
  ensures P Q c -> (forall x, ensures P Q (k x)) -> ensures P Q (abind c k).
Proof.
  intros Hc Hk st st' r HP. unfold abind.
  destruct (c st) as [st1 [x | e]] eqn:Hcst.
  - intros Hkx. exact (Hk x st1 st' r (Hc st st1 (Done x) HP Hcst) Hkx).
  - intros [= <- <-]. exact (Hc st st1 (Fail e) HP Hcst).
Qed.

Lemma ensures_ret {A : Type} (P : train_state Array -> Prop)
    (Q : train_state Array -> py_exn -> Prop) (x : A) :
  ensures P Q (aret x).
Proof.
  intros st st' r HP [= <- <-]. exact HP.
Qed.

Lemma ensures_awhen (P : train_state Array -> Prop)
    (Q : train_state Array -> py_exn -> Prop) (b : bool)
    (c : action (train_state Array) unit) :
  ensures P Q c -> ensures P Q (awhen b c).
Proof.
  intros Hc. destruct b; [exact Hc | apply ensures_ret].
Qed.

(** The turn of the loop and the loop, from what holds of the checkpoint,
    of an evaluation and of the comparison with the lowest loss. *)
Lemma train_step_ensures (P : train_state Array -> Prop)
    (Q : train_state Array -> py_exn -> Prop)
    (a : train_args Loader) (patience : Z) (item : train_item Array) :
  (forall st e, P st -> Q st e) ->
  ensures P Q (save_checkpoint operative_config writable a item) ->
  (forall loader mode,
     mode = "eval_train"%string \/ mode = "eval_test"%string ->
     ensures P Q (eval_and_print evaluate a item loader mode)) ->
  (forall loader,
     ensures P Q
       (abind (eval_and_print evaluate a item loader "eval_valid")
              (fun loss_ => update_patience patience loss_))) ->
  ensures P Q
    (train_step loader_len evaluate operative_config writable a patience item).
Proof.
  intros HPQ Hsave Heval Hvalid. unfold train_step.
  destruct (Z.eqb (eval_interval a) 0).
  { intros st st' r HP [= <- <-]. now apply HPQ. }
  destruct (_ || _).
  - apply ensures_bind; [exact Hsave | intros _].
    apply ensures_bind.
    { apply ensures_awhen, ensures_bind;
        [apply Heval; now left | intros; apply ensures_ret]. }
    intros _. apply ensures_bind.
    { destruct (usable loader_len (test_loader a)); [| apply ensures_ret].
      apply ensures_awhen, ensures_bind;
        [apply Heval; now right | intros; apply ensures_ret]. }
    intros _. apply ensures_bind.
    { destruct (usable loader_len (valid_loader a)); [| apply ensures_ret].
      apply Hvalid. }
    intros stop. destruct stop; [apply ensures_ret |].
    destruct (Z.eqb _ _); apply ensures_ret.
  - destruct (Z.eqb _ _); apply ensures_ret.
Qed.

Lemma train_ensures (P : train_state Array -> Prop)
    (Q : train_state Array -> py_exn -> Prop)
    (a : train_args Loader) (patience : Z) (items : list (train_item Array)) :
  (forall st e, P st -> Q st e) ->
  (forall item,
     ensures P Q
       (train_step loader_len evaluate operative_config writable a patience
          item)) ->
  ensures P Q
    (train loader_len evaluate operative_config writable a patience items).
Proof.
  intros HPQ Hstep. unfold train. apply ensures_bind.
  - generalize (@None (train_item Array)).
    induction items as [| item rest IH]; intros last.
    + apply ensures_ret.
    + cbn [train_loop]. apply ensures_bind; [apply Hstep |].
      intros [|]; [apply IH | apply ensures_ret].
  - intros [item |]; [apply ensures_ret |].
    intros st st' r HP [= <- <-]. now apply HPQ.
Qed.

(** Every record has one of the three modes of [train]. *)
Definition mode_of_train (e : train_event) : Prop :=
  match e with
  | Evaluated mode _ _ =>
      mode = "eval_train"%string \/ mode = "eval_test"%string
      \/ mode = "eval_valid"%string
  | Saved _ => True
  end.

Definition modes_of_train (st : train_state Array) : Prop :=
  Forall mode_of_train (events st).

Lemma rows_of_mode_eval (log : list train_event) :
  Forall mode_of_train log -> rows_of_mode "eval" log = [].
Proof.
  induction 1 as [| e log He _ IH]; [reflexivity |].
  cbn. destruct e as [epoch | mode epoch loss_]; [exact IH |].
  destruct He as [-> | [-> | ->]]; exact IH.
Qed.

Lemma eval_and_print_modes (a : train_args Loader) (item : train_item Array)
    (loader : Loader) (mode : string) :
  mode = "eval_train"%string \/ mode = "eval_test"%string
  \/ mode = "eval_valid"%string ->
  ensures modes_of_train (fun st _ => modes_of_train st)
    (eval_and_print evaluate a item loader mode).
Proof.
  intros Hmode st st' r HP. unfold eval_and_print.
  assert (Hlog : Forall mode_of_train
            (events st ++
             [Evaluated mode (it_epoch item)
                (evaluate (it_ema_params item) loader)])).
  { apply Forall_app. split; [exact HP |].
    apply Forall_cons; [exact Hmode | apply Forall_nil]. }
  destruct (log_errors_known a); intros [= <- <-]; exact Hlog.
Qed.

Lemma update_patience_events (patience : Z) (loss_ : pyfloat)
    (st st' : train_state Array) (r : outcome bool) :
  update_patience patience loss_ st = (st', r) -> events st' = events st.
Proof.
  unfold update_patience.
  destruct (float_ge loss_ (lowest_loss st)); now intros [= <- _].
Qed.

(** X19. Whatever becomes of [train], no record that it has logged has
    the mode "eval", the one that [plot] selects as the validation data:
    the records have the modes "eval_train", "eval_test" and "eval_valid". *)
Theorem validation_is_not_logged_as_eval (a : train_args Loader)
    (patience : Z) (items : list (train_item Array)) (fs : file_system Array)
    (st : train_state Array) (r : outcome (Z * pytree Array)) :
  train loader_len evaluate operative_config writable a patience items
    (initial_train_state fs) = (st, r) ->
  Forall mode_of_train (events st) /\ rows_of_mode "eval" (events st) = [].
Proof.
  intros Hrun.
  assert (Hmodes : modes_of_train st).
  { assert (Hens : ensures modes_of_train (fun st _ => modes_of_train st)
              (train loader_len evaluate operative_config writable a patience
                 items)).
    { apply train_ensures; [now intros |]. intros item.
      apply train_step_ensures; [now intros | | |].
      - intros st1 st2 r1 HP. unfold save_checkpoint.
        destruct (writable _); intros [= <- <-]; [| exact HP].
        apply Forall_app. split; [exact HP |].
        apply Forall_cons; [exact I | apply Forall_nil].
      - intros loader mode [-> | ->]; apply eval_and_print_modes; auto.
      - intros loader. apply ensures_bind.
        + apply eval_and_print_modes; auto.
        + intros loss_ st1 st2 r1 HP Hup.
          apply update_patience_events in Hup as Hev.
          unfold modes_of_train. rewrite Hev.
          now destruct r1. }
    pose proof (Hens (initial_train_state fs) st r (Forall_nil _) Hrun) as H.
    now destruct r. }
  split; [exact Hmodes | now apply rows_of_mode_eval].
Qed.

(** Only checkpoints have been written: nothing has been evaluated. *)
Definition only_checkpoints (log : list train_event) : Prop :=
  Forall (fun e => exists epoch, e = Saved epoch) log.

(** One record, the last event, and [UnboundLocalError]. *)
Definition stopped_at_first_evaluation (log : list train_event) (e : py_exn)
    : Prop :=
  (exists msg, e = UnboundLocalError msg) /\
  exists before mode epoch loss_,
    log = before ++ [Evaluated mode epoch loss_] /\ only_checkpoints before.

(** X20. With a [log_errors] that is none of the four names, [train] does
    not get past its first evaluation: when it returns it has written
    checkpoints only and has evaluated nothing, so that the lowest loss is
    the initial one; and when a record has been logged, it is the only
    one, it is the last thing that happened, and [train] has raised
    [UnboundLocalError]. *)
Theorem unknown_log_errors_stops_at_first_evaluation (a : train_args Loader)
    (patience : Z) (items : list (train_item Array)) (fs : file_system Array)
    (st : train_state Array) (r : outcome (Z * pytree Array)) :
  log_errors_known a = false ->
  train loader_len evaluate operative_config writable a patience items
    (initial_train_state fs) = (st, r) ->
  match r with
  | Done _ => only_checkpoints (events st) /\ lowest_loss st = PosInf
  | Fail e =>
      only_checkpoints (events st) \/
      stopped_at_first_evaluation (events st) e
  end.
Proof.
  intros Hunknown Hrun.
  set (P := fun st : train_state Array =>
              only_checkpoints (events st) /\ lowest_loss st = PosInf).
  set (Q := fun (st : train_state Array) (e : py_exn) =>
              only_checkpoints (events st) \/
              stopped_at_first_evaluation (events st) e).
  assert (Heval : forall (item : train_item Array) loader mode,
            ensures P Q (eval_and_print evaluate a item loader mode)).
  { intros item loader mode st1 st2 r1 [HP _]. unfold eval_and_print.
    rewrite Hunknown. intros [= <- <-]. right. split; [now eexists |].
    exists (events st1), mode, (it_epoch item),
      (evaluate (it_ema_params item) loader).
    split; [reflexivity | exact HP]. }
  assert (Hens : ensures P Q
            (train loader_len evaluate operative_config writable a patience
               items)).
  { apply train_ensures; [intros st1 e [HP _]; now left |]. intros item.
    apply train_step_ensures; [intros st1 e [HP _]; now left | | |].
    - intros st1 st2 r1 [HP Hlow]. unfold save_checkpoint.
      destruct (writable _); intros [= <- <-]; [| now left].
      split; [| exact Hlow]. apply Forall_app. split; [exact HP |].
      apply Forall_cons; [now eexists | apply Forall_nil].
    - intros loader mode _. apply Heval.
    - intros loader st1 st2 r1 HP. unfold abind.
      destruct (eval_and_print evaluate a item loader "eval_valid" st1)
        as [st3 [loss_ | e]] eqn:Hev.
      + exfalso. unfold eval_and_print in Hev. rewrite Hunknown in Hev.
        discriminate.
      + intros [= <- <-]. exact (Heval item loader _ st1 st3 (Fail e) HP Hev). }
  assert (HP0 : P (initial_train_state fs))
    by (split; [apply Forall_nil | reflexivity]).
  exact (Hens (initial_train_state fs) st r HP0 Hrun).
Qed.

End TrainingLog.

Lemma validation_is_not_logged_as_eval_witness :
  exists st,
    toy_train 3 toy_items (initial_train_state toy_files) =
      (st, Done (1%Z, stored_params)) /\
    validation_losses (events st) = [Finite 1] /\
    rows_of_mode "eval" (events st) = [].
Proof.
  eexists. split; [reflexivity |].
  split; [reflexivity |].
  exact (proj2 (validation_is_not_logged_as_eval (fun loader : nat => loader)
                  toy_evaluate (Leaf 0%nat) (fun _ => true) toy_train_args
                  3%Z toy_items toy_files eq_refl)).
Defined.

Lemma unknown_log_errors_stops_at_first_evaluation_witness :
  log_errors_known mistyped_train_args = false /\
  exists st e,
    train (fun loader : nat => loader) toy_evaluate (Leaf 0%nat)
      (fun _ => true) mistyped_train_args 3 toy_items
      (initial_train_state toy_files) = (st, Fail e) /\
    events st = [Saved 1; Evaluated "eval_valid" 1 (Finite 1)] /\
    (only_checkpoints (events st) \/
     stopped_at_first_evaluation (events st) e).
Proof.
  split; [reflexivity |].
  eexists. eexists. split; [reflexivity |].
  split; [reflexivity |].
  exact (unknown_log_errors_stops_at_first_evaluation
           (fun loader : nat => loader) toy_evaluate (Leaf 0%nat)
           (fun _ => true) mistyped_train_args 3%Z toy_items toy_files
           eq_refl eq_refl).
Defined.

(** ** The names of the plots *)

Lemma rfind_succ_none (sep : ascii) (f : string) :
  contains sep f = false -> rfind_succ sep f = O.
Proof.
  induction f as [| c f IH]; cbn; [reflexivity |].
  destruct (Ascii.eqb c sep); cbn; [discriminate |].
  intros H. now rewrite IH.
Qed.

Lemma rfind_succ_append (sep : ascii) (d f : string) :
  contains sep f = false ->
  rfind_succ sep (d ++ String sep f) = S (String.length d).
Proof.
  intros Hf. induction d as [| c d IH]; cbn.
  - now rewrite (@rfind_succ_none sep f Hf), Ascii.eqb_refl.
  - now rewrite IH.
Qed.

Lemma str_take_append (d f : string) (sep : ascii) :
  str_take (S (String.length d)) (d ++ String sep f) =
  (d ++ String sep EmptyString)%string.
Proof.
  induction d as [| c d IH]; [reflexivity |].
  cbn in *. now rewrite IH.
Qed.

Lemma str_drop_append (d f : string) (sep : ascii) :
  str_drop (S (String.length d)) (d ++ String sep f) = f.
Proof.
  induction d as [| c d IH]; [reflexivity |].
  cbn in *. exact IH.
Qed.

Lemma basename_append (d f : string) :
  contains slash_char f = false ->
  basename (d ++ String slash_char f) = f.
Proof.
  intros Hf. unfold basename.
  now rewrite (@rfind_succ_append slash_char d f Hf), str_drop_append.
Qed.

Lemma basename_bare (p : string) :
  contains slash_char p = false -> basename p = p.
Proof.
  intros Hp. unfold basename. now rewrite (@rfind_succ_none _ p Hp).
Qed.

Lemma dirname_bare (p : string) :
  contains slash_char p = false -> dirname p = EmptyString.
Proof.
  intros Hp. unfold dirname. rewrite (@rfind_succ_none _ p Hp).
  now destruct p.
Qed.

Lemma rstrip_char_snoc (sep : ascii) (d : string) :
  rstrip_char sep (d ++ String sep EmptyString) = rstrip_char sep d.
Proof.
  induction d as [| c d IH]; cbn.
  - now rewrite Ascii.eqb_refl.
  - now rewrite IH.
Qed.

Lemma rstrip_char_kept (sep c : ascii) (d : string) :
  last_char d = Done c -> Ascii.eqb c sep = false -> rstrip_char sep d = d.
Proof.
  intros Hlast Hc. induction d as [| a d IH]; [discriminate |].
  destruct d as [| b d].
  - cbn in Hlast. injection Hlast as ->. cbn. now rewrite Hc.
  - change (last_char (String b d) = Done c) in Hlast.
    specialize (IH Hlast). cbn [rstrip_char] in *. now rewrite IH.
Qed.

Lemma all_char_last (sep c : ascii) (d s : string) :
  last_char d = Done c -> Ascii.eqb c sep = false ->
  all_char sep (d ++ s) = false.
Proof.
  intros Hlast Hc. induction d as [| a d IH]; [discriminate |].
  destruct d as [| b d].
  - cbn in Hlast. injection Hlast as ->. cbn. now rewrite Hc.
  - change (last_char (String b d) = Done c) in Hlast.
    specialize (IH Hlast). cbn [append all_char] in *.
    rewrite IH. apply andb_false_r.
Qed.

Lemma dirname_append (c : ascii) (d f : string) :
  last_char d = Done c -> Ascii.eqb c slash_char = false ->
  contains slash_char f = false ->
  dirname (d ++ String slash_char f) = d.
Proof.
  intros Hlast Hc Hf. unfold dirname.
  rewrite (@rfind_succ_append slash_char d f Hf), str_take_append.
  rewrite (@all_char_last slash_char c d _ Hlast Hc).
  destruct d as [| a d]; [discriminate |]. cbn [append String.eqb negb andb].
  change (String a (d ++ String slash_char EmptyString))
    with (String a d ++ String slash_char EmptyString)%string.
  rewrite rstrip_char_snoc. exact (@rstrip_char_kept slash_char c _ Hlast Hc).
Qed.

Lemma first_part_stem (stem rest : string) :
  contains dot_char stem = false ->
  first_part (py_split dot_char (stem ++ String dot_char rest)) = Done stem.
Proof.
  intros Hstem. induction stem as [| c stem IH]; cbn.
  - reflexivity.
  - cbn in Hstem. destruct (Ascii.eqb c dot_char); [discriminate |].
    cbn in Hstem. specialize (IH Hstem).
    destruct (py_split dot_char (stem ++ String dot_char rest))
      as [| part parts]; [discriminate |].
    cbn in IH. now injection IH as ->.
Qed.

Lemma items_get_set (fields : list (string * json)) (key : string) (v : json) :
  items_get (items_set fields key v) key = Some v.
Proof.
  induction fields as [| [k x] fields IH]; cbn.
  - now rewrite String.eqb_refl.
  - destruct (String.eqb k key) eqn:Hk; cbn; now rewrite Hk.
Qed.

Lemma items_get_set_other (fields : list (string * json)) (key key' : string)
    (v : json) :
  String.eqb key' key = false ->
  items_get (items_set fields key' v) key = items_get fields key.
Proof.
  intros Hne. induction fields as [| [k x] fields IH]; cbn.
  - now rewrite Hne.
  - destruct (String.eqb k key') eqn:Hk; cbn.
    + apply String.eqb_eq in Hk. subst k. now rewrite Hne.
    + now rewrite IH.
Qed.

Section Plots.

Variable read_lines : string -> outcome (list string).
Variable json_loads : string -> outcome json.
Variable isfile : string -> bool.
Variable glob : string -> list string.

(** The two columns that [parse_training_results] sets in every record. *)
Lemma parse_lines_columns (path name : string) (lines : list string)
    (results : list json) :
  first_part (py_split dot_char (basename path)) = Done name ->
  parse_lines json_loads path lines = Done results ->
  Forall (fun d => column d "path" = Some (JString (dirname path)) /\
                   column d "name" = Some (JString name)) results.
Proof.
  intros Hname. revert results.
  induction lines as [| line lines IH]; intros results; cbn [parse_lines].
  - intros [= <-]. apply Forall_nil.
  - rewrite Hname. unfold obind at 1.
    destruct (json_loads line) as [d | e]; [| discriminate].
    destruct d as [| b | x | s | items | fields]; try discriminate.
    cbn [setitem obind].
    destruct (parse_lines json_loads path lines) as [others | e];
      [| discriminate].
    intros [= <-]. apply Forall_cons; [| now apply IH].
    cbn [column]. split.
    + rewrite items_get_set_other by reflexivity. apply items_get_set.
    + apply items_get_set.
Qed.

(** X21. The name of a record is the part of the file name before its
    first dot, and its path is the directory of the file, whatever name
    and path the line holds itself: for a file [stem.rest] in [dir], name
    [stem] and path [dir], so that the records of all the files of [dir]
    whose names begin with [stem.] are in one group, the one that [main]
    has plotted into [dir/stem.pdf]. *)
Theorem records_named_by_stem (dir stem rest : string) (c : ascii)
    (results : list json) :
  last_char dir = Done c -> Ascii.eqb c slash_char = false ->
  contains slash_char stem = false -> contains dot_char stem = false ->
  contains slash_char rest = false ->
  parse_training_results read_lines json_loads
    (dir ++ "/" ++ stem ++ "." ++ rest) = Done results ->
  Forall (fun d => column d "path" = Some (JString dir) /\
                   column d "name" = Some (JString stem) /\
                   output_path_of d = Some (dir ++ "/" ++ stem ++ ".pdf")%string)
    results.
Proof.
  intros Hlast Hc Hstem Hdot Hrest. unfold parse_training_results, obind.
  destruct (read_lines _) as [lines | e]; [| discriminate].
  intros Hparse.
  assert (Hfile : contains slash_char (stem ++ "." ++ rest) = false).
  { rewrite contains_append, Hstem. cbn. exact Hrest. }
  assert (Hname :
    first_part
      (py_split dot_char (basename (dir ++ "/" ++ stem ++ "." ++ rest))) =
    Done stem).
  { change (dir ++ "/" ++ stem ++ "." ++ rest)%string
      with (dir ++ String slash_char (stem ++ "." ++ rest))%string.
    rewrite (@basename_append dir _ Hfile).
    exact (@first_part_stem stem rest Hdot). }
  pose proof (@parse_lines_columns _ _ _ _ Hname Hparse) as Hcols.
  change (dir ++ "/" ++ stem ++ "." ++ rest)%string
    with (dir ++ String slash_char (stem ++ "." ++ rest))%string in Hcols.
  rewrite (@dirname_append c dir _ Hlast Hc Hfile) in Hcols.
  eapply Forall_impl; [| exact Hcols].
  intros d [Hpath Hn]. repeat split; try assumption.
  unfold output_path_of. now rewrite Hpath, Hn.
Qed.

Lemma results_of_one (path : string) (results : list json) :
  results_of read_lines json_loads [path] = Done results ->
  parse_training_results read_lines json_loads path = Done results.
Proof.
  cbn [results_of]. unfold obind at 1.
  destruct (parse_training_results _ _ path) as [rs | e]; [| discriminate].
  cbn. intros [= <-]. now rewrite app_nil_r.
Qed.

(** X22. For a file that is named without a directory, the path of the
    records is the empty string, and the output path that [main] gives to
    [plot] is [/stem.pdf]: at the root of the file system, not beside the
    file. *)
Theorem bare_file_name_plots_at_root (stem rest : string)
    (rows : list json) :
  contains slash_char stem = false -> contains dot_char stem = false ->
  contains slash_char rest = false ->
  isfile (stem ++ "." ++ rest) = true ->
  main_rows read_lines json_loads isfile glob (stem ++ "." ++ rest) =
    Done rows ->
  Forall (fun d => column d "path" = Some (JString EmptyString) /\
                   output_path_of d = Some ("/" ++ stem ++ ".pdf")%string)
    rows.
Proof.
  intros Hstem Hdot Hrest Hisfile. unfold main_rows, get_paths.
  rewrite Hisfile. cbn [obind]. intros Hrows.
  apply results_of_one in Hrows.
  unfold parse_training_results, obind in Hrows.
  destruct (read_lines _) as [lines | e]; [| discriminate].
  assert (Hfile : contains slash_char (stem ++ "." ++ rest) = false).
  { rewrite contains_append, Hstem. cbn. exact Hrest. }
  assert (Hname :
    first_part (py_split dot_char (basename (stem ++ "." ++ rest))) =
    Done stem).
  { rewrite (@basename_bare _ Hfile). exact (@first_part_stem stem rest Hdot). }
  pose proof (@parse_lines_columns _ _ _ _ Hname Hrows) as Hcols.
  rewrite (@dirname_bare _ Hfile) in Hcols.
  eapply Forall_impl; [| exact Hcols].
  intros d [Hpath Hn]. split; [exact Hpath |].
  unfold output_path_of. now rewrite Hpath, Hn.
Qed.

End Plots.

Lemma records_named_by_stem_witness :
  exists results,
    parse_training_results toy_read_lines toy_json_loads
      "results/run.1.metrics" = Done results /\
    length results = 1%nat /\
    Forall (fun d => column d "path" = Some (JString "results") /\
                     column d "name" = Some (JString "run") /\
                     output_path_of d = Some "results/run.pdf"%string)
      results.
Proof.
  eexists. split; [reflexivity |]. split; [reflexivity |].
  exact (@records_named_by_stem toy_read_lines toy_json_loads "results" "run"
           "1.metrics" "s"%char _ eq_refl eq_refl eq_refl eq_refl eq_refl
           eq_refl).
Defined.

Lemma bare_file_name_plots_at_root_witness :
  toy_isfile "run.metrics" = true /\
  exists rows,
    main_rows toy_read_lines toy_json_loads toy_isfile toy_glob
      "run.metrics" = Done rows /\
    length rows = 1%nat /\
    Forall (fun d => column d "path" = Some (JString EmptyString) /\
                     output_path_of d = Some "/run.pdf"%string)
      rows.
Proof.
  split; [reflexivity |].
  eexists. split; [reflexivity |]. split; [reflexivity |].
  exact (@bare_file_name_plots_at_root toy_read_lines toy_json_loads
           toy_isfile toy_glob "run" "metrics" _ eq_refl eq_refl eq_refl
           eq_refl eq_refl).
Defined.
